(** * The Logger dispatch pipeline of [src/logger.js]

    A shallow embedding of the leveled logger: level resolution
    ([getLevelNumber]), the threshold gate and the stream choice of [log],
    the default pre-processing callable ([Defaults.prelog]), error
    rendering ([Logger.formatError]), the direct writers ([print],
    [eprint]) and the construction-time stream check
    ([checkWriteStream]).

    JavaScript values are first-order data; every function of the source
    that can fail returns an [outcome]; stream writes and invocations of
    the configurable callables are recorded, in order, in a trace. *)

From Stdlib Require Import ZArith Bool List String Ascii DecimalString Lia.
Import ListNotations.
Local Open Scope string_scope.
Local Open Scope Z_scope.

(** ** The fragment of the JavaScript runtime that the logger relies on *)

Module JS.

(** Numbers: the doubles of the runtime.  [Int z] is the integer [z] and
    [Frac m e] the double [m / 2^e] that is no integer ([m] odd).  The
    negative zero has no representative of its own: it prints, compares
    and adds like [Int 0].  The integers beyond [2^53] that are no
    doubles are not excluded, and arithmetic on integers is exact. *)
Inductive number : Type :=
| NaN
| Inf (negative : bool)
| Int (z : Z)
| Frac (m : Z) (e : positive).

(** What [parseStack] and [formatError] read off an [Error] instance. *)
Record ErrorInfo : Type := mkErrorInfo {
  err_name : string;             (* err.name *)
  err_constructor_name : string; (* err.constructor.name *)
  err_message : string;          (* err.message *)
  err_stack : string             (* err.stack *)
}.

(** Values.  Objects are data objects: [VObject] lists the own enumerable
    string-keyed properties in [Object.entries] order, [VError] carries
    the extra own properties attached to an error.  Functions and streams
    are opaque. *)
#[warnings="-register-all"]
Inductive value : Type :=
| VUndefined
| VNull
| VBool (b : bool)
| VNum (n : number)
| VStr (s : string)
| VSymbol (description : string)
| VFunction (source : string)
| VStream (name : string)
| VArray (items : list value)
| VObject (entries : list (string * value))
| VError (info : ErrorInfo) (props : list (string * value)).

(** Exceptions: the type errors of the runtime, the [ArgumentError] of
    the logger, and [Thrown v] for a value [v] thrown by code outside the
    logger (a configured callable, the [write] method of a stream). *)
Inductive exception : Type :=
| TypeError (message : string)
| ArgumentError (message : string)
| Thrown (what : value).

(** Completion of a call: a result or a raised exception. *)
Inductive outcome (A : Type) : Type :=
| Return (a : A)
| Raise (e : exception).
Arguments Return {A} a.
Arguments Raise {A} e.

Definition obind {A B : Type} (m : outcome A) (f : A -> outcome B) : outcome B :=
  match m with
  | Return a => f a
  | Raise e => Raise e
  end.

Notation "'let?' x := m 'in' k" := (obind m (fun x => k))
  (at level 10, x name, m at level 100, k at level 200).

Definition raises {A : Type} (m : outcome A) : bool :=
  match m with Return _ => false | Raise _ => true end.

(** *** Strings *)

Definition chars (s : string) : list ascii := list_ascii_of_string s.

Definition code (c : ascii) : Z := Z.of_nat (nat_of_ascii c).

(** [String.prototype.toLowerCase] and [toUpperCase] on 8-bit code units:
    the ASCII letters change case, every other unit is kept. *)
Definition lower_char (c : ascii) : ascii :=
  if (65 <=? code c) && (code c <=? 90)
  then ascii_of_nat (nat_of_ascii c + 32) else c.

Definition upper_char (c : ascii) : ascii :=
  if (97 <=? code c) && (code c <=? 122)
  then ascii_of_nat (nat_of_ascii c - 32) else c.

Fixpoint toLowerCase (s : string) : string :=
  match s with
  | EmptyString => EmptyString
  | String c r => String (lower_char c) (toLowerCase r)
  end.

Fixpoint toUpperCase (s : string) : string :=
  match s with
  | EmptyString => EmptyString
  | String c r => String (upper_char c) (toUpperCase r)
  end.

(** *** Rounding to a double *)

(** [- n] *)
Definition negate (n : number) : number :=
  match n with
  | NaN => NaN
  | Inf b => Inf (negb b)
  | Int z => Int (- z)
  | Frac m e => Frac (- m) e
  end.

(** The integer nearest to [a / b], the even one of two that are equally
    near ([0 <= a], [0 < b]). *)
Definition round_half_even (a b : Z) : Z :=
  let q := a / b in
  match 2 * (a mod b) ?= b with
  | Lt => q
  | Gt => q + 1
  | Eq => if Z.even q then q else q + 1
  end.

(** [floor (log2 (a / b))] for [0 < a] and [0 < b]. *)
Definition binary_exponent (a b : Z) : Z :=
  let e := Z.log2 a - Z.log2 b in
  if a * 2 ^ Z.max 0 (- e) <? b * 2 ^ Z.max 0 e then e - 1 else e.

(** The number of times 2 divides [p]. *)
Fixpoint trailing_zeros (p : positive) : Z :=
  match p with
  | xO q => 1 + trailing_zeros q
  | _ => 0
  end.

(** The number [m * 2^t]. *)
Definition dyadic (m t : Z) : number :=
  if 0 <=? t then Int (m * 2 ^ t)
  else
    let s := match m with
             | Z0 => - t
             | Zpos p | Zneg p => Z.min (trailing_zeros p) (- t)
             end in
    if s =? - t then Int (m / 2 ^ s)
    else Frac (m / 2 ^ s) (Z.to_pos (- t - s)).

(** The double nearest to [a / b] for [0 < a] and [0 < b]: 53 significant
    bits, a unit in the last place of at least [2^-1074], ties to the
    even significand, and [Infinity] from [2^1024] on. *)
Definition nearest_double (a b : Z) : number :=
  let e := binary_exponent a b in
  let t := Z.max (e - 52) (-1074) in
  let m := round_half_even (a * 2 ^ Z.max 0 (- t)) (b * 2 ^ Z.max 0 t) in
  if 2 ^ 1024 <=? m * 2 ^ Z.max 0 t then Inf false
  else dyadic m t.

(** The double nearest to [a / b], [0 < b]. *)
Definition double_of_ratio (a b : Z) : number :=
  match a with
  | Z0 => Int 0
  | Zpos _ => nearest_double a b
  | Zneg _ => negate (nearest_double (- a) b)
  end.

(** [m * 10^x] as a ratio. *)
Definition power_of_ten (m x : Z) : Z * Z :=
  if 0 <=? x then (m * 10 ^ x, 1) else (m, 10 ^ (- x)).

(** *** Number <-> string *)

(** The decimal digits of an integer. *)
Definition decimal (z : Z) : string := NilZero.string_of_int (Z.to_int z).

Definition number_eqb (x y : number) : bool :=
  match x, y with
  | NaN, NaN => true
  | Inf a, Inf b => Bool.eqb a b
  | Int a, Int b => a =? b
  | Frac m e, Frac m' e' => (m =? m') && (e =? e')%positive
  | _, _ => false
  end.

Fixpoint zeros (n : nat) : string :=
  match n with
  | O => ""
  | S n => "0" ++ zeros n
  end.

(** The least [j >= from] with [b <= a * 10^j]. *)
Fixpoint first_scale (fuel : nat) (a b from : Z) : Z :=
  match fuel with
  | O => from
  | S fuel => if b <=? a * 10 ^ from then from
              else first_scale fuel a b (from + 1)
  end.

(** The [n] with [10^(n-1) <= a / b < 10^n], for a finite double
    [a / b > 0]. *)
Definition decimal_exponent (a b : Z) : Z :=
  if b <=? a then Z.of_nat (String.length (decimal (a / b)))
  else 1 - first_scale 400 a b 1.

(** Whether [c * 10^x] reads back as the double [a / b]. *)
Definition reads_back (a b c x : Z) : bool :=
  let (p, q) := power_of_ten c x in
  number_eqb (nearest_double p q) (nearest_double a b).

(** The shortest decimal [c * 10^x] that reads back as the double
    [a / b], the nearest one among those of that length: [k] digits are
    tried for [k] from [from] on; 17 always suffice. *)
Fixpoint shortest_decimal (fuel : nat) (a b n from : Z) : Z * Z :=
  let x := n - from in
  let (p, q) := if 0 <=? x then (a, b * 10 ^ x) else (a * 10 ^ (- x), b) in
  let low := p / q in
  let high := low + 1 in
  let nearest := match 2 * (p mod q) ?= q with
                 | Lt => low
                 | Gt => high
                 | Eq => if Z.even low then low else high
                 end in
  match fuel with
  | O => (nearest, x)
  | S fuel =>
      match reads_back a b low x, reads_back a b high x with
      | true, true => (nearest, x)
      | true, false => (low, x)
      | false, true => (high, x)
      | false, false => shortest_decimal fuel a b n (from + 1)
      end
  end.

(** [c * 10^x] with the zeros [c] ends in moved to the exponent. *)
Fixpoint strip_zeros (fuel : nat) (c x : Z) : Z * Z :=
  match fuel with
  | O => (c, x)
  | S fuel =>
      if (c mod 10 =? 0) && negb (c =? 0) then strip_zeros fuel (c / 10) (x + 1)
      else (c, x)
  end.

Definition substring_from (n : Z) (s : string) : string :=
  String.substring (Z.to_nat n) (String.length s - Z.to_nat n) s.

Definition substring_to (n : Z) (s : string) : string :=
  String.substring 0 (Z.to_nat n) s.

(** The digits [ds] with the decimal point after the [n]-th one, as
    [Number::toString] lays them out. *)
Definition layout (ds : string) (n : Z) : string :=
  let k := Z.of_nat (String.length ds) in
  if (k <=? n) && (n <=? 21) then ds ++ zeros (Z.to_nat (n - k))
  else if (0 <? n) && (n <=? 21) then
    substring_to n ds ++ "." ++ substring_from n ds
  else if (-6 <? n) && (n <=? 0) then "0." ++ zeros (Z.to_nat (- n)) ++ ds
  else
    let e := n - 1 in
    let exponent := (if e <? 0 then "-" else "+") ++ decimal (Z.abs e) in
    if k =? 1 then ds ++ "e" ++ exponent
    else substring_to 1 ds ++ "." ++ substring_from 1 ds ++ "e" ++ exponent.

(** [Number::toString] of the finite double [a / b > 0]. *)
Definition positive_toString (a b : Z) : string :=
  let n := decimal_exponent a b in
  let (c, x) := shortest_decimal 16 a b n 1 in
  let (c, x) := strip_zeros 17 c x in
  let ds := decimal c in
  layout ds (x + Z.of_nat (String.length ds)).

(** [Number::toString] in radix 10.  The digits of an integer are its
    decimal digits, which is exact up to [2^53]. *)
Definition Number_toString (n : number) : string :=
  match n with
  | NaN => "NaN"
  | Inf false => "Infinity"
  | Inf true => "-Infinity"
  | Int z => NilZero.string_of_int (Z.to_int z)
  | Frac m e =>
      (if m <? 0 then "-" else "")
      ++ positive_toString (Z.abs m) (2 ^ Z.pos e)
  end.

(** The white space and line terminators among the ASCII characters. *)
Definition is_space (c : ascii) : bool :=
  let n := code c in
  (n =? 32) || ((9 <=? n) && (n <=? 13)).

Fixpoint drop_spaces (cs : list ascii) : list ascii :=
  match cs with
  | c :: r => if is_space c then drop_spaces r else cs
  | [] => []
  end.

Definition trim (cs : list ascii) : list ascii :=
  rev (drop_spaces (rev (drop_spaces cs))).

Definition digit_of (radix : Z) (c : ascii) : option Z :=
  let n := code c in
  let d := if (48 <=? n) && (n <=? 57) then Some (n - 48)
           else if (97 <=? n) && (n <=? 102) then Some (n - 87)
           else if (65 <=? n) && (n <=? 70) then Some (n - 55)
           else None in
  match d with
  | Some d => if d <? radix then Some d else None
  | None => None
  end.

Fixpoint digits_value (radix acc : Z) (cs : list ascii) : option Z :=
  match cs with
  | [] => Some acc
  | c :: r =>
      match digit_of radix c with
      | Some d => digits_value radix (radix * acc + d) r
      | None => None
      end
  end.

(** The digits of a [NonDecimalIntegerLiteral], after the prefix. *)
Definition parse_digits (radix : Z) (cs : list ascii) : number :=
  match cs with
  | [] => NaN
  | _ => match digits_value radix 0 cs with
         | Some z => double_of_ratio z 1
         | None => NaN
         end
  end.

Definition is_digit (c : ascii) : bool := (48 <=? code c) && (code c <=? 57).

(** The decimal digits [cs] starts with, and what follows them. *)
Fixpoint span_digits (cs : list ascii) : list ascii * list ascii :=
  match cs with
  | c :: r =>
      if is_digit c then let (ds, rest) := span_digits r in (c :: ds, rest)
      else ([], cs)
  | [] => ([], [])
  end.

Definition decimal_value (ds : list ascii) : Z :=
  fold_left (fun acc c => 10 * acc + (code c - 48)) ds 0.

(** The exponent an [ExponentPart] denotes, 0 when there is none; [None]
    when [cs] is neither. *)
Definition exponent_part (cs : list ascii) : option Z :=
  match cs with
  | [] => Some 0
  | ("e" | "E")%char :: r =>
      let (sign, r) := match r with
                       | "+"%char :: r' => (1, r')
                       | "-"%char :: r' => (-1, r')
                       | _ => (1, r)
                       end in
      match span_digits r with
      | ((_ :: _) as ds, []) => Some (sign * decimal_value ds)
      | _ => None
      end
  | _ => None
  end.

(** The double nearest to [m * 10^x], for [m] of [digits] decimal
    digits.  Beyond [10^400] it is [Infinity], below [10^-400] zero. *)
Definition scaled (m x : Z) (digits : nat) : number :=
  if m =? 0 then Int 0
  else if 400 <? x then Inf false
  else if x + Z.of_nat digits <? -400 then Int 0
  else let (p, q) := power_of_ten m x in double_of_ratio p q.

(** A [StrUnsignedDecimalLiteral] other than [Infinity]: digits with an
    optional fraction and an optional exponent. *)
Definition decimal_literal (cs : list ascii) : number :=
  let (whole, r1) := span_digits cs in
  let (fraction, r2) := match r1 with
                        | "."%char :: r => span_digits r
                        | _ => ([], r1)
                        end in
  match (whole ++ fraction)%list, exponent_part r2 with
  | (_ :: _) as ds, Some x =>
      scaled (decimal_value ds) (x - Z.of_nat (List.length fraction))
             (List.length ds)
  | _, _ => NaN
  end.

Definition unsigned_literal (cs : list ascii) : number :=
  if list_eq_dec ascii_dec cs (chars "Infinity") then Inf false
  else decimal_literal cs.

(** [StringToNumber]: the [StringNumericLiteral] grammar with its
    surrounding white space, the empty string, the radix-prefixed
    integers and the signed decimal literals with [Infinity], fraction
    and exponent; anything else is [NaN].  The value is rounded to the
    nearest double. *)
Definition StrNumericLiteral (cs : list ascii) : number :=
  match cs with
  | [] => Int 0
  | "0"%char :: ("x" | "X")%char :: r => parse_digits 16 r
  | "0"%char :: ("o" | "O")%char :: r => parse_digits 8 r
  | "0"%char :: ("b" | "B")%char :: r => parse_digits 2 r
  | "+"%char :: r => unsigned_literal r
  | "-"%char :: r => negate (unsigned_literal r)
  | cs => unsigned_literal cs
  end.

Definition StringToNumber (s : string) : number :=
  StrNumericLiteral (trim (chars s)).

(** *** Conversions of values *)

Definition symbol_to_string : exception :=
  TypeError "Cannot convert a Symbol value to a string".

Definition symbol_to_number : exception :=
  TypeError "Cannot convert a Symbol value to a number".

(** [Error.prototype.toString]. *)
Definition Error_toString (e : ErrorInfo) : string :=
  if String.eqb (err_name e) "" then err_message e
  else if String.eqb (err_message e) "" then err_name e
  else err_name e ++ ": " ++ err_message e.

(** [ToString].  Objects convert through the built-in [toString] of their
    class ([Array.prototype.join] for arrays); own overrides of [toString]
    or [valueOf] are not part of the data-object model. *)
Fixpoint ToString (v : value) : outcome string :=
  match v with
  | VUndefined => Return "undefined"
  | VNull => Return "null"
  | VBool true => Return "true"
  | VBool false => Return "false"
  | VNum n => Return (Number_toString n)
  | VStr s => Return s
  | VSymbol _ => Raise symbol_to_string
  | VFunction source => Return source
  | VStream _ => Return "[object Object]"
  | VObject _ => Return "[object Object]"
  | VError info _ => Return (Error_toString info)
  | VArray items =>
      (fix join (l : list value) : outcome string :=
         match l with
         | [] => Return ""
         | x :: rest =>
             let? a := match x with
                       | VUndefined | VNull => Return ""
                       | _ => ToString x
                       end in
             match rest with
             | [] => Return a
             | _ => let? b := join rest in Return (a ++ "," ++ b)
             end
         end) items
  end.

Definition is_primitive (v : value) : bool :=
  match v with
  | VUndefined | VNull | VBool _ | VNum _ | VStr _ | VSymbol _ => true
  | _ => false
  end.

(** [ToPrimitive]: for the objects of the model [valueOf] yields the
    object itself, so both hints end in the [toString] result. *)
Definition ToPrimitive (v : value) : outcome value :=
  if is_primitive v then Return v
  else let? s := ToString v in Return (VStr s).

Definition ToNumber_primitive (p : value) : outcome number :=
  match p with
  | VUndefined => Return NaN
  | VNull => Return (Int 0)
  | VBool b => Return (Int (if b then 1 else 0))
  | VNum n => Return n
  | VStr s => Return (StringToNumber s)
  | VSymbol _ => Raise symbol_to_number
  | _ => Return NaN
  end.

Definition ToNumber (v : value) : outcome number :=
  let? p := ToPrimitive v in ToNumber_primitive p.

Definition ToBoolean (v : value) : bool :=
  match v with
  | VUndefined | VNull => false
  | VBool b => b
  | VNum NaN => false
  | VNum (Int z) => negb (z =? 0)
  | VNum (Inf _) | VNum (Frac _ _) => true
  | VStr s => negb (String.eqb s "")
  | _ => true
  end.

Inductive PropertyKey : Type :=
| KString (s : string)
| KSymbol (description : string).

Definition ToPropertyKey (v : value) : outcome PropertyKey :=
  let? p := ToPrimitive v in
  match p with
  | VSymbol d => Return (KSymbol d)
  | _ => let? s := ToString p in Return (KString s)
  end.

Definition number_ltb (x y : number) : bool :=
  match x, y with
  | NaN, _ | _, NaN => false
  | Inf true, Inf true => false
  | Inf true, _ => true
  | _, Inf true => false
  | Inf false, _ => false
  | _, Inf false => true
  | Int a, Int b => a <? b
  | Int a, Frac m e => a * 2 ^ Z.pos e <? m
  | Frac m e, Int b => m <? b * 2 ^ Z.pos e
  | Frac m e, Frac m' e' => m * 2 ^ Z.pos e' <? m' * 2 ^ Z.pos e
  end.

(** The relational comparison underneath [<] and [>]: two strings compare
    by code units, anything else numerically (NaN compares false). *)
Definition IsLessThan (px py : value) : outcome bool :=
  match px, py with
  | VStr x, VStr y => Return (String.ltb x y)
  | _, _ =>
      let? nx := ToNumber_primitive px in
      let? ny := ToNumber_primitive py in
      Return (number_ltb nx ny)
  end.

(** [a < b] *)
Definition lt (a b : value) : outcome bool :=
  let? pa := ToPrimitive a in
  let? pb := ToPrimitive b in
  IsLessThan pa pb.

(** [a > b] *)
Definition gt (a b : value) : outcome bool :=
  let? pa := ToPrimitive a in
  let? pb := ToPrimitive b in
  IsLessThan pb pa.

(** *** Property tables of the built-in prototypes *)

Definition native (name : string) : string * value :=
  (name, VFunction ("function " ++ name ++ "() { [native code] }")).

(** Properties every ordinary object inherits from [Object.prototype];
    [proto] is what the [__proto__] accessor answers for the receiver. *)
Definition ObjectPrototype (proto : value) : list (string * value) :=
  (("constructor", snd (native "Object")) ::
   map native
     ["__defineGetter__"; "__defineSetter__"; "hasOwnProperty";
      "__lookupGetter__"; "__lookupSetter__"; "isPrototypeOf";
      "propertyIsEnumerable"; "toString"; "valueOf"; "toLocaleString"]
   ++ [("__proto__", proto)])%list.

(** String-keyed properties of [Array.prototype] (ECMAScript 2019, the
    edition of the oldest supported engine; later editions only add
    further identifier-named methods). *)
Definition ArrayPrototype : list (string * value) :=
  (("length", VNum (Int 0)) :: ("constructor", snd (native "Array")) ::
   map native
     ["concat"; "copyWithin"; "fill"; "find"; "findIndex";
      "lastIndexOf"; "pop"; "push"; "reverse"; "shift"; "unshift"; "slice";
      "sort"; "splice"; "includes"; "indexOf"; "join"; "keys"; "entries";
      "values"; "forEach"; "filter"; "flat"; "flatMap"; "map"; "every";
      "some"; "reduce"; "reduceRight"; "toLocaleString"; "toString"])%list.

Fixpoint lookup (k : string) (props : list (string * value)) : option value :=
  match props with
  | [] => None
  | (k', v) :: r => if String.eqb k k' then Some v else lookup k r
  end.

(** [key in obj], for an object given by its own properties followed by
    those of its prototype chain. *)
Definition has_property (key : PropertyKey) (props : list (string * value)) : bool :=
  match key with
  | KString s => match lookup s props with Some _ => true | None => false end
  | KSymbol _ => false
  end.

(** [obj[key]] *)
Definition get (key : PropertyKey) (props : list (string * value)) : value :=
  match key with
  | KString s => match lookup s props with Some v => v | None => VUndefined end
  | KSymbol _ => VUndefined
  end.

(** Own properties of an array: its indices, then [length]. *)
Fixpoint indexed (i : Z) (items : list value) : list (string * value) :=
  match items with
  | [] => []
  | x :: r => (Number_toString (Int i), x) :: indexed (i + 1) r
  end.

Definition array_properties (items : list value) : list (string * value) :=
  (indexed 0 items ++ [("length", VNum (Int (Z.of_nat (List.length items))))]
   ++ ArrayPrototype ++ ObjectPrototype (VArray []))%list.

Definition object_properties (own : list (string * value)) : list (string * value) :=
  (own ++ ObjectPrototype (VObject []))%list.

End JS.

Import JS.

(** ** LevelRegistry: [LevelNums], [LevelNames], [getLevelNumber] *)

Definition LevelNums : list (string * value) :=
  [("error", VNum (Int 0));
   ("warn",  VNum (Int 1));
   ("info",  VNum (Int 2));
   ("log",   VNum (Int 3));
   ("debug", VNum (Int 4))].

(** [LevelNums[a] - LevelNums[b]], the comparator handed to [sort]. *)
Definition level_difference (a b : string) : Z :=
  match lookup a LevelNums, lookup b LevelNums with
  | Some (VNum (Int x)), Some (VNum (Int y)) => x - y
  | _, _ => 0
  end.

Fixpoint insert_sorted (cmp : string -> string -> Z) (x : string) (l : list string)
  : list string :=
  match l with
  | [] => [x]
  | y :: r => if cmp y x <=? 0 then y :: insert_sorted cmp x r else x :: l
  end.

(** [Array.prototype.sort] with a comparator (stable). *)
Definition sort (cmp : string -> string -> Z) (l : list string) : list string :=
  fold_left (fun acc x => insert_sorted cmp x acc) l [].

(** [Object.keys(LevelNums).sort((a, b) => LevelNums[a] - LevelNums[b])] *)
Definition LevelNames : list string :=
  sort level_difference (map fst LevelNums).

Definition LevelNums_properties : list (string * value) :=
  object_properties LevelNums.

Definition LevelNames_properties : list (string * value) :=
  array_properties (map VStr LevelNames).

Definition Is_String (v : value) : bool :=
  match v with VStr _ => true | _ => false end.

Definition Is_Error (v : value) : bool :=
  match v with VError _ _ => true | _ => false end.

Section LevelRegistry.

(** [Defaults.logLevel] as the module holds it when the call is made. *)
Variable Defaults_logLevel : value.

Definition getLevelNumber (value : value) : outcome JS.value :=
  let value := match value with
               | VStr s => VStr (toLowerCase s)
               | _ => value
               end in
  let? key := ToPropertyKey value in
  if has_property key LevelNums_properties then
    Return (get key LevelNums_properties)
  else if has_property key LevelNames_properties then
    let? n := ToNumber value in Return (VNum n)
  else
    let? negative := lt value (VNum (Int 0)) in
    if negative then Return (VNum (Int (-1)))
    else Return Defaults_logLevel.

End LevelRegistry.

(** Module initialisation of [Defaults.logLevel] from the environment:
    [DEBUG], then [LOG_LEVEL], then [LOGLEVEL], else ['info']; the raw
    choice is still in place when [getLevelNumber] resolves it. *)
Record Env : Type := mkEnv {
  DEBUG : option string;
  LOG_LEVEL : option string;
  LOGLEVEL : option string
}.

Definition env_set (x : option string) : option string :=
  match x with
  | Some s => if String.eqb s "" then None else Some s
  | None => None
  end.

Definition Defaults_logLevel_raw (env : Env) : string :=
  match env_set (DEBUG env) with
  | Some _ => "debug"
  | None =>
      match env_set (LOG_LEVEL env) with
      | Some s => s
      | None =>
          match env_set (LOGLEVEL env) with
          | Some s => s
          | None => "info"
          end
      end
  end.

Definition Defaults_logLevel_init (env : Env) : outcome value :=
  let raw := VStr (Defaults_logLevel_raw env) in
  getLevelNumber raw raw.

(** ** Configuration, styles and the logger object *)

(** Style specification tree ([opts.styles]): a level maps to a single
    descriptor or to named slots of descriptors. *)
Inductive StyleNode : Type :=
| Descriptor (descriptor : string)
| Slots (entries : list (string * string)).

Definition StyleSpec : Type := list (string * StyleNode).

Definition Defaults_styles : StyleSpec :=
  [("default", Descriptor "chalk");
   ("brace", Descriptor "grey");
   ("error", Slots [("prefix", "red"); ("string", "#884444"); ("file", "yellow");
                    ("name", "bgRedBright.bold.black"); ("message", "#884444");
                    ("stack", "grey")]);
   ("warn", Slots [("prefix", "yellow"); ("string", "chalk"); ("file", "yellow")]);
   ("info", Slots [("prefix", "grey"); ("string", "chalk"); ("file", "cyan")]);
   ("log", Slots [("prefix", "grey"); ("string", "chalk"); ("file", "cyan")]);
   ("debug", Slots [("prefix", "blue"); ("string", "chalk")])].

(** A compiled style: text to styled text. *)
Definition style : Type := string -> string.

(** The configurable callables.  A custom [prelog] answers with its return
    value and with the argument array as it left it (it may have modified
    the array in place). *)
Inductive PrefixOption : Type :=
| PrefixDefault
| PrefixFunction (f : value -> value)
| PrefixValue (v : value).

Inductive PrelogOption : Type :=
| PrelogDefault
| PrelogFunction (f : value -> list value -> value * list value)
| PrelogValue (v : value).

Inductive FormatOption : Type :=
| FormatDefault
| FormatFunction (f : list value -> string).

(** The options a caller hands to the constructor; [None] and the
    [*Default] constructors stand for an absent key. *)
Record UserOpts : Type := mkUserOpts {
  u_stdout : option value;
  u_stderr : option value;
  u_logLevel : option value;
  u_colors : option value;
  u_styles : StyleSpec;
  u_prefix : PrefixOption;
  u_prelog : PrelogOption;
  u_format : FormatOption
}.

(** The merged options held by a logger. *)
Record Opts : Type := mkOpts {
  opts_stdout : value;
  opts_stderr : value;
  opts_logLevel : value;
  opts_styles : StyleSpec;
  opts_prefix : PrefixOption;
  opts_prelog : PrelogOption;
  opts_format : FormatOption
}.

(** A logger: its options and the level of its chalk instance
    ([this.chalk.level]), which is what [opts.colors] reads. *)
Record Logger : Type := mkLogger {
  opts : Opts;
  chalk_level : Z
}.

(** ** External collaborators *)

Record Host : Type := mkHost {
  (* util/errors.js: the rendered stack and the raw message of an error *)
  parseStack : ErrorInfo -> string * string;
  (* util.formatWithOptions({colors}, ...args) *)
  formatWithOptions : bool -> list value -> string;
  (* chalk-pipe: a descriptor compiled for a chalk instance of a level *)
  chalkPipe : string -> Z -> style;
  (* chalk's detected colour level *)
  DefaultColor : Z;
  (* util/chars.js *)
  Caret : string;
  (* util/types.js: Cast.toArray on a value that is not an array *)
  toArray_other : value -> list value
}.

(** ** Traces *)

Inductive event : Type :=
| Write (stream : value) (data : string)
| CallPrelog (level : value) (args : list value)
| CallPrefix (level : value)
| CallFormat (args : list value).

(** A computation: the events it produced, in order, and its completion. *)
Definition M (A : Type) : Type := list event * outcome A.

Definition ret {A : Type} (a : A) : M A := ([], Return a).

Definition lift {A : Type} (o : outcome A) : M A := ([], o).

Definition emit (e : event) : M unit := ([e], Return tt).

Definition bind {A B : Type} (m : M A) (f : A -> M B) : M B :=
  match m with
  | (t, Return a) => let (t', r) := f a in ((t ++ t')%list, r)
  | (t, Raise e) => (t, Raise e)
  end.

Notation "'do' x <- m ; k" := (bind m (fun x => k))
  (at level 10, x name, m at level 100, k at level 200).

Definition trace {A : Type} (m : M A) : list event := fst m.

Definition completion {A : Type} (m : M A) : outcome A := snd m.

Definition is_write (e : event) : bool :=
  match e with Write _ _ => true | _ => false end.

(** The stream writes of a trace, in order. *)
Definition writes (t : list event) : list event := filter is_write t.

Definition LF : string := String (ascii_of_nat 10) EmptyString.

(** ** StyleResolver and the helpers of [util/] *)

Fixpoint assoc {A : Type} (k : string) (l : list (string * A)) : option A :=
  match l with
  | [] => None
  | (k', a) :: r => if String.eqb k k' then Some a else assoc k r
  end.

Fixpoint assoc_set {A : Type} (k : string) (a : A) (l : list (string * A))
  : list (string * A) :=
  match l with
  | [] => [(k, a)]
  | (k', a') :: r =>
      if String.eqb k k' then (k', a) :: r else (k', a') :: assoc_set k a r
  end.

(** Modelled from the spec: [merge] of ./util/merge.js is not under src/.
    Later keys win and nested objects merge recursively. *)
Definition merge_node (base over : StyleNode) : StyleNode :=
  match base, over with
  | Slots b, Slots o =>
      Slots (fold_left (fun acc kv => assoc_set (fst kv) (snd kv) acc) o b)
  | _, _ => over
  end.

Definition merge_styles (base over : StyleSpec) : StyleSpec :=
  fold_left
    (fun acc kv =>
       match assoc (fst kv) acc with
       | Some b => assoc_set (fst kv) (merge_node b (snd kv)) acc
       | None => assoc_set (fst kv) (snd kv) acc
       end)
    over base.

(** Modelled from the spec: [Cast.toArray] of ./util/types.js is not under
    src/.  The value is coerced to a list: an array is its own list of
    items, anything else is left to the helper. *)
Definition Cast_toArray (host : Host) (v : value) : list value :=
  match v with
  | VArray items => items
  | _ => toArray_other host v
  end.

(** Modelled from the spec: [Is.WriteableStream] of ./util/types.js is not
    under src/.  The writable sinks are the stream objects. *)
Definition Is_WriteableStream (v : value) : bool :=
  match v with VStream _ => true | _ => false end.

(** Modelled from the spec: [cat] of ./util/strings.js is not under src/.
    The pieces are concatenated. *)
Definition cat (pieces : list string) : string := String.concat "" pieces.

(** [err.name || err.constructor.name] *)
Definition error_display_name (err : ErrorInfo) : string :=
  if String.eqb (err_name err) "" then err_constructor_name err
  else err_name err.

(** What [this.chalks[name]] can be: nothing, a compiled style, or an
    object of compiled slots. *)
Inductive chalk_entry : Type :=
| NoEntry
| Compiled (f : style)
| CompiledSlots (slot : string -> option style).

Section Core.

Variable host : Host.
Variable Defaults_logLevel : value.

(** Modelled from the spec: [HashProxy] of ./hash-proxy.js is not under
    src/.  [this.chalks[name]] is the compiled view of the style tree:
    a descriptor compiles to a style, a mapping to an object whose slots
    are the compiled styles of its descriptors.  Compilation is a
    function of the descriptor and the chalk instance, so the cache is
    not observable. *)
Definition chalks (this : Logger) (name : string) : chalk_entry :=
  match assoc name (opts_styles (opts this)) with
  | None => NoEntry
  | Some (Descriptor d) => Compiled (chalkPipe host d (chalk_level this))
  | Some (Slots entries) =>
      CompiledSlots (fun slot =>
        match assoc slot entries with
        | Some d => Some (chalkPipe host d (chalk_level this))
        | None => None
        end)
  end.

(** [this.chalks[key]] for a computed key. *)
Definition chalks_at (this : Logger) (key : PropertyKey) : chalk_entry :=
  match key with
  | KString name => chalks this name
  | KSymbol _ => NoEntry
  end.

(** [chlk[slot]], about to be called: a style, or the TypeError of
    reading a property of [undefined] or of calling a non-function. *)
Definition slot_method (chlk : chalk_entry) (slot : string) : outcome style :=
  match chlk with
  | NoEntry =>
      Raise (TypeError ("Cannot read properties of undefined (reading '"
                        ++ slot ++ "')"))
  | Compiled _ => Raise (TypeError ("chlk." ++ slot ++ " is not a function"))
  | CompiledSlots slots =>
      match slots slot with
      | Some f => Return f
      | None => Raise (TypeError ("chlk." ++ slot ++ " is not a function"))
      end
  end.

(** [key in chlk] followed by the read of [chlk[key]]. *)
Definition slot_in (chlk : chalk_entry) (key : string) : outcome (option style) :=
  match chlk with
  | NoEntry =>
      Raise (TypeError ("Cannot use 'in' operator to search for '"
                        ++ key ++ "' in undefined"))
  | Compiled _ => Return None
  | CompiledSlots slots => Return (slots key)
  end.

(** [chalks.brace(text)] *)
Definition brace (this : Logger) (text : string) : outcome string :=
  match chalks this "brace" with
  | Compiled f => Return (f text)
  | _ => Raise (TypeError "chalks.brace is not a function")
  end.

(** *** [Logger.formatError] *)

Definition formatError (this : Logger) (err : ErrorInfo) (isSkipStack : bool)
  : outcome string :=
  let chlk := chalks this "error" in
  let (stack, rawMessage) := parseStack host err in
  let name := error_display_name err in
  let? styled_name := slot_method chlk "name" in
  let? styled_message := slot_method chlk "message" in
  let lines := [String.concat ": " [styled_name name; styled_message rawMessage]] in
  let? lines :=
    (if negb isSkipStack then
       let? styled_stack := slot_method chlk "stack" in
       Return (lines ++ [styled_stack stack])%list
     else Return lines) in
  Return (String.concat LF lines).

(** *** [Defaults.prefix], [Defaults.prelog], [Defaults.format] *)

(** [level === 'info'] *)
Definition is_info (level : value) : bool :=
  match level with
  | VStr s => String.eqb s "info"
  | _ => false
  end.

(** [level.toUpperCase()] *)
Definition level_toUpperCase (level : value) : outcome string :=
  match level with
  | VStr name => Return (toUpperCase name)
  | VUndefined | VNull =>
      Raise (TypeError "Cannot read properties of undefined (reading 'toUpperCase')")
  | _ => Raise (TypeError "level.toUpperCase is not a function")
  end.

Definition Defaults_prefix (this : Logger) (level : value) : outcome value :=
  if is_info level then
    let? key := ToPropertyKey level in
    let? prefix := slot_method (chalks_at this key) "prefix" in
    Return (VStr (prefix (Caret host)))
  else
    let? opening := brace this "[" in
    let? key := ToPropertyKey level in
    let? prefix := slot_method (chalks_at this key) "prefix" in
    let? upper := level_toUpperCase level in
    let? closing := brace this "]" in
    Return (VStr (cat [opening; prefix upper; closing])).

(** [arg.throwing] of a truthy [arg]: an own property of an object or of
    an error; no built-in prototype has a property of that name. *)
Definition throwing_of (arg : value) : value :=
  match arg with
  | VObject entries => get (KString "throwing") (object_properties entries)
  | VError _ props => get (KString "throwing") (object_properties props)
  | _ => VUndefined
  end.

(** [arg => arg && arg.throwing], as a test. *)
Definition is_throwing (arg : value) : bool :=
  ToBoolean arg && ToBoolean (throwing_of arg).

(** The callback of [args.map] in [Defaults.prelog]; [hasError] is the
    variable it shares across the elements. *)
Definition prelog_arg (this : Logger) (chlk : chalk_entry) (args : list value)
           (hasError : bool) (arg : value) : outcome (bool * value) :=
  match arg with
  | VStr s =>
      let? string := slot_method chlk "string" in
      Return (hasError, VStr (string s))
  | VError err _ =>
      let? text := formatError this err (existsb is_throwing args) in
      Return (true, VStr text)
  | VObject [(key, value)] =>
      if String.eqb key "throwing" && hasError then Return (hasError, VNull)
      else
        let? slot := slot_in chlk key in
        match slot, value with
        | Some f, VStr s =>
            let? string := slot_method chlk "string" in
            Return (hasError, VStr (string (key ++ ": " ++ f s)))
        | _, _ => Return (hasError, arg)
        end
  | _ => Return (hasError, arg)
  end.

Fixpoint prelog_map (this : Logger) (chlk : chalk_entry) (args : list value)
         (hasError : bool) (rest : list value) : outcome (list value) :=
  match rest with
  | [] => Return []
  | arg :: rest =>
      let? r := prelog_arg this chlk args hasError arg in
      let? mapped := prelog_map this chlk args (fst r) rest in
      Return (snd r :: mapped)
  end.

(** [arg => arg != null] *)
Definition not_nullish (arg : value) : bool :=
  match arg with
  | VNull | VUndefined => false
  | _ => true
  end.

Definition Defaults_prelog (this : Logger) (level : value) (args : list value)
  : outcome (list value) :=
  let? key := ToPropertyKey level in
  let chlk := chalks_at this key in
  let? mapped := prelog_map this chlk args false args in
  Return (filter not_nullish mapped).

(** [opts.colors]: [Boolean(this.chalk.level)] *)
Definition opts_colors (this : Logger) : bool := negb (chalk_level this =? 0).

Definition Defaults_format (this : Logger) (args : list value) : string :=
  formatWithOptions host (opts_colors this) args.

(** *** The methods of [Logger] *)

Definition format (this : Logger) (args : list value) : M string :=
  do _ <- emit (CallFormat args);
  match opts_format (opts this) with
  | FormatDefault => ret (Defaults_format this args)
  | FormatFunction f => ret (f args)
  end.

(** [this.<property>.write(data)], for the value [stream] the property
    holds: only a stream object has a [write] method. *)
Definition stream_write (property : string) (stream : value) (data : string)
  : M unit :=
  match stream with
  | VStream _ => emit (Write stream data)
  | VUndefined =>
      lift (Raise (TypeError "Cannot read properties of undefined (reading 'write')"))
  | VNull =>
      lift (Raise (TypeError "Cannot read properties of null (reading 'write')"))
  | _ => lift (Raise (TypeError ("this." ++ property ++ ".write is not a function")))
  end.

Definition stdout (this : Logger) : value := opts_stdout (opts this).

Definition stderr (this : Logger) : value := opts_stderr (opts this).

Definition write (this : Logger) (data : string) : M unit :=
  stream_write "stdout" (stdout this) data.

Definition ewrite (this : Logger) (data : string) : M unit :=
  stream_write "stderr" (stderr this) data.

Definition print (this : Logger) (args : list value) : M unit :=
  do text <- format this args;
  write this (text ++ LF).

Definition eprint (this : Logger) (args : list value) : M unit :=
  do text <- format this args;
  ewrite this (text ++ LF).

(** [get logLevel()] *)
Definition logLevel (this : Logger) : outcome value :=
  getLevelNumber Defaults_logLevel (opts_logLevel (opts this)).

Definition set_opts (this : Logger) (o : Opts) : Logger :=
  mkLogger o (chalk_level this).

(** [set logLevel(n)] *)
Definition set_logLevel (this : Logger) (n : value) : Logger :=
  let o := opts this in
  set_opts this
    (mkOpts (opts_stdout o) (opts_stderr o) n (opts_styles o)
            (opts_prefix o) (opts_prelog o) (opts_format o)).

(** [set stdout(stdout)] *)
Definition set_stdout (this : Logger) (stdout : value) : Logger :=
  let o := opts this in
  set_opts this
    (mkOpts stdout (opts_stderr o) (opts_logLevel o) (opts_styles o)
            (opts_prefix o) (opts_prelog o) (opts_format o)).

(** [set stderr(stderr)] *)
Definition set_stderr (this : Logger) (stderr : value) : Logger :=
  let o := opts this in
  set_opts this
    (mkOpts (opts_stdout o) stderr (opts_logLevel o) (opts_styles o)
            (opts_prefix o) (opts_prelog o) (opts_format o)).

(** [opts.colors = n] *)
Definition set_colors (this : Logger) (n : value) : Logger :=
  mkLogger (opts this) (if ToBoolean n then DefaultColor host else 0).

(** *** The dispatch routine [log] *)

(** [getOrCall(opts.prefix, this, levelName)] *)
Definition getOrCall (this : Logger) (levelName : value) : M value :=
  match opts_prefix (opts this) with
  | PrefixDefault =>
      do _ <- emit (CallPrefix levelName);
      lift (Defaults_prefix this levelName)
  | PrefixFunction f =>
      do _ <- emit (CallPrefix levelName);
      ret (f levelName)
  | PrefixValue v => ret v
  end.

(** The [prelog] step: the argument list the rest of [log] works on. *)
Definition run_prelog (this : Logger) (levelName : value) (args : list value)
  : M (list value) :=
  match opts_prelog (opts this) with
  | PrelogDefault =>
      do _ <- emit (CallPrelog levelName args);
      do result <- lift (Defaults_prelog this levelName args);
      ret (Cast_toArray host (VArray result))
  | PrelogFunction f =>
      do _ <- emit (CallPrelog levelName args);
      let (result, args') := f levelName args in
      match result with
      | VUndefined => ret args'
      | _ => ret (Cast_toArray host result)
      end
  | PrelogValue _ => ret args
  end.

Definition is_empty {A : Type} (l : list A) : bool :=
  match l with [] => true | _ => false end.

(** [log] once the call has passed the gate, from the choice of the
    write method on.  A [null] prefix is the empty string here: both are
    falsy, and it is only tested. *)
Definition log_admitted (this : Logger) (level : value) (args : list value)
  : M unit :=
  do below2 <- lift (lt level (VNum (Int 2)));
  let method := if below2 then ewrite else write in
  do key <- lift (ToPropertyKey level);
  let levelName := get key LevelNames_properties in
  do args <- run_prelog this levelName args;
  do provided <- getOrCall this levelName;
  let prefixes := Cast_toArray host provided in
  do prefix <- (if is_empty prefixes then ret "" else format this prefixes);
  do body <- (if is_empty args then ret "" else format this args);
  do _ <- (if String.eqb prefix "" then ret tt
           else method this (prefix ++ (if String.eqb body "" then "" else " ")));
  method this (body ++ LF).

Definition log (this : Logger) (level : value) (args : list value) : M unit :=
  do level <- lift (getLevelNumber Defaults_logLevel level);
  do threshold <- lift (logLevel this);
  do above <- lift (gt level threshold);
  if above then ret tt
  else log_admitted this level args.

(** The bound level methods: [revalue(LevelNums, level => log.bind(this,
    level))] binds each name to [log] with the name's ordinal. *)
Definition level_method (this : Logger) (name : string) (args : list value)
  : M unit :=
  match lookup name LevelNums with
  | Some level => log this level args
  | None => lift (Raise (TypeError ("logger." ++ name ++ " is not a function")))
  end.

(** *** Construction *)

Definition checkWriteStream (arg : value) (name : string) : outcome unit :=
  if negb (Is_WriteableStream arg)
  then Raise (ArgumentError ("Argument " ++ name ++ " is not a writeable stream"))
  else Return tt.

Definition or_default {A : Type} (given : option A) (default : A) : A :=
  match given with Some a => a | None => default end.

(** Modelled from the spec: [merge(Defaults, opts)], with [merge] of
    ./util/merge.js not under src/.  Caller-supplied keys win over the
    process defaults; the style trees merge recursively. *)
Definition merge (u : UserOpts) : Opts :=
  mkOpts (or_default (u_stdout u) (VStream "stdout"))
         (or_default (u_stderr u) (VStream "stderr"))
         (or_default (u_logLevel u) Defaults_logLevel)
         (merge_styles Defaults_styles (u_styles u))
         (u_prefix u) (u_prelog u) (u_format u).

(** [opts.colors] after the merge: [Defaults.colors] unless given. *)
Definition merged_colors (u : UserOpts) : value :=
  or_default (u_colors u) (VNum (Int (DefaultColor host))).

Definition constructor (u : UserOpts) : outcome Logger :=
  let opts := merge u in
  let? _ := checkWriteStream (opts_stdout opts) "opts.stdout" in
  let? _ := checkWriteStream (opts_stderr opts) "opts.stderr" in
  let level := if ToBoolean (merged_colors u) then DefaultColor host else 0 in
  Return (mkLogger opts level).

End Core.

(** ** A reference configuration *)

(** How the reference host prints one argument. *)
Definition display (v : value) : string :=
  match ToString v with
  | Return s => s
  | Raise _ => "Symbol()"
  end.

(** A host without colours: styles leave the text as it is, arguments are
    printed separated by spaces, [parseStack] hands back the fields of the
    error. *)
Definition plain_host : Host :=
  {| parseStack := fun e => (err_stack e, err_message e);
     formatWithOptions := fun _ args => String.concat " " (map display args);
     chalkPipe := fun _ _ text => text;
     DefaultColor := 0;
     Caret := ">";
     toArray_other := fun v => [v] |}.

(** [Defaults.logLevel] of a process with none of the variables set. *)
Definition info_level : value := VNum (Int 2).

Definition no_options : UserOpts :=
  mkUserOpts None None None None [] PrefixDefault PrelogDefault FormatDefault.

(** The logger [new Logger()] builds on the reference host. *)
Definition plain_logger : Logger :=
  mkLogger (merge info_level no_options) 0.

Definition boom : value :=
  VError (mkErrorInfo "Error" "Error" "boom" "    at main (app.js:1:1)") [].

(** ** Well-formed loggers *)

Definition has_slots (styles : StyleSpec) (level : string) (names : list string)
  : bool :=
  match assoc level styles with
  | Some (Slots entries) =>
      forallb (fun n => match assoc n entries with
                        | Some _ => true
                        | None => false
                        end) names
  | _ => false
  end.

(** The style tree has every slot the default callables call. *)
Definition styles_complete (styles : StyleSpec) : bool :=
  forallb (fun level => has_slots styles level ["prefix"; "string"]) LevelNames
  && has_slots styles "error" ["name"; "message"; "stack"]
  && match assoc "brace" styles with
     | Some (Descriptor _) => true
     | _ => false
     end.

Definition needs_styles (o : Opts) : bool :=
  match opts_prelog o with PrelogDefault => true | _ => false end
  || match opts_prefix o with PrefixDefault => true | _ => false end.

(** Both streams are writable and, where a default callable is in use,
    the style tree is complete. *)
Definition operational (this : Logger) : bool :=
  Is_WriteableStream (opts_stdout (opts this))
  && Is_WriteableStream (opts_stderr (opts this))
  && (negb (needs_styles (opts this)) || styles_complete (opts_styles (opts this))).

(** A value whose conversion to a primitive neither raises nor yields a
    symbol. *)
Definition convertible (v : value) : bool :=
  match ToPrimitive v with
  | Return (VSymbol _) => false
  | Return _ => true
  | Raise _ => false
  end.

(** A completion that, if it is a failure, is a type error of the
    runtime. *)
Definition only_TypeError {A : Type} (o : outcome A) : Prop :=
  match o with
  | Return _ | Raise (TypeError _) => True
  | Raise (ArgumentError _) | Raise (Thrown _) => False
  end.

(** In the words of the specification: [arg] is a value with a truthy
    [throwing] property.  The values that carry properties of their own
    are the plain objects and the errors. *)
Inductive truthy_throwing : value -> Prop :=
| throwing_object (entries : list (string * value)) (v : value) :
    lookup "throwing" entries = Some v -> ToBoolean v = true ->
    truthy_throwing (VObject entries)
| throwing_error (info : ErrorInfo) (props : list (string * value)) (v : value) :
    lookup "throwing" props = Some v -> ToBoolean v = true ->
    truthy_throwing (VError info props).

(** The stream an admitted call of ordinal [k] writes to. *)
Definition destination (this : Logger) (k : Z) : value :=
  if k <? 2 then opts_stderr (opts this) else opts_stdout (opts this).

(** The property of the logger that holds that stream. *)
Definition destination_property (k : Z) : string :=
  if k <? 2 then "stderr" else "stdout".

(** ** The record an admitted call writes *)

(** What the format callable answers for [args]. *)
Definition format_text (host : Host) (this : Logger) (args : list value)
  : string :=
  match opts_format (opts this) with
  | FormatDefault => Defaults_format host this args
  | FormatFunction f => f args
  end.

(** [list.length ? this.format(...list) : ''], the text and the call. *)
Definition text_of (host : Host) (this : Logger) (l : list value) : string :=
  if is_empty l then "" else format_text host this l.

Definition format_calls (l : list value) : list event :=
  if is_empty l then [] else [CallFormat l].

(** The writes of a record with the given prefix and body texts: the
    prefix, with a space when a body follows, then the body and the
    newline. *)
Definition line_writes (stream : value) (prefix body : string) : list event :=
  ((if String.eqb prefix "" then []
    else [Write stream (prefix ++ (if String.eqb body "" then "" else " "))])
   ++ [Write stream (body ++ LF)])%list.

Definition is_prelog_call (e : event) : bool :=
  match e with CallPrelog _ _ => true | _ => false end.

Definition is_prefix_call (e : event) : bool :=
  match e with CallPrefix _ => true | _ => false end.

Definition is_format_call (e : event) : bool :=
  match e with CallFormat _ => true | _ => false end.

(** A trace in pipeline order: at most [n0] calls of [prelog], then at
    most [n1] calls of the prefix provider, then at most [n2] calls of the
    format callable, then at most [n3] stream writes. *)
Definition staged (n0 n1 n2 n3 : nat) (t : list event) : Prop :=
  exists t0 t1 t2 t3,
    t = (t0 ++ t1 ++ t2 ++ t3)%list /\
    Forall (fun e => is_prelog_call e = true) t0 /\ (List.length t0 <= n0)%nat /\
    Forall (fun e => is_prefix_call e = true) t1 /\ (List.length t1 <= n1)%nat /\
    Forall (fun e => is_format_call e = true) t2 /\ (List.length t2 <= n2)%nat /\
    Forall (fun e => is_write e = true) t3 /\ (List.length t3 <= n3)%nat.

(** ** Further configurations and argument shapes *)

(** An argument [Defaults.prelog] has no rule for: not a string, not an
    error, not a plain object with exactly one entry, and not nullish. *)
Definition inert (v : value) : bool :=
  match v with
  | VStr _ | VError _ _ | VNull | VUndefined => false
  | VObject [_] => false
  | _ => true
  end.

(** A logger with [prelog] switched off and the empty array as prefix. *)
Definition bare_logger : Logger :=
  mkLogger
    (mkOpts (VStream "stdout") (VStream "stderr") (VNum (Int 2)) Defaults_styles
            (PrefixValue (VArray [])) (PrelogValue VNull) FormatDefault)
    0.

(** A logger whose [prelog] reverses the argument array in place and
    returns nothing. *)
Definition reversing_logger : Logger :=
  mkLogger
    (mkOpts (VStream "stdout") (VStream "stderr") (VNum (Int 2)) Defaults_styles
            PrefixDefault (PrelogFunction (fun _ args => (VUndefined, rev args)))
            FormatDefault)
    0.

(** A non-empty string of ASCII letters. *)
Definition is_letter (c : ascii) : bool :=
  ((65 <=? code c) && (code c <=? 90)) || ((97 <=? code c) && (code c <=? 122)).

Definition word (s : string) : bool :=
  negb (String.eqb s "") && forallb is_letter (chars s).

(** ** The array helpers: [append], [last], [sum] *)

Module Arrays.

(** Arrays are objects: a store maps the reference of an array to its
    elements, and two parameters of a call may be the same array. *)
Definition ref : Type := nat.

Section Store.

Variable A : Type.

Definition store : Type := ref -> list A.

(** [arr.push(x)] *)
Definition push (h : store) (arr : ref) (x : A) : store :=
  fun r => if Nat.eqb r arr then (h r ++ [x])%list else h r.

(** The loop of [values.forEach(callback)] from index [k], with
    [remaining] indices to go: the length is read once, before the first
    call, and each index is read from the array as it is by then. *)
Fixpoint forEach_from (callback : store -> A -> store) (values : ref)
         (remaining k : nat) (h : store) : store :=
  match remaining with
  | O => h
  | S n =>
      let h' := match nth_error (h values) k with
                | Some x => callback h x
                | None => h
                end in
      forEach_from callback values n (S k) h'
  end.

Definition forEach (callback : store -> A -> store) (values : ref) (h : store)
  : store :=
  forEach_from callback values (List.length (h values)) 0 h.

(** [append(arr, values)]: the store afterwards and the returned array. *)
Definition append (h : store) (arr values : ref) : store * ref :=
  (forEach (fun h value => push h arr value) values h, arr).

(** [last(arr)]: [arr[arr.length - 1]], [None] standing for [undefined]. *)
Definition last (arr : list A) : option A :=
  let i := Z.of_nat (List.length arr) - 1 in
  if i <? 0 then None else nth_error arr (Z.to_nat i).

End Store.

Arguments push {A} h arr x.
Arguments forEach_from {A} callback values remaining k h.
Arguments forEach {A} callback values h.
Arguments append {A} h arr values.
Arguments last {A} arr.

(** Addition of numbers: the sum of two integers is exact, which is the
    double sum as long as it is a safe integer; a sum with a fraction
    is rounded to the nearest double. *)
Definition number_add (x y : number) : number :=
  match x, y with
  | NaN, _ | _, NaN => NaN
  | Inf a, Inf b => if Bool.eqb a b then Inf a else NaN
  | Inf a, _ => Inf a
  | _, Inf b => Inf b
  | Int a, Int b => Int (a + b)
  | Int a, Frac m e => double_of_ratio (a * 2 ^ Z.pos e + m) (2 ^ Z.pos e)
  | Frac m e, Int b => double_of_ratio (m + b * 2 ^ Z.pos e) (2 ^ Z.pos e)
  | Frac m e, Frac m' e' =>
      double_of_ratio (m * 2 ^ Z.pos e' + m' * 2 ^ Z.pos e)
                      (2 ^ Z.pos e * 2 ^ Z.pos e')
  end.

(** [a + b]: concatenation when either operand converts to a string,
    numeric addition otherwise. *)
Definition add (a b : value) : outcome value :=
  let? pa := ToPrimitive a in
  let? pb := ToPrimitive b in
  if Is_String pa || Is_String pb then
    let? sa := ToString pa in
    let? sb := ToString pb in
    Return (VStr (sa ++ sb))
  else
    let? na := ToNumber_primitive pa in
    let? nb := ToNumber_primitive pb in
    Return (VNum (number_add na nb)).

(** [arr.reduce(f, acc)] *)
Fixpoint reduce (f : value -> value -> outcome value) (arr : list value)
         (acc : value) : outcome value :=
  match arr with
  | [] => Return acc
  | cur :: rest => let? acc' := f acc cur in reduce f rest acc'
  end.

(** [sum(arr)] *)
Definition sum (arr : list value) : outcome value :=
  reduce (fun acc cur => add acc cur) arr (VNum (Int 0)).

(** The running totals of a summation stay among the safe integers. *)
Fixpoint safe_sums (acc : Z) (zs : list Z) : Prop :=
  match zs with
  | [] => True
  | z :: rest => - 2 ^ 53 <= acc + z <= 2 ^ 53 /\ safe_sums (acc + z) rest
  end.

End Arrays.

From Stdlib Require DecimalPos DecimalZ.

(** A property table none of whose keys is the decimal numeral of an
    integer above 4. *)
Definition no_key_above_4 (table : list (string * value)) : bool :=
  forallb (fun kv => match NilZero.uint_of_string (fst kv) with
                     | Some d => Z.of_uint d <=? 4
                     | None => true
                     end) table.

(** ** Callables that throw *)

(** The methods above take a call of a configured [prelog], [prefix] or
    [format] function, and of the [write] method of a stream, to return.
    None of these calls is guarded in the logger, so what one of them
    throws leaves the method that made the call.  The definitions of
    this module are the same methods with such calls allowed to throw:
    [Faults] tells on which calls, and what is thrown. *)
Module Throwing.

Record Faults : Type := mkFaults {
  (* prelog.call(this, levelName, args) throws *)
  prelog_throws : value -> list value -> option value;
  (* the prefix function, called through getOrCall, throws *)
  prefix_throws : value -> option value;
  (* this.opts.format(...args) throws *)
  format_throws : list value -> option value;
  (* stream.write(data) throws *)
  write_throws : value -> string -> option value
}.

(** Every call returns. *)
Definition returning (faults : Faults) : Prop :=
  (forall level args, prelog_throws faults level args = None) /\
  (forall level, prefix_throws faults level = None) /\
  (forall args, format_throws faults args = None) /\
  (forall stream data, write_throws faults stream data = None).

(** [v] is what one of the calls throws. *)
Definition thrown_by (faults : Faults) (v : value) : Prop :=
  (exists level args, prelog_throws faults level args = Some v) \/
  (exists level, prefix_throws faults level = Some v) \/
  (exists args, format_throws faults args = Some v) \/
  (exists stream data, write_throws faults stream data = Some v).

(** A completion that, if it is a failure, is a type error of the
    runtime or what one of the calls threw; not an error raised by the
    logger itself. *)
Definition runtime_or_thrown {A : Type} (faults : Faults) (o : outcome A) : Prop :=
  match o with
  | Return _ | Raise (TypeError _) => True
  | Raise (Thrown v) => thrown_by faults v
  | Raise (ArgumentError _) => False
  end.

Section Core.

Variable host : Host.
Variable Defaults_logLevel : value.
Variable faults : Faults.

Definition format (this : Logger) (args : list value) : M string :=
  match opts_format (opts this), format_throws faults args with
  | FormatFunction _, Some v =>
      do _ <- emit (CallFormat args);
      lift (Raise (Thrown v))
  | _, _ => format host this args
  end.

Definition stream_write (property : string) (stream : value) (data : string)
  : M unit :=
  match stream, write_throws faults stream data with
  | VStream _, Some v => lift (Raise (Thrown v))
  | _, _ => stream_write property stream data
  end.

Definition write (this : Logger) (data : string) : M unit :=
  stream_write "stdout" (stdout this) data.

Definition ewrite (this : Logger) (data : string) : M unit :=
  stream_write "stderr" (stderr this) data.

Definition print (this : Logger) (args : list value) : M unit :=
  do text <- format this args;
  write this (text ++ LF).

Definition eprint (this : Logger) (args : list value) : M unit :=
  do text <- format this args;
  ewrite this (text ++ LF).

Definition getOrCall (this : Logger) (levelName : value) : M value :=
  match opts_prefix (opts this), prefix_throws faults levelName with
  | PrefixFunction _, Some v =>
      do _ <- emit (CallPrefix levelName);
      lift (Raise (Thrown v))
  | _, _ => getOrCall host this levelName
  end.

Definition run_prelog (this : Logger) (levelName : value) (args : list value)
  : M (list value) :=
  match opts_prelog (opts this), prelog_throws faults levelName args with
  | PrelogFunction _, Some v =>
      do _ <- emit (CallPrelog levelName args);
      lift (Raise (Thrown v))
  | _, _ => run_prelog host this levelName args
  end.

Definition log_admitted (this : Logger) (level : value) (args : list value)
  : M unit :=
  do below2 <- lift (lt level (VNum (Int 2)));
  let method := if below2 then ewrite else write in
  do key <- lift (ToPropertyKey level);
  let levelName := get key LevelNames_properties in
  do args <- run_prelog this levelName args;
  do provided <- getOrCall this levelName;
  let prefixes := Cast_toArray host provided in
  do prefix <- (if is_empty prefixes then ret "" else format this prefixes);
  do body <- (if is_empty args then ret "" else format this args);
  do _ <- (if String.eqb prefix "" then ret tt
           else method this (prefix ++ (if String.eqb body "" then "" else " ")));
  method this (body ++ LF).

Definition log (this : Logger) (level : value) (args : list value) : M unit :=
  do level <- lift (getLevelNumber Defaults_logLevel level);
  do threshold <- lift (logLevel Defaults_logLevel this);
  do above <- lift (gt level threshold);
  if above then ret tt
  else log_admitted this level args.

Definition level_method (this : Logger) (name : string) (args : list value)
  : M unit :=
  match lookup name LevelNums with
  | Some level => log this level args
  | None => lift (Raise (TypeError ("logger." ++ name ++ " is not a function")))
  end.

End Core.

(** Faults under which the configured [prelog], and no other call,
    throws [v]. *)
Definition prelog_throwing (v : value) : Faults :=
  mkFaults (fun _ _ => Some v) (fun _ => None) (fun _ => None) (fun _ _ => None).

Definition no_faults : Faults :=
  mkFaults (fun _ _ => None) (fun _ => None) (fun _ => None) (fun _ _ => None).

End Throwing.

(** * Properties *)

(** ** Level resolution *)

Section LevelRegistryFacts.

Variable D : value.

Lemma LevelNames_sorted :
  LevelNames = ["error"; "warn"; "info"; "log"; "debug"].
Proof. reflexivity. Qed.

Lemma level_cases (name : string) (v : value) :
  In (name, v) LevelNums ->
  (name, v) = ("error", VNum (Int 0)) \/ (name, v) = ("warn", VNum (Int 1)) \/
  (name, v) = ("info", VNum (Int 2)) \/ (name, v) = ("log", VNum (Int 3)) \/
  (name, v) = ("debug", VNum (Int 4)).
Proof.
  unfold LevelNums. simpl. intuition (auto; try congruence).
Qed.

Lemma ordinal_cases (k : Z) :
  0 <= k <= 4 -> k = 0 \/ k = 1 \/ k = 2 \/ k = 3 \/ k = 4.
Proof. lia. Qed.

Lemma level_ordinal_range (name : string) (k : Z) :
  In (name, VNum (Int k)) LevelNums -> 0 <= k <= 4.
Proof.
  intros H. apply level_cases in H.
  repeat (destruct H as [H | H]; [inversion H; lia | ]). inversion H; lia.
Qed.

(** A name resolves to its ordinal in any letter case. *)
Lemma getLevelNumber_name (name s : string) (v : value) :
  In (name, v) LevelNums -> toLowerCase s = name ->
  getLevelNumber D (VStr s) = Return v.
Proof.
  intros Hin Hs. unfold getLevelNumber. rewrite Hs.
  apply level_cases in Hin.
  repeat (destruct Hin as [Hin | Hin]; [inversion Hin; subst; reflexivity | ]).
  inversion Hin; subst; reflexivity.
Qed.

(** An ordinal resolves to itself. *)
Lemma getLevelNumber_ordinal (k : Z) :
  0 <= k <= 4 -> getLevelNumber D (VNum (Int k)) = Return (VNum (Int k)).
Proof.
  intros H. apply ordinal_cases in H.
  repeat (destruct H as [H | H]; [subst; reflexivity | ]). subst; reflexivity.
Qed.

(** A negative number resolves to [-1]. *)
Lemma getLevelNumber_negative (T : Z) :
  T < 0 -> getLevelNumber D (VNum (Int T)) = Return (VNum (Int (-1))).
Proof.
  intros H. destruct T as [ | p | p]; try lia.
  unfold getLevelNumber. cbn. reflexivity.
Qed.

End LevelRegistryFacts.

(** ** Traces and completions *)

Section TraceFacts.

Context {A B : Type}.

Lemma trace_bind (m : M A) (f : A -> M B) :
  trace (bind m f) =
  (trace m ++ match completion m with
              | Return a => trace (f a)
              | Raise _ => []
              end)%list.
Proof.
  destruct m as [t [a | e]]; simpl.
  - destruct (f a); reflexivity.
  - now rewrite app_nil_r.
Qed.

Lemma completion_bind (m : M A) (f : A -> M B) :
  completion (bind m f) =
  match completion m with
  | Return a => completion (f a)
  | Raise e => Raise e
  end.
Proof.
  destruct m as [t [a | e]]; simpl; [destruct (f a) | ]; reflexivity.
Qed.

Lemma bind_lift_Return (a : A) (f : A -> M B) :
  bind (lift (Return a)) f = f a.
Proof. unfold bind, lift. destruct (f a); reflexivity. Qed.

Lemma bind_ret (a : A) (f : A -> M B) : bind (ret a) f = f a.
Proof. apply bind_lift_Return. Qed.

Lemma bind_ext (m : M A) (f g : A -> M B) :
  (forall a, f a = g a) -> bind m f = bind m g.
Proof.
  intros H. destruct m as [t [a | e]]; simpl; [now rewrite H | reflexivity].
Qed.

Lemma In_trace_bind_l (e : event) (m : M A) (f : A -> M B) :
  In e (trace m) -> In e (trace (bind m f)).
Proof. intros H. rewrite trace_bind. apply in_or_app. now left. Qed.

Lemma In_trace_bind_r (e : event) (m : M A) (f : A -> M B) (a : A) :
  completion m = Return a -> In e (trace (f a)) -> In e (trace (bind m f)).
Proof.
  intros Hc H. rewrite trace_bind, Hc. apply in_or_app. now right.
Qed.

(** A property of all stream writes passes through [bind]. *)
Lemma writes_bind (P : event -> Prop) (m : M A) (f : A -> M B) :
  Forall P (writes (trace m)) ->
  (forall a, Forall P (writes (trace (f a)))) ->
  Forall P (writes (trace (bind m f))).
Proof.
  intros Hm Hf. rewrite trace_bind. unfold writes. rewrite filter_app.
  apply Forall_app. split; [exact Hm | ].
  destruct (completion m); [apply Hf | constructor].
Qed.

End TraceFacts.

Lemma writes_lift {A : Type} (P : event -> Prop) (o : outcome A) :
  Forall P (writes (trace (lift o))).
Proof. constructor. Qed.

Lemma writes_ret {A : Type} (P : event -> Prop) (a : A) :
  Forall P (writes (trace (ret a))).
Proof. constructor. Qed.

(** ** Styles and the default callables *)

Section DefaultsFacts.

Variable host : Host.
Variable D : value.

Lemma has_slots_chalks (this : Logger) (level : string) (names : list string) :
  has_slots (opts_styles (opts this)) level names = true ->
  exists slots, chalks host this level = CompiledSlots slots /\
                forall n, In n names -> exists f, slots n = Some f.
Proof.
  unfold has_slots, chalks. intros H.
  destruct (assoc level (opts_styles (opts this))) as [[d | entries] | ];
    try discriminate.
  eexists. split; [reflexivity | ].
  intros n Hn. rewrite forallb_forall in H. specialize (H n Hn).
  destruct (assoc n entries); [eauto | discriminate].
Qed.

Lemma slot_method_complete (this : Logger) (level : string)
      (names : list string) (n : string) :
  has_slots (opts_styles (opts this)) level names = true -> In n names ->
  exists f, slot_method (chalks host this level) n = Return f.
Proof.
  intros H Hn. destruct (has_slots_chalks _ _ _ H) as (slots & -> & Hs).
  destruct (Hs n Hn) as [f Hf]. exists f. simpl. now rewrite Hf.
Qed.

Lemma styles_complete_level (this : Logger) (name : string) :
  styles_complete (opts_styles (opts this)) = true -> In name LevelNames ->
  has_slots (opts_styles (opts this)) name ["prefix"; "string"] = true.
Proof.
  unfold styles_complete. intros H Hn.
  apply andb_prop in H. destruct H as [H _].
  apply andb_prop in H. destruct H as [H _].
  rewrite forallb_forall in H. now apply H.
Qed.

Lemma styles_complete_error (this : Logger) :
  styles_complete (opts_styles (opts this)) = true ->
  has_slots (opts_styles (opts this)) "error" ["name"; "message"; "stack"] = true.
Proof.
  unfold styles_complete. intros H.
  apply andb_prop in H. destruct H as [H _].
  apply andb_prop in H. now destruct H as [_ H].
Qed.

Lemma styles_complete_brace (this : Logger) (text : string) :
  styles_complete (opts_styles (opts this)) = true ->
  exists s, brace host this text = Return s.
Proof.
  unfold styles_complete, brace, chalks. intros H.
  apply andb_prop in H. destruct H as [_ H].
  destruct (assoc "brace" (opts_styles (opts this))) as [[d | e] | ];
    try discriminate.
  eauto.
Qed.

(** [formatError] with the three error styles at hand. *)
Lemma formatError_styled (this : Logger) (err : ErrorInfo) (skip : bool)
      (name_style message_style stack_style : style) :
  slot_method (chalks host this "error") "name" = Return name_style ->
  slot_method (chalks host this "error") "message" = Return message_style ->
  slot_method (chalks host this "error") "stack" = Return stack_style ->
  formatError host this err skip =
  Return (let headline := name_style (error_display_name err) ++ ": "
                          ++ message_style (snd (parseStack host err)) in
          if skip then headline
          else headline ++ LF ++ stack_style (fst (parseStack host err))).
Proof.
  intros Hn Hm Hs. unfold formatError.
  destruct (parseStack host err) as [stack rawMessage].
  rewrite Hn, Hm. simpl. destruct skip; simpl.
  - reflexivity.
  - rewrite Hs. reflexivity.
Qed.

Lemma formatError_complete (this : Logger) (err : ErrorInfo) (skip : bool) :
  styles_complete (opts_styles (opts this)) = true ->
  exists text, formatError host this err skip = Return text.
Proof.
  intros H. apply styles_complete_error in H.
  destruct (slot_method_complete this _ _ "name" H) as [f Hf]; [simpl; auto | ].
  destruct (slot_method_complete this _ _ "message" H) as [g Hg]; [simpl; auto | ].
  destruct (slot_method_complete this _ _ "stack" H) as [h Hh]; [simpl; auto | ].
  rewrite (formatError_styled this err skip f g h Hf Hg Hh). eauto.
Qed.

End DefaultsFacts.

(** ** The default pre-processing callable *)

Section PrelogFacts.

Variable host : Host.

(** [hasError] after an element: set by an error, kept otherwise. *)
Lemma prelog_arg_flag (this : Logger) (chlk : chalk_entry) (args : list value)
      (h : bool) (arg : value) (r : bool * value) :
  prelog_arg host this chlk args h arg = Return r ->
  fst r = h || Is_Error arg.
Proof.
  destruct arg as [ | | b | n | s | d | src | fd | items | entries | err props];
    simpl; intros H;
    try (inversion H; subst; simpl; now rewrite orb_false_r).
  - destruct (slot_method chlk "string"); simpl in H; inversion H.
    simpl. now rewrite orb_false_r.
  - destruct entries as [ | [key v] [ | ? ?]];
      try (inversion H; subst; simpl; now rewrite orb_false_r).
    destruct (String.eqb key "throwing" && h).
    + inversion H; subst; simpl. now rewrite orb_false_r.
    + destruct (slot_in chlk key) as [[f | ] | ]; simpl in H; try discriminate.
      * destruct v; try (inversion H; subst; simpl; now rewrite orb_false_r).
        destruct (slot_method chlk "string"); simpl in H; inversion H.
        simpl. now rewrite orb_false_r.
      * inversion H; subst; simpl. now rewrite orb_false_r.
  - destruct (formatError host this err (existsb is_throwing args));
      simpl in H; inversion H.
    simpl. now rewrite orb_true_r.
Qed.

(** The mapped list, element by element: the element at position [i] is
    what the callback answers for it with [hasError] telling whether an
    error came before. *)
Lemma prelog_map_nth (this : Logger) (chlk : chalk_entry) (args : list value) :
  forall (rest : list value) (h : bool) (mapped : list value),
    prelog_map host this chlk args h rest = Return mapped ->
    forall (i : nat) (arg : value),
      nth_error rest i = Some arg ->
      exists r,
        prelog_arg host this chlk args
                   (h || existsb Is_Error (firstn i rest)) arg = Return r /\
        nth_error mapped i = Some (snd r).
Proof.
  induction rest as [ | a rest IH]; intros h mapped H i arg Hi.
  - destruct i; discriminate.
  - simpl in H.
    destruct (prelog_arg host this chlk args h a) as [r | ] eqn:Ha;
      simpl in H; try discriminate.
    destruct (prelog_map host this chlk args (fst r) rest) as [m | ] eqn:Hm;
      simpl in H; try discriminate.
    inversion H; subst mapped.
    destruct i as [ | i]; simpl in Hi |- *.
    + inversion Hi; subst. rewrite orb_false_r. eauto.
    + destruct (IH _ _ Hm i arg Hi) as (r' & Hr' & Hn).
      exists r'. split; [ | exact Hn].
      rewrite (prelog_arg_flag _ _ _ _ _ _ Ha) in Hr'.
      now rewrite orb_assoc.
Qed.

Lemma prelog_map_length (this : Logger) (chlk : chalk_entry) (args : list value) :
  forall (rest : list value) (h : bool) (mapped : list value),
    prelog_map host this chlk args h rest = Return mapped ->
    List.length mapped = List.length rest.
Proof.
  induction rest as [ | a rest IH]; intros h mapped H; simpl in H.
  - now inversion H.
  - destruct (prelog_arg host this chlk args h a) as [r | ]; simpl in H;
      try discriminate.
    destruct (prelog_map host this chlk args (fst r) rest) as [m | ] eqn:Hm;
      simpl in H; try discriminate.
    inversion H; subst. simpl. f_equal. eauto.
Qed.

(** With its styles in place the callback answers for every argument. *)
Lemma prelog_arg_complete (this : Logger) (slots : string -> option style)
      (args : list value) (h : bool) (arg : value) :
  styles_complete (opts_styles (opts this)) = true ->
  (exists f, slots "string" = Some f) ->
  exists r, prelog_arg host this (CompiledSlots slots) args h arg = Return r.
Proof.
  intros Hst [str Hstr].
  destruct arg as [ | | b | n | s | d | src | fd | items | entries | err props];
    simpl; eauto.
  - rewrite Hstr. simpl. eauto.
  - destruct entries as [ | [key v] [ | ? ?]]; eauto.
    destruct (String.eqb key "throwing" && h); eauto.
    destruct (slots key); simpl; eauto.
    destruct v; eauto. rewrite Hstr. simpl. eauto.
  - destruct (formatError_complete host this err
                (existsb is_throwing args) Hst) as [text ->].
    simpl. eauto.
Qed.

Lemma prelog_map_complete (this : Logger) (slots : string -> option style)
      (args : list value) :
  styles_complete (opts_styles (opts this)) = true ->
  (exists f, slots "string" = Some f) ->
  forall (rest : list value) (h : bool),
  exists mapped,
    prelog_map host this (CompiledSlots slots) args h rest = Return mapped.
Proof.
  intros Hst Hstr. induction rest as [ | a rest IH]; intros h; simpl; eauto.
  destruct (prelog_arg_complete this slots args h a Hst Hstr) as [r ->].
  simpl. destruct (IH (fst r)) as [m ->]. simpl. eauto.
Qed.

Lemma Defaults_prelog_complete (this : Logger) (name : string)
      (args : list value) :
  styles_complete (opts_styles (opts this)) = true -> In name LevelNames ->
  exists out, Defaults_prelog host this (VStr name) args = Return out.
Proof.
  intros Hst Hn. unfold Defaults_prelog. simpl.
  pose proof (styles_complete_level this name Hst Hn) as Hl.
  destruct (has_slots_chalks host this _ _ Hl) as (slots & -> & Hs).
  destruct (prelog_map_complete this slots args Hst
              (Hs "string" (or_intror (or_introl eq_refl))) args false)
    as [mapped ->].
  simpl. eauto.
Qed.

Lemma Defaults_prefix_complete (this : Logger) (name : string) :
  styles_complete (opts_styles (opts this)) = true -> In name LevelNames ->
  exists v, Defaults_prefix host this (VStr name) = Return v.
Proof.
  intros Hst Hn.
  pose proof (styles_complete_level this name Hst Hn) as Hl.
  destruct (slot_method_complete host this _ _ "prefix" Hl) as [f Hf];
    [simpl; auto | ].
  destruct (styles_complete_brace host this "[" Hst) as [o Ho].
  destruct (styles_complete_brace host this "]" Hst) as [c Hc].
  unfold Defaults_prefix. destruct (is_info (VStr name)).
  - simpl. rewrite Hf. simpl. eauto.
  - rewrite Ho. simpl. rewrite Hf. simpl. rewrite Hc. simpl. eauto.
Qed.

End PrelogFacts.

(** ** The dispatch routine *)

Section LogFacts.

Variable host : Host.
Variable D : value.

Lemma format_run (this : Logger) (args : list value) :
  exists text, format host this args = ([CallFormat args], Return text).
Proof.
  unfold format. destruct (opts_format (opts this)); simpl; eauto.
Qed.

Lemma stream_write_run (property : string) (stream : value) (data : string) :
  Is_WriteableStream stream = true ->
  stream_write property stream data = ([Write stream data], Return tt).
Proof. destruct stream; simpl; intros H; try discriminate; reflexivity. Qed.

(** Whatever the stream is, the only event a write leaves is a write to
    that stream. *)
Lemma stream_write_writes (property : string) (stream : value) (data : string) :
  Forall (fun e => exists d, e = Write stream d)
         (writes (trace (stream_write property stream data))).
Proof.
  destruct stream; simpl; repeat constructor. eauto.
Qed.

Lemma format_quiet (P : event -> Prop) (this : Logger) (args : list value) :
  Forall P (writes (trace (format host this args))).
Proof.
  destruct (format_run this args) as [text ->]. constructor.
Qed.

Lemma run_prelog_quiet (P : event -> Prop) (this : Logger) (levelName : value)
      (args : list value) :
  Forall P (writes (trace (run_prelog host this levelName args))).
Proof.
  unfold run_prelog. destruct (opts_prelog (opts this)) as [ | f | v].
  - apply writes_bind; [repeat constructor | intros _].
    apply writes_bind; [apply writes_lift | intros; apply writes_ret].
  - apply writes_bind; [repeat constructor | intros _].
    destruct (f levelName args) as [result args'].
    destruct result; apply writes_ret.
  - apply writes_ret.
Qed.

Lemma getOrCall_quiet (P : event -> Prop) (this : Logger) (levelName : value) :
  Forall P (writes (trace (getOrCall host this levelName))).
Proof.
  unfold getOrCall. destruct (opts_prefix (opts this)) as [ | f | v].
  - apply writes_bind; [repeat constructor | intros _; apply writes_lift].
  - apply writes_bind; [repeat constructor | intros _; apply writes_ret].
  - apply writes_ret.
Qed.

Lemma operational_stdout (this : Logger) :
  operational this = true -> Is_WriteableStream (opts_stdout (opts this)) = true.
Proof.
  unfold operational. intros H.
  apply andb_prop in H. destruct H as [H _].
  apply andb_prop in H. now destruct H.
Qed.

Lemma operational_stderr (this : Logger) :
  operational this = true -> Is_WriteableStream (opts_stderr (opts this)) = true.
Proof.
  unfold operational. intros H.
  apply andb_prop in H. destruct H as [H _].
  apply andb_prop in H. now destruct H.
Qed.

Lemma operational_destination (this : Logger) (k : Z) :
  operational this = true -> Is_WriteableStream (destination this k) = true.
Proof.
  intros H. unfold destination.
  destruct (k <? 2); [now apply operational_stderr | now apply operational_stdout].
Qed.

Lemma run_prelog_complete (this : Logger) (name : string) (args : list value) :
  operational this = true -> In name LevelNames ->
  exists t args', run_prelog host this (VStr name) args = (t, Return args').
Proof.
  unfold operational, needs_styles, run_prelog. intros H Hn.
  apply andb_prop in H. destruct H as [_ H].
  destruct (opts_prelog (opts this)) as [ | f | v].
  - simpl in H.
    destruct (Defaults_prelog_complete host this name args H Hn) as [out ->].
    simpl. eauto.
  - simpl. destruct (f (VStr name) args) as [result args'].
    destruct result; unfold ret; simpl; eauto.
  - unfold ret. eauto.
Qed.

Lemma getOrCall_complete (this : Logger) (name : string) :
  operational this = true -> In name LevelNames ->
  exists t v, getOrCall host this (VStr name) = (t, Return v).
Proof.
  unfold operational, needs_styles, getOrCall. intros H Hn.
  apply andb_prop in H. destruct H as [_ H].
  destruct (opts_prefix (opts this)) as [ | f | v].
  - rewrite orb_true_r in H. simpl in H.
    destruct (Defaults_prefix_complete host this name H Hn) as [v ->].
    simpl. eauto.
  - unfold ret; simpl. eauto.
  - unfold ret. eauto.
Qed.

Lemma gt_ordinals (a b : Z) :
  gt (VNum (Int a)) (VNum (Int b)) = Return (b <? a).
Proof. reflexivity. Qed.

Lemma lt_ordinals (a b : Z) :
  lt (VNum (Int a)) (VNum (Int b)) = Return (a <? b).
Proof. reflexivity. Qed.

(** [LevelNames[k]] for the ordinal of a level is the name of the level. *)
Lemma levelName_ordinal (name : string) (k : Z) :
  In (name, VNum (Int k)) LevelNums ->
  exists key, ToPropertyKey (VNum (Int k)) = Return key /\
              get key LevelNames_properties = VStr name.
Proof.
  intros H. apply level_cases in H.
  repeat (destruct H as [H | H];
          [inversion H; subst; eexists; split; reflexivity | ]).
  inversion H; subst; eexists; split; reflexivity.
Qed.

Lemma level_name_listed (name : string) (v : value) :
  In (name, v) LevelNums -> In name LevelNames.
Proof.
  intros H. rewrite LevelNames_sorted. apply level_cases in H. simpl.
  repeat (destruct H as [H | H]; [inversion H; subst; tauto | ]).
  inversion H; subst; tauto.
Qed.

(** The threshold a numeric [opts.logLevel] of at most 4 resolves to. *)
Lemma logLevel_ordinal (this : Logger) (T : Z) :
  opts_logLevel (opts this) = VNum (Int T) -> T <= 4 ->
  logLevel D this = Return (VNum (Int (Z.max T (-1)))).
Proof.
  intros H HT. unfold logLevel. rewrite H.
  destruct (Z.neg_nonneg_cases T) as [Hneg | Hpos].
  - rewrite getLevelNumber_negative by assumption.
    do 3 f_equal. lia.
  - rewrite getLevelNumber_ordinal by lia. do 3 f_equal. lia.
Qed.

(** The gate, for a level ordinal against a numeric threshold. *)
Lemma log_gate (this : Logger) (k T : Z) (args : list value) :
  0 <= k <= 4 -> opts_logLevel (opts this) = VNum (Int T) -> T <= 4 ->
  log host D this (VNum (Int k)) args =
  if T <? k then ([], Return tt)
  else log_admitted host this (VNum (Int k)) args.
Proof.
  intros Hk H HT. unfold log.
  rewrite getLevelNumber_ordinal by assumption. rewrite bind_lift_Return.
  rewrite (logLevel_ordinal this T H HT), bind_lift_Return.
  rewrite gt_ordinals, bind_lift_Return.
  replace (Z.max T (-1) <? k) with (T <? k); [reflexivity | ].
  destruct (T <? k) eqn:E1, (Z.max T (-1) <? k) eqn:E2; try reflexivity;
    rewrite ?Z.ltb_lt, ?Z.ltb_ge in *; lia.
Qed.

(** After the gate: the steps of [log_admitted] for a level ordinal. *)
Lemma log_admitted_ordinal (this : Logger) (name : string) (k : Z)
      (args : list value) :
  In (name, VNum (Int k)) LevelNums ->
  log_admitted host this (VNum (Int k)) args =
  do args <- run_prelog host this (VStr name) args;
  do provided <- getOrCall host this (VStr name);
  do prefix <- (if is_empty (Cast_toArray host provided) then ret ""
                else format host this (Cast_toArray host provided));
  do body <- (if is_empty args then ret "" else format host this args);
  do _ <- (if String.eqb prefix "" then ret tt
           else stream_write (destination_property k) (destination this k)
                  (prefix ++ (if String.eqb body "" then "" else " ")));
  stream_write (destination_property k) (destination this k) (body ++ LF).
Proof.
  intros H. destruct (levelName_ordinal name k H) as (key & Hkey & Hget).
  unfold log_admitted. rewrite lt_ordinals, bind_lift_Return.
  rewrite Hkey, bind_lift_Return. rewrite Hget.
  unfold destination, destination_property. destruct (k <? 2); reflexivity.
Qed.

(** Every stream write of an admitted call goes to its destination. *)
Lemma log_admitted_writes (this : Logger) (name : string) (k : Z)
      (args : list value) :
  In (name, VNum (Int k)) LevelNums ->
  Forall (fun e => exists d, e = Write (destination this k) d)
         (writes (trace (log_admitted host this (VNum (Int k)) args))).
Proof.
  intros H. rewrite (log_admitted_ordinal this name k args H).
  apply writes_bind; [apply run_prelog_quiet | intros args'].
  apply writes_bind; [apply getOrCall_quiet | intros provided].
  apply writes_bind;
    [destruct (is_empty _); [apply writes_ret | apply format_quiet] | intros prefix].
  apply writes_bind;
    [destruct (is_empty _); [apply writes_ret | apply format_quiet] | intros body].
  apply writes_bind;
    [destruct (String.eqb prefix ""); [apply writes_ret | apply stream_write_writes]
    | intros _].
  apply stream_write_writes.
Qed.

(** An admitted call of an operational logger runs to completion; its
    last event is the write of the body and the newline. *)
Lemma log_admitted_complete (this : Logger) (name : string) (k : Z)
      (args : list value) :
  In (name, VNum (Int k)) LevelNums -> operational this = true ->
  exists t args' body,
    completion (run_prelog host this (VStr name) args) = Return args' /\
    log_admitted host this (VNum (Int k)) args =
    ((t ++ [Write (destination this k) (body ++ LF)])%list, Return tt) /\
    (args' <> [] -> In (CallFormat args') t).
Proof.
  intros H Hop. rewrite (log_admitted_ordinal this name k args H).
  pose proof (level_name_listed _ _ H) as Hn.
  destruct (run_prelog_complete this name args Hop Hn) as (t1 & args' & ->).
  destruct (getOrCall_complete this name Hop Hn) as (t2 & provided & ->).
  pose proof (operational_destination this k Hop) as Hd.
  assert (Hp : exists t3 prefix,
             (if is_empty (Cast_toArray host provided) then ret ""
              else format host this (Cast_toArray host provided))
             = (t3, Return prefix)).
  { destruct (is_empty _); [unfold ret; eauto | ].
    destruct (format_run this (Cast_toArray host provided)) as [x ->]. eauto. }
  destruct Hp as (t3 & prefix & Hp).
  assert (Hb : exists t4 body,
             (if is_empty args' then ret "" else format host this args')
             = (t4, Return body) /\ (args' <> [] -> In (CallFormat args') t4)).
  { destruct args' as [ | a r]; simpl.
    - unfold ret. do 2 eexists. split; [reflexivity | intros C; now elim C].
    - destruct (format_run this (a :: r)) as [x ->].
      do 2 eexists. split; [reflexivity | intros _; now left]. }
  destruct Hb as (t4 & body & Hb & Hin).
  assert (Hw : exists t5,
             (if String.eqb prefix "" then ret tt
              else stream_write (destination_property k) (destination this k)
                     (prefix ++ (if String.eqb body "" then "" else " ")))
             = (t5, Return tt)).
  { destruct (String.eqb prefix ""); [unfold ret; eauto | ].
    rewrite stream_write_run by assumption. eauto. }
  destruct Hw as (t5 & Hw).
  exists (t1 ++ t2 ++ t3 ++ t4 ++ t5)%list, args', body.
  split; [reflexivity | ]. split.
  - simpl. rewrite Hp. simpl. rewrite Hb. simpl. rewrite Hw. simpl.
    rewrite stream_write_run by assumption.
    repeat rewrite <- app_assoc. reflexivity.
  - intros Hne. apply in_or_app. right. apply in_or_app. right.
    apply in_or_app. right. apply in_or_app. left. now apply Hin.
Qed.

(** Nothing after the gate reads [opts.logLevel]. *)
Lemma prelog_map_set_logLevel (this : Logger) (n : value) (chlk : chalk_entry)
      (args : list value) :
  forall (rest : list value) (h : bool),
    prelog_map host (set_logLevel this n) chlk args h rest
    = prelog_map host this chlk args h rest.
Proof.
  induction rest as [ | a rest IH]; intros h; simpl; [reflexivity | ].
  replace (prelog_arg host (set_logLevel this n) chlk args h a)
    with (prelog_arg host this chlk args h a)
    by (destruct this as [[so se l st pf pl fm] c]; reflexivity).
  destruct (prelog_arg host this chlk args h a) as [r | e]; simpl;
    [now rewrite IH | reflexivity].
Qed.

Lemma run_prelog_set_logLevel (this : Logger) (n levelName : value)
      (args : list value) :
  run_prelog host (set_logLevel this n) levelName args
  = run_prelog host this levelName args.
Proof.
  unfold run_prelog, Defaults_prelog.
  replace (opts_prelog (opts (set_logLevel this n)))
    with (opts_prelog (opts this)) by reflexivity.
  destruct (opts_prelog (opts this)); try reflexivity.
  destruct (ToPropertyKey levelName) as [key | e]; [ | reflexivity].
  simpl. rewrite prelog_map_set_logLevel.
  replace (chalks_at host (set_logLevel this n) key)
    with (chalks_at host this key)
    by (destruct this as [[so se l st pf pl fm] c]; reflexivity).
  reflexivity.
Qed.

Lemma log_admitted_set_logLevel (this : Logger) (n level : value)
      (args : list value) :
  log_admitted host (set_logLevel this n) level args
  = log_admitted host this level args.
Proof.
  unfold log_admitted.
  apply bind_ext. intros below2. apply bind_ext. intros key.
  rewrite run_prelog_set_logLevel.
  destruct this as [[so se l st pf pl fm] c].
  destruct below2; reflexivity.
Qed.

End LogFacts.

(** ** Module initialisation and thresholds outside the ordinals *)

Lemma Defaults_logLevel_init_info :
  Defaults_logLevel_init (mkEnv None None None) = Return (VNum (Int 2)).
Proof. reflexivity. Qed.

Lemma Defaults_logLevel_init_debug (flag : string) (l1 l2 : option string) :
  flag <> "" ->
  Defaults_logLevel_init (mkEnv (Some flag) l1 l2) = Return (VNum (Int 4)).
Proof.
  intros H. unfold Defaults_logLevel_init, Defaults_logLevel_raw. simpl.
  destruct (String.eqb flag "") eqn:E; [ | reflexivity].
  apply String.eqb_eq in E. contradiction.
Qed.

(** A numeric threshold above the ordinals is not kept: it resolves to the
    default level. *)
Remark logLevel_above_ordinals (D : value) (this : Logger) :
  logLevel D (set_logLevel this (VNum (Int 7))) = Return D.
Proof. reflexivity. Qed.

(** ** Scenarios on the reference configuration *)

Example scenario_info_ready :
  level_method plain_host info_level plain_logger "info" [VStr "ready"]
  = ([CallPrelog (VStr "info") [VStr "ready"]; CallPrefix (VStr "info");
      CallFormat [VStr ">"]; CallFormat [VStr "ready"];
      Write (VStream "stdout") "> ";
      Write (VStream "stdout") ("ready" ++ LF)],
     Return tt).
Proof. reflexivity. Qed.

Example scenario_debug_below_threshold :
  level_method plain_host info_level plain_logger "debug" [VStr "ready"]
  = ([], Return tt).
Proof. reflexivity. Qed.

Example scenario_warn_error :
  writes (trace (level_method plain_host info_level
                   (set_logLevel plain_logger (VStr "debug")) "warn" [boom]))
  = [Write (VStream "stderr") "[WARN] ";
     Write (VStream "stderr")
           ("Error: boom" ++ LF ++ "    at main (app.js:1:1)" ++ LF)].
Proof. reflexivity. Qed.

Example scenario_print_silenced :
  print plain_host (set_logLevel plain_logger (VNum (Int (-1)))) [VStr "x"]
  = ([CallFormat [VStr "x"]; Write (VStream "stdout") ("x" ++ LF)], Return tt).
Proof. reflexivity. Qed.

(** * The claims *)

Lemma lookup_level (name : string) (v : value) :
  In (name, v) LevelNums -> lookup name LevelNums = Some v.
Proof.
  intros H. apply level_cases in H.
  repeat (destruct H as [H | H]; [inversion H; subst; reflexivity | ]).
  inversion H; subst; reflexivity.
Qed.

Lemma level_method_log (host : Host) (D : value) (this : Logger) (name : string)
      (v : value) (args : list value) :
  In (name, v) LevelNums ->
  level_method host D this name args = log host D this v args.
Proof.
  intros H. unfold level_method. now rewrite (lookup_level name v H).
Qed.

(** C1 - threshold gate.  For a level of ordinal [k] and a logger whose
    configured threshold is the ordinal [T] (at most 4; anything negative
    silences like [-1]): when [T < k] the level method returns with an
    empty trace, so no stream write and no call of the pre-processing,
    prefix or format callable; in particular with [T = -1]; and on an
    operational logger the call writes to a stream exactly when
    [k <= T]. *)
Theorem C1_threshold_gate (host : Host) (D : value) (this : Logger)
        (name : string) (k T : Z) (args : list value) :
  In (name, VNum (Int k)) LevelNums ->
  opts_logLevel (opts this) = VNum (Int T) ->
  T <= 4 ->
  (T < k -> level_method host D this name args = ([], Return tt)) /\
  (T = -1 -> level_method host D this name args = ([], Return tt)) /\
  (operational this = true ->
   (writes (trace (level_method host D this name args)) <> [] <-> k <= T)).
Proof.
  intros Hl HT H4.
  pose proof (level_ordinal_range name k Hl) as Hk.
  rewrite (level_method_log host D this name _ args Hl).
  rewrite (log_gate host D this k T args Hk HT H4).
  split; [ | split].
  - intros Hlt. apply Z.ltb_lt in Hlt. now rewrite Hlt.
  - intros ->. replace (-1 <? k) with true; [reflexivity | ].
    symmetry. apply Z.ltb_lt. lia.
  - intros Hop. destruct (T <? k) eqn:E.
    + apply Z.ltb_lt in E. simpl. split; [intros C; now elim C | lia].
    + apply Z.ltb_ge in E. split; [intros _; exact E | intros _].
      destruct (log_admitted_complete host this name k args Hl Hop)
        as (t & args' & body & _ & -> & _).
      simpl. unfold writes. rewrite filter_app. simpl.
      intros C. apply app_eq_nil in C. destruct C as [_ C]. discriminate.
Qed.

Lemma C1_threshold_gate_witness :
  operational plain_logger = true /\
  (2 < 4 -> level_method plain_host info_level plain_logger "debug" [VStr "ready"]
            = ([], Return tt)) /\
  (2 = -1 -> level_method plain_host info_level plain_logger "debug" [VStr "ready"]
             = ([], Return tt)) /\
  (operational plain_logger = true ->
   (writes (trace (level_method plain_host info_level plain_logger "debug"
                                [VStr "ready"])) <> [] <-> 4 <= 2)).
Proof.
  split; [reflexivity | ].
  apply (C1_threshold_gate plain_host info_level plain_logger "debug" 4 2
                           [VStr "ready"]).
  - simpl. tauto.
  - reflexivity.
  - lia.
Defined.

(** C6 - destination.  Every stream write of a level method goes to the
    stream fixed by the level's ordinal [k]: the error stream for ordinals
    0 and 1, the primary stream for 2, 3 and 4; and an admitted call on
    an operational logger does write there. *)
Theorem C6_destination_by_ordinal (host : Host) (D : value) (this : Logger)
        (name : string) (k : Z) (args : list value) :
  In (name, VNum (Int k)) LevelNums ->
  destination this k
  = (if (k =? 0) || (k =? 1) then stderr this else stdout this) /\
  Forall (fun e => exists data, e = Write (destination this k) data)
         (writes (trace (level_method host D this name args))) /\
  (forall T, opts_logLevel (opts this) = VNum (Int T) -> k <= T <= 4 ->
             operational this = true ->
             exists data, In (Write (destination this k) data)
                             (trace (level_method host D this name args))).
Proof.
  intros Hl. pose proof (level_ordinal_range name k Hl) as Hk.
  rewrite (level_method_log host D this name _ args Hl).
  split; [ | split].
  - unfold destination, stderr, stdout.
    destruct (ordinal_cases k Hk) as [-> | [-> | [-> | [-> | ->]]]]; reflexivity.
  - unfold log. rewrite getLevelNumber_ordinal by assumption.
    rewrite bind_lift_Return.
    apply writes_bind; [apply writes_lift | intros threshold].
    apply writes_bind; [apply writes_lift | intros above].
    destruct above; [apply writes_ret | ].
    now apply (log_admitted_writes host this name).
  - intros T HT HkT Hop.
    rewrite (log_gate host D this k T args Hk HT) by lia.
    replace (T <? k) with false by (symmetry; apply Z.ltb_ge; lia).
    destruct (log_admitted_complete host this name k args Hl Hop)
      as (t & args' & body & _ & -> & _).
    exists (body ++ LF). simpl. apply in_or_app. right. now left.
Qed.

Lemma C6_destination_by_ordinal_witness :
  destination plain_logger 1
  = (if (1 =? 0) || (1 =? 1) then stderr plain_logger else stdout plain_logger) /\
  Forall (fun e => exists data, e = Write (destination plain_logger 1) data)
         (writes (trace (level_method plain_host info_level plain_logger "warn"
                                      [VStr "careful"]))) /\
  exists data, In (Write (destination plain_logger 1) data)
                  (trace (level_method plain_host info_level plain_logger "warn"
                                       [VStr "careful"])).
Proof.
  destruct (C6_destination_by_ordinal plain_host info_level plain_logger "warn" 1
                                      [VStr "careful"]) as (Hd & Hw & Hin).
  - simpl. tauto.
  - split; [exact Hd | split; [exact Hw | ]].
    apply (Hin 2); [reflexivity | lia | reflexivity].
Defined.

(** C4 - direct writers.  Whatever the argument list and whatever value
    the threshold is set to, [print] calls the format callable on its
    arguments and writes the text followed by one newline to the primary
    stream, and [eprint] does the same to the error stream; the trace
    holds nothing else: the gate is not consulted and [prelog] is not
    called.  The streams are the writable ones of the logger. *)
Theorem C4_print_bypasses_gate (host : Host) (this : Logger) (T : value)
        (args : list value) :
  Is_WriteableStream (stdout this) = true ->
  Is_WriteableStream (stderr this) = true ->
  exists text,
    format host this args = ([CallFormat args], Return text) /\
    print host (set_logLevel this T) args
    = ([CallFormat args; Write (stdout this) (text ++ LF)], Return tt) /\
    eprint host (set_logLevel this T) args
    = ([CallFormat args; Write (stderr this) (text ++ LF)], Return tt).
Proof.
  intros Hout Herr. destruct (format_run host this args) as [text Hf].
  exists text. split; [exact Hf | ].
  assert (Hf' : format host (set_logLevel this T) args
                = ([CallFormat args], Return text)).
  { rewrite <- Hf. destruct this as [[so se l st pf pl fm] c]. reflexivity. }
  unfold print, eprint, write, ewrite. rewrite Hf'.
  replace (stdout (set_logLevel this T)) with (stdout this) by reflexivity.
  replace (stderr (set_logLevel this T)) with (stderr this) by reflexivity.
  simpl. rewrite !stream_write_run by assumption. split; reflexivity.
Qed.

Lemma C4_print_bypasses_gate_witness :
  exists text,
    format plain_host plain_logger [VStr "x"] = ([CallFormat [VStr "x"]], Return text) /\
    print plain_host (set_logLevel plain_logger (VNum (Int (-1)))) [VStr "x"]
    = ([CallFormat [VStr "x"]; Write (stdout plain_logger) (text ++ LF)], Return tt) /\
    eprint plain_host (set_logLevel plain_logger (VNum (Int (-1)))) [VStr "x"]
    = ([CallFormat [VStr "x"]; Write (stderr plain_logger) (text ++ LF)], Return tt).
Proof.
  apply (C4_print_bypasses_gate plain_host plain_logger (VNum (Int (-1)))
                                [VStr "x"]); reflexivity.
Defined.

(** C7 - resolution of names and ordinals.  A level name resolves to its
    ordinal in every letter case, and an ordinal in [0, 4] resolves to
    itself. *)
Theorem C7_case_insensitive_and_identity (D : value) (name s : string)
        (k n : Z) :
  In (name, VNum (Int k)) LevelNums ->
  toLowerCase s = name ->
  0 <= n <= 4 ->
  getLevelNumber D (VStr s) = Return (VNum (Int k)) /\
  getLevelNumber D (VNum (Int n)) = Return (VNum (Int n)).
Proof.
  intros Hl Hs Hn. split.
  - now apply (getLevelNumber_name D name).
  - now apply getLevelNumber_ordinal.
Qed.

Lemma C7_case_insensitive_and_identity_witness :
  getLevelNumber info_level (VStr "WaRn") = Return (VNum (Int 1)) /\
  getLevelNumber info_level (VNum (Int 3)) = Return (VNum (Int 3)).
Proof.
  apply (C7_case_insensitive_and_identity info_level "warn" "WaRn" 1 3).
  - simpl. tauto.
  - reflexivity.
  - lia.
Defined.

(** ** Numeric strings and letter case *)

Section LowerCase.

Ltac each_char c :=
  destruct c as [[ | ] [ | ] [ | ] [ | ] [ | ] [ | ] [ | ] [ | ]].

Lemma chars_toLowerCase (s : string) :
  chars (toLowerCase s) = map lower_char (chars s).
Proof.
  induction s as [ | c s IH]; simpl; [reflexivity | ].
  unfold chars in *. simpl. now rewrite IH.
Qed.

Lemma is_space_lower (c : ascii) : is_space (lower_char c) = is_space c.
Proof. each_char c; reflexivity. Qed.

Lemma is_digit_lower (c : ascii) : is_digit (lower_char c) = is_digit c.
Proof. each_char c; reflexivity. Qed.

Lemma digit_lower (c : ascii) : is_digit c = true -> lower_char c = c.
Proof. each_char c; intros H; first [reflexivity | discriminate H]. Qed.

Lemma digit_of_lower (radix : Z) (c : ascii) :
  digit_of radix (lower_char c) = digit_of radix c.
Proof. each_char c; reflexivity. Qed.

(** What lower-cases to [d] is [d] or its upper case. *)
Lemma lower_char_inv (c d : ascii) :
  lower_char c = d -> c = d \/ c = upper_char d.
Proof.
  intros <-. each_char c; first [left; reflexivity | right; reflexivity].
Qed.

Lemma drop_spaces_lower (cs : list ascii) :
  drop_spaces (map lower_char cs) = map lower_char (drop_spaces cs).
Proof.
  induction cs as [ | c r IH]; [reflexivity | ].
  cbn [map drop_spaces]. rewrite is_space_lower.
  destruct (is_space c); [exact IH | reflexivity].
Qed.

Lemma trim_lower (cs : list ascii) :
  trim (map lower_char cs) = map lower_char (trim cs).
Proof.
  unfold trim.
  now rewrite drop_spaces_lower, <- map_rev, drop_spaces_lower, <- map_rev.
Qed.

Lemma digits_value_lower (radix : Z) (cs : list ascii) :
  forall acc, digits_value radix acc (map lower_char cs)
              = digits_value radix acc cs.
Proof.
  induction cs as [ | c r IH]; intros acc; [reflexivity | ].
  cbn [map digits_value]. rewrite digit_of_lower.
  destruct (digit_of radix c); [apply IH | reflexivity].
Qed.

Lemma parse_digits_lower (radix : Z) (cs : list ascii) :
  parse_digits radix (map lower_char cs) = parse_digits radix cs.
Proof.
  destruct cs as [ | c r]; [reflexivity | ].
  unfold parse_digits. cbn [map]. now rewrite <- (digits_value_lower radix (c :: r)).
Qed.

Lemma span_digits_lower (cs : list ascii) :
  span_digits (map lower_char cs)
  = (fst (span_digits cs), map lower_char (snd (span_digits cs))).
Proof.
  induction cs as [ | c r IH]; [reflexivity | ].
  cbn [map span_digits]. rewrite is_digit_lower.
  destruct (is_digit c) eqn:E; [ | reflexivity].
  rewrite IH, (digit_lower c E). now destruct (span_digits r).
Qed.

Lemma span_digits_lower_pair (cs : list ascii) :
  span_digits (map lower_char cs)
  = (let (ds, rest) := span_digits cs in (ds, map lower_char rest)).
Proof. rewrite span_digits_lower. now destruct (span_digits cs). Qed.

Lemma exponent_part_lower (cs : list ascii) :
  exponent_part (map lower_char cs) = exponent_part cs.
Proof.
  assert (Hsign : forall r,
             (match map lower_char r with
              | "+"%char :: r' => (1, r')
              | "-"%char :: r' => (-1, r')
              | _ => (1, map lower_char r)
              end)
             = (let (sign, r2) := match r with
                                  | "+"%char :: r' => (1, r')
                                  | "-"%char :: r' => (-1, r')
                                  | _ => (1, r)
                                  end in
                (sign, map lower_char r2))).
  { intros r. destruct r as [ | c r']; [reflexivity | ].
    cbn [map]. each_char c; reflexivity. }
  assert (Hexponent : forall r,
             exponent_part ("e"%char :: map lower_char r)
             = exponent_part ("e"%char :: r)).
  { intros r. unfold exponent_part. cbv beta iota.
    rewrite Hsign.
    destruct (match r with
              | "+"%char :: r' => (1, r')
              | "-"%char :: r' => (-1, r')
              | _ => (1, r)
              end) as [sign r2].
    rewrite span_digits_lower_pair.
    destruct (span_digits r2) as [ds rest].
    destruct ds; [reflexivity | ]. now destruct rest. }
  destruct cs as [ | c r]; [reflexivity | ].
  cbn [map]. each_char c; first [exact (Hexponent r) | reflexivity].
Qed.

Lemma decimal_literal_lower (cs : list ascii) :
  decimal_literal (map lower_char cs) = decimal_literal cs.
Proof.
  unfold decimal_literal. rewrite span_digits_lower_pair.
  destruct (span_digits cs) as [whole r1].
  assert (Hfraction :
            (match map lower_char r1 with
             | "."%char :: r => span_digits r
             | _ => ([], map lower_char r1)
             end)
            = (let (fraction, r2) := match r1 with
                                     | "."%char :: r => span_digits r
                                     | _ => ([], r1)
                                     end in
               (fraction, map lower_char r2))).
  { destruct r1 as [ | c r]; [reflexivity | ].
    cbn [map].
    each_char c; first [exact (span_digits_lower_pair r) | reflexivity]. }
  rewrite Hfraction.
  destruct (match r1 with
            | "."%char :: r => span_digits r
            | _ => ([], r1)
            end) as [fraction r2].
  now rewrite exponent_part_lower.
Qed.

Lemma unsigned_literal_lower (cs : list ascii) (x : number) :
  unsigned_literal cs = x -> x <> Inf false ->
  unsigned_literal (map lower_char cs) = x.
Proof.
  unfold unsigned_literal. intros H Hx.
  destruct (list_eq_dec ascii_dec cs (chars "Infinity")) as [ | _];
    [now elim Hx | ].
  destruct (list_eq_dec ascii_dec (map lower_char cs) (chars "Infinity"))
    as [E | _]; [ | now rewrite decimal_literal_lower].
  destruct cs as [ | c r]; [discriminate | ].
  injection E as Ec _. exfalso.
  destruct (lower_char_inv c _ Ec) as [-> | ->]; discriminate.
Qed.

(** Lower-casing does not change the finite number a string reads as. *)
Lemma StrNumericLiteral_lower (cs : list ascii) (z : Z) :
  StrNumericLiteral cs = Int z ->
  StrNumericLiteral (map lower_char cs) = Int z.
Proof.
  assert (Hunsigned : forall r, unsigned_literal r = Int z ->
                                unsigned_literal (map lower_char r) = Int z).
  { intros r H. now apply unsigned_literal_lower. }
  assert (Hnegated : forall r, negate (unsigned_literal r) = Int z ->
                               negate (unsigned_literal (map lower_char r))
                               = Int z).
  { intros r H.
    rewrite (unsigned_literal_lower r (unsigned_literal r) eq_refl);
      [exact H | ].
    intros E. rewrite E in H. discriminate. }
  assert (Hparse : forall radix r, parse_digits radix r = Int z ->
                                   parse_digits radix (map lower_char r) = Int z).
  { intros radix r H. now rewrite parse_digits_lower. }
  destruct cs as [ | c r]; [trivial | ].
  cbn [map]. each_char c;
    first [exact (Hunsigned (_ :: r)) | exact (Hunsigned r)
          | exact (Hnegated r) | idtac].
  destruct r as [ | c' r']; [exact (Hunsigned [_]) | ].
  cbn [map]. each_char c';
    first [exact (Hunsigned (_ :: _ :: r')) | exact (Hparse 16 r')
          | exact (Hparse 8 r') | exact (Hparse 2 r')].
Qed.

Lemma StringToNumber_toLowerCase (s : string) (z : Z) :
  StringToNumber s = Int z -> StringToNumber (toLowerCase s) = Int z.
Proof.
  unfold StringToNumber. rewrite chars_toLowerCase, trim_lower.
  apply StrNumericLiteral_lower.
Qed.

End LowerCase.

(** A key that reads as an integer is the numeral of that integer, in
    both property tables; [LevelNums] has no such key. *)
Lemma lookup_misses (s : string) (P : string -> Prop)
      (table : list (string * value)) :
  Forall (fun kv => P (fst kv)) table -> ~ P s -> lookup s table = None.
Proof.
  intros Htable Hs. induction Htable as [ | [k v] r Hk _ IH]; [reflexivity | ].
  simpl. destruct (String.eqb s k) eqn:E; [ | exact IH].
  apply String.eqb_eq in E. subst k. now elim Hs.
Qed.

Lemma LevelNums_keys_no_numbers :
  Forall (fun kv => StringToNumber (fst kv) = NaN) LevelNums_properties.
Proof. repeat constructor. Qed.

Lemma LevelNames_keys_numerals :
  Forall (fun kv => forall n, StringToNumber (fst kv) = Int n ->
                              fst kv = Number_toString (Int n))
         LevelNames_properties.
Proof.
  repeat constructor; intros n H; vm_compute in H;
    first [discriminate | inversion H; reflexivity].
Qed.

Lemma digit_lower_char (c d : ascii) :
  is_digit d = true -> lower_char c = d -> c = d.
Proof.
  revert c d.
  intros [[ | ] [ | ] [ | ] [ | ] [ | ] [ | ] [ | ] [ | ]] d Hd <-;
    first [reflexivity | vm_compute in Hd; discriminate].
Qed.

(** Lower-casing leads to the numeral of an ordinal from that numeral
    only. *)
Lemma numeral_toLowerCase (s : string) (n : Z) :
  0 <= n <= 4 -> toLowerCase s = Number_toString (Int n) ->
  s = Number_toString (Int n).
Proof.
  intros Hn H.
  destruct (ordinal_cases n Hn) as [-> | [-> | [-> | [-> | ->]]]];
    (set (numeral := Number_toString _) in *; vm_compute in numeral;
     subst numeral;
     destruct s as [ | c [ | c' r]]; simpl in H; try discriminate;
     injection H as Hc; f_equal;
     refine (digit_lower_char c _ _ Hc); reflexivity).
Qed.

(** C8 - numeric strings.  Take a string that reads as an integer [n]
    in [0, 4].  It is no property of [LevelNums].  When it is the
    decimal numeral of [n], it is an index of [LevelNames] and resolves
    to the number [n]; any other such string, as ["03"], [" 3"], ["+3"],
    ["3.0"] or ["0x3"], is no property of [LevelNames] either and
    resolves to the default level. *)
Theorem C8_numeric_string_index (D : value) (n : Z) (s : string) :
  0 <= n <= 4 ->
  StringToNumber s = Int n ->
  has_property (KString (toLowerCase s)) LevelNums_properties = false /\
  (s = Number_toString (Int n) ->
   has_property (KString (toLowerCase s)) LevelNames_properties = true /\
   ToNumber (VStr (toLowerCase s)) = Return (Int n) /\
   getLevelNumber D (VStr s) = Return (VNum (Int n))) /\
  (s <> Number_toString (Int n) ->
   has_property (KString (toLowerCase s)) LevelNames_properties = false /\
   getLevelNumber D (VStr s) = Return D).
Proof.
  intros Hn Hreads. apply StringToNumber_toLowerCase in Hreads.
  assert (Hnums : has_property (KString (toLowerCase s)) LevelNums_properties
                  = false).
  { unfold has_property.
    rewrite (lookup_misses (toLowerCase s) (fun k => StringToNumber k = NaN)
                           _ LevelNums_keys_no_numbers); [reflexivity | ].
    rewrite Hreads. discriminate. }
  split; [exact Hnums | ]. split.
  - intros ->.
    destruct (ordinal_cases n Hn) as [-> | [-> | [-> | [-> | ->]]]];
      repeat split; reflexivity.
  - intros Hs.
    assert (Hnames : has_property (KString (toLowerCase s))
                                  LevelNames_properties = false).
    { unfold has_property.
      rewrite (lookup_misses
                 (toLowerCase s)
                 (fun k => forall n, StringToNumber k = Int n ->
                                     k = Number_toString (Int n))
                 _ LevelNames_keys_numerals); [reflexivity | ].
      intros H. apply Hs. apply (numeral_toLowerCase s n Hn).
      now apply H. }
    split; [exact Hnames | ].
    unfold getLevelNumber.
    change (ToPropertyKey (VStr (toLowerCase s)))
      with (Return (KString (toLowerCase s))).
    cbv beta iota delta [obind]. rewrite Hnums, Hnames.
    change (lt (VStr (toLowerCase s)) (VNum (Int 0)))
      with (Return (number_ltb (StringToNumber (toLowerCase s)) (Int 0))).
    rewrite Hreads. simpl.
    replace (n <? 0) with false by (symmetry; apply Z.ltb_ge; lia).
    reflexivity.
Qed.

Lemma C8_numeric_string_index_witness :
  (has_property (KString "3") LevelNums_properties = false /\
   has_property (KString "3") LevelNames_properties = true /\
   ToNumber (VStr "3") = Return (Int 3) /\
   getLevelNumber info_level (VStr "3") = Return (VNum (Int 3))) /\
  (has_property (KString "3.0") LevelNames_properties = false /\
   getLevelNumber info_level (VStr "3.0") = Return info_level).
Proof.
  split.
  - destruct (C8_numeric_string_index info_level 3 "3") as (H1 & H2 & _);
      [lia | reflexivity | ].
    split; [exact H1 | now apply H2].
  - destruct (C8_numeric_string_index info_level 3 "3.0") as (_ & _ & H3);
      [lia | reflexivity | ].
    apply H3. discriminate.
Defined.

(** Counterexample to C8 as stated: ["03"] is a numeric string that
    denotes 3 and matches no level name, yet it is not coerced and
    returned: it is no index key, and resolves to the default level. *)
Lemma C8_numeric_string_counterexample :
  StringToNumber "03" = Int 3 /\
  lookup "03" LevelNums = None /\
  getLevelNumber (VNum (Int 2)) (VStr "03") = Return (VNum (Int 2)).
Proof. repeat split; reflexivity. Qed.

(** The index check is on the property key: a numeric string that is not
    the key of an index, like ["03"], takes the fallback. *)
Remark getLevelNumber_padded_string (D : value) :
  getLevelNumber D (VStr "03") = Return D.
Proof. reflexivity. Qed.

(** C9 - the [logLevel] property.  Assigning a level name and assigning
    its ordinal leave the logger reading the same threshold, and every
    later dispatch has the same trace and completion. *)
Theorem C9_logLevel_name_or_ordinal (host : Host) (D : value) (this : Logger)
        (name : string) (k : Z) :
  In (name, VNum (Int k)) LevelNums ->
  logLevel D (set_logLevel this (VStr name)) = Return (VNum (Int k)) /\
  logLevel D (set_logLevel this (VNum (Int k))) = Return (VNum (Int k)) /\
  (forall level args,
     log host D (set_logLevel this (VStr name)) level args
     = log host D (set_logLevel this (VNum (Int k))) level args) /\
  (forall method args,
     level_method host D (set_logLevel this (VStr name)) method args
     = level_method host D (set_logLevel this (VNum (Int k))) method args).
Proof.
  intros Hl. pose proof (level_ordinal_range name k Hl) as Hk.
  assert (Hname : logLevel D (set_logLevel this (VStr name)) = Return (VNum (Int k))).
  { unfold logLevel. simpl. apply (getLevelNumber_name D name); [exact Hl | ].
    apply level_cases in Hl.
    repeat (destruct Hl as [Hl | Hl]; [inversion Hl; reflexivity | ]).
    inversion Hl; reflexivity. }
  assert (Hord : logLevel D (set_logLevel this (VNum (Int k))) = Return (VNum (Int k))).
  { unfold logLevel. simpl. now apply getLevelNumber_ordinal. }
  assert (Hlog : forall level args,
             log host D (set_logLevel this (VStr name)) level args
             = log host D (set_logLevel this (VNum (Int k))) level args).
  { intros level args. unfold log. rewrite Hname, Hord.
    apply bind_ext. intros resolved. apply bind_ext. intros threshold.
    apply bind_ext. intros above.
    now rewrite !log_admitted_set_logLevel. }
  repeat split; try assumption.
  intros method args. unfold level_method.
  destruct (lookup method LevelNums); [apply Hlog | reflexivity].
Qed.

Lemma C9_logLevel_name_or_ordinal_witness :
  logLevel info_level (set_logLevel plain_logger (VStr "debug")) = Return (VNum (Int 4)) /\
  logLevel info_level (set_logLevel plain_logger (VNum (Int 4))) = Return (VNum (Int 4)) /\
  (forall level args,
     log plain_host info_level (set_logLevel plain_logger (VStr "debug")) level args
     = log plain_host info_level (set_logLevel plain_logger (VNum (Int 4))) level args) /\
  (forall method args,
     level_method plain_host info_level (set_logLevel plain_logger (VStr "debug")) method args
     = level_method plain_host info_level (set_logLevel plain_logger (VNum (Int 4))) method args).
Proof.
  apply (C9_logLevel_name_or_ordinal plain_host info_level plain_logger "debug" 4).
  simpl. tauto.
Defined.

(** An ordinary unknown name, an integer above the ordinals, [null] and
    [undefined] do take the fallback. *)
Remark getLevelNumber_fallback_examples (D : value) :
  getLevelNumber D (VStr "verbose") = Return D /\
  getLevelNumber D (VNum (Int 5)) = Return D /\
  getLevelNumber D VNull = Return D /\
  getLevelNumber D VUndefined = Return D.
Proof. repeat split; reflexivity. Qed.

(** C2 - unrecognized level values.  ["length"] is no level name, no
    numeric string and no negative number, yet it does not resolve to the
    default: it is a property of the array [LevelNames], so it takes the
    index path and comes back as [NaN]; ["constructor"], inherited by
    [LevelNums], comes back as a function; and a symbol makes the
    resolution raise. *)
Theorem C2_unrecognized_value_resolution (D : value) :
  getLevelNumber D (VStr "length") = Return (VNum NaN) /\
  getLevelNumber D (VStr "constructor")
  = Return (VFunction "function Object() { [native code] }") /\
  getLevelNumber D (VSymbol "level") = Raise symbol_to_number.
Proof. repeat split; reflexivity. Qed.

Section ErrorRendering.

Variable host : Host.

Lemma Defaults_prelog_inv (this : Logger) (name : string)
      (args out : list value) :
  Defaults_prelog host this (VStr name) args = Return out ->
  exists mapped,
    prelog_map host this (chalks host this name) args false args
    = Return mapped /\
    out = filter not_nullish mapped.
Proof.
  unfold Defaults_prelog. simpl. intros H.
  destruct (prelog_map host this (chalks host this name) args false args)
    as [mapped | e]; simpl in H; [ | discriminate].
  exists mapped. split; [reflexivity | now inversion H].
Qed.

Lemma Defaults_prelog_of_map (this : Logger) (name : string)
      (args mapped : list value) :
  prelog_map host this (chalks host this name) args false args
  = Return mapped ->
  Defaults_prelog host this (VStr name) args
  = Return (filter not_nullish mapped).
Proof. unfold Defaults_prelog. simpl. now intros ->. Qed.

(** What the callback answers for an error. *)
Lemma prelog_arg_error (this : Logger) (chlk : chalk_entry)
      (args : list value) (h : bool) (err : ErrorInfo)
      (props : list (string * value)) (r : bool * value) :
  prelog_arg host this chlk args h (VError err props) = Return r ->
  exists text,
    formatError host this err (existsb is_throwing args) = Return text /\
    snd r = VStr text.
Proof.
  simpl. destruct (formatError host this err (existsb is_throwing args));
    simpl; intros H; inversion H. eauto.
Qed.

Lemma In_filter_not_nullish (s : string) (l : list value) :
  In (VStr s) l -> In (VStr s) (filter not_nullish l).
Proof. intros H. apply filter_In. now split. Qed.

End ErrorRendering.

(** The test [arg && arg.throwing] of the code holds of the values with
    a truthy [throwing] property, and of no other. *)
Lemma lookup_app (k : string) (a b : list (string * value)) :
  lookup k (a ++ b)
  = match lookup k a with Some v => Some v | None => lookup k b end.
Proof.
  induction a as [ | [k' v'] r IH]; simpl; [reflexivity | ].
  destruct (String.eqb k k'); [reflexivity | exact IH].
Qed.

Lemma own_throwing (own : list (string * value)) :
  get (KString "throwing") (object_properties own)
  = match lookup "throwing" own with Some v => v | None => VUndefined end.
Proof.
  unfold get, object_properties. rewrite lookup_app.
  destruct (lookup "throwing" own); reflexivity.
Qed.

Lemma is_throwing_truthy (arg : value) :
  is_throwing arg = true <-> truthy_throwing arg.
Proof.
  unfold is_throwing, throwing_of. split.
  - destruct arg; try (rewrite andb_false_r; discriminate);
      rewrite own_throwing; cbn [ToBoolean andb].
    + destruct (lookup "throwing" entries) as [v | ] eqn:E; [ | discriminate].
      intros H. now apply (throwing_object entries v).
    + destruct (lookup "throwing" props) as [v | ] eqn:E; [ | discriminate].
      intros H. now apply (throwing_error info props v).
  - intros [entries v Hl Hv | info props v Hl Hv];
      rewrite own_throwing, Hl; exact Hv.
Qed.

Lemma some_argument_throwing (args : list value) :
  existsb is_throwing args = true <->
  exists arg, In arg args /\ truthy_throwing arg.
Proof.
  rewrite existsb_exists. split; intros (arg & Hin & H); exists arg;
    (split; [exact Hin | now apply is_throwing_truthy]).
Qed.

Lemma no_argument_throwing (args : list value) :
  (forall arg, In arg args -> ~ truthy_throwing arg) ->
  existsb is_throwing args = false.
Proof.
  intros H. destruct (existsb is_throwing args) eqn:E; [ | reflexivity].
  apply some_argument_throwing in E. destruct E as (arg & Hin & Ht).
  now elim (H arg Hin).
Qed.

(** C5 - error rendering.  In an admitted call of a level method whose
    arguments contain an error, the default [prelog] hands on, to the
    format callable, a list in which the error is rendered as the styled
    ["name: message"] line alone when some argument of the call is a
    value with a truthy [throwing] property, and as that line followed by
    a line with the styled stack trace when no argument is one. *)
Theorem C5_error_rendering (host : Host) (D : value) (this : Logger)
        (name : string) (k T : Z) (args : list value) (err : ErrorInfo)
        (props : list (string * value))
        (name_style message_style stack_style : style) :
  In (name, VNum (Int k)) LevelNums ->
  opts_logLevel (opts this) = VNum (Int T) ->
  k <= T <= 4 ->
  opts_prelog (opts this) = PrelogDefault ->
  operational this = true ->
  In (VError err props) args ->
  slot_method (chalks host this "error") "name" = Return name_style ->
  slot_method (chalks host this "error") "message" = Return message_style ->
  slot_method (chalks host this "error") "stack" = Return stack_style ->
  let headline := name_style (error_display_name err) ++ ": "
                  ++ message_style (snd (parseStack host err)) in
  let stack_line := stack_style (fst (parseStack host err)) in
  exists out,
    Defaults_prelog host this (VStr name) args = Return out /\
    In (CallFormat out) (trace (level_method host D this name args)) /\
    ((exists arg, In arg args /\ truthy_throwing arg) ->
     In (VStr headline) out) /\
    ((forall arg, In arg args -> ~ truthy_throwing arg) ->
     In (VStr (headline ++ LF ++ stack_line)) out).
Proof.
  intros Hl HT HkT Hpl Hop Hin Hn Hm Hs headline stack_line.
  pose proof (level_ordinal_range name k Hl) as Hk.
  pose proof (level_name_listed _ _ Hl) as Hname.
  pose proof (formatError_styled host this err (existsb is_throwing args)
                                 _ _ _ Hn Hm Hs) as Hfmt.
  assert (Hst : styles_complete (opts_styles (opts this)) = true).
  { unfold operational, needs_styles in Hop. rewrite Hpl in Hop.
    apply andb_prop in Hop. now destruct Hop as [_ Hop]. }
  destruct (Defaults_prelog_complete host this name args Hst Hname) as [out Hout].
  exists out. split; [exact Hout | ].
  assert (Hrendered :
            In (VStr (if existsb is_throwing args then headline
                      else headline ++ LF ++ stack_line)) out).
  { destruct (Defaults_prelog_inv host this name args out Hout)
      as (mapped & Hmap & ->).
    apply In_filter_not_nullish.
    destruct (In_nth_error _ _ Hin) as [i Hi].
    destruct (prelog_map_nth host this _ args args false mapped Hmap i _ Hi)
      as (r & Hr & Hnth).
    destruct (prelog_arg_error host this _ _ _ _ _ _ Hr) as (text & Ht & Hsnd).
    rewrite Hfmt in Ht. inversion Ht; subst text.
    rewrite Hsnd in Hnth. apply nth_error_In in Hnth.
    destruct (existsb is_throwing args); exact Hnth. }
  split; [ | split].
  - rewrite (level_method_log host D this name _ args Hl).
    rewrite (log_gate host D this k T args Hk HT) by lia.
    replace (T <? k) with false by (symmetry; apply Z.ltb_ge; lia).
    destruct (log_admitted_complete host this name k args Hl Hop)
      as (t & args' & body & Hrun & -> & Hcall).
    assert (args' = out).
    { unfold run_prelog in Hrun. rewrite Hpl, Hout in Hrun. simpl in Hrun.
      now inversion Hrun. }
    subst args'. simpl. apply in_or_app. left. apply Hcall.
    intros ->. exact Hrendered.
  - intros Hsome. apply some_argument_throwing in Hsome.
    now rewrite Hsome in Hrendered.
  - intros Hnone. apply no_argument_throwing in Hnone.
    now rewrite Hnone in Hrendered.
Qed.

Lemma C5_error_rendering_witness :
  let this := set_logLevel plain_logger (VNum (Int 4)) in
  (exists out,
     Defaults_prelog plain_host this (VStr "warn")
                     [boom; VObject [("throwing", VBool true)]] = Return out /\
     In (CallFormat out)
        (trace (level_method plain_host info_level this "warn"
                             [boom; VObject [("throwing", VBool true)]])) /\
     In (VStr "Error: boom") out) /\
  (exists out,
     Defaults_prelog plain_host this (VStr "warn") [boom; VStr "x"]
     = Return out /\
     In (CallFormat out)
        (trace (level_method plain_host info_level this "warn"
                             [boom; VStr "x"])) /\
     In (VStr ("Error: boom" ++ LF ++ "    at main (app.js:1:1)")) out).
Proof.
  intros this. split.
  - destruct (C5_error_rendering plain_host info_level this "warn" 1 4
                [boom; VObject [("throwing", VBool true)]]
                (mkErrorInfo "Error" "Error" "boom" "    at main (app.js:1:1)") []
                (fun text => text) (fun text => text) (fun text => text))
      as (out & Hout & Hcall & Hskip & _).
    + simpl. tauto.
    + reflexivity.
    + lia.
    + reflexivity.
    + reflexivity.
    + simpl. tauto.
    + reflexivity.
    + reflexivity.
    + reflexivity.
    + exists out. split; [exact Hout | ]. split; [exact Hcall | ].
      apply Hskip. exists (VObject [("throwing", VBool true)]).
      split; [simpl; tauto | ].
      now apply (throwing_object _ (VBool true)).
  - destruct (C5_error_rendering plain_host info_level this "warn" 1 4
                [boom; VStr "x"]
                (mkErrorInfo "Error" "Error" "boom" "    at main (app.js:1:1)") []
                (fun text => text) (fun text => text) (fun text => text))
      as (out & Hout & Hcall & _ & Hstack).
    + simpl. tauto.
    + reflexivity.
    + lia.
    + reflexivity.
    + reflexivity.
    + simpl. tauto.
    + reflexivity.
    + reflexivity.
    + reflexivity.
    + exists out. split; [exact Hout | ]. split; [exact Hcall | ].
      apply Hstack. intros arg [<- | [<- | []]] H; inversion H; discriminate.
Defined.

Section Positions.

Context {A : Type}.

Lemma nth_error_middle (pre : list A) (x : A) (post : list A) :
  nth_error (pre ++ x :: post) (List.length pre) = Some x.
Proof. induction pre as [ | a pre IH]; simpl; [reflexivity | exact IH]. Qed.

Lemma firstn_middle (pre : list A) (x : A) (post : list A) :
  firstn (List.length pre) (pre ++ x :: post) = pre.
Proof. induction pre as [ | a pre IH]; simpl; [reflexivity | now rewrite IH]. Qed.

End Positions.

(** An element mapped to [null] contributes nothing to the filtered list. *)
Lemma filter_drops_null (l : list value) :
  forall j, nth_error l j = Some VNull ->
            filter not_nullish l
            = (filter not_nullish (firstn j l)
               ++ filter not_nullish (skipn (S j) l))%list.
Proof.
  induction l as [ | a l IH]; intros [ | j] H; simpl in H; try discriminate.
  - inversion H; subst. reflexivity.
  - simpl. rewrite (IH j H). now destruct (not_nullish a).
Qed.

(** C10 - position of a [{throwing: v}] fragment.  With [v] truthy the
    stack line of the error is suppressed wherever the fragment stands.
    A fragment standing before the first error is mapped to itself and
    stays in the list handed on to the format callable (the level having
    no style slot of that name); a fragment standing after an error is
    mapped to [null] and the output list is made of the other positions
    only. *)
Theorem C10_throwing_fragment_position (host : Host) (this : Logger)
        (name : string) (v : value) (err : ErrorInfo)
        (props : list (string * value)) (pre mid post : list value)
        (name_style message_style : style) :
  ToBoolean v = true ->
  existsb Is_Error pre = false ->
  styles_complete (opts_styles (opts this)) = true ->
  In name LevelNames ->
  slot_in (chalks host this name) "throwing" = Return None ->
  slot_method (chalks host this "error") "name" = Return name_style ->
  slot_method (chalks host this "error") "message" = Return message_style ->
  let frag := VObject [("throwing", v)] in
  let headline := VStr (name_style (error_display_name err) ++ ": "
                        ++ message_style (snd (parseStack host err))) in
  let before := ((pre ++ frag :: mid) ++ VError err props :: post)%list in
  let after := ((pre ++ VError err props :: mid) ++ frag :: post)%list in
  (exists mapped,
     prelog_map host this (chalks host this name) before false before
     = Return mapped /\
     nth_error mapped (List.length pre) = Some frag /\
     nth_error mapped (List.length (pre ++ frag :: mid)) = Some headline /\
     Defaults_prelog host this (VStr name) before
     = Return (filter not_nullish mapped) /\
     In frag (filter not_nullish mapped)) /\
  (exists mapped,
     prelog_map host this (chalks host this name) after false after
     = Return mapped /\
     nth_error mapped (List.length pre) = Some headline /\
     nth_error mapped (List.length (pre ++ VError err props :: mid)) = Some VNull /\
     Defaults_prelog host this (VStr name) after
     = Return (filter not_nullish
                 (firstn (List.length (pre ++ VError err props :: mid)) mapped)
               ++ filter not_nullish
                    (skipn (S (List.length (pre ++ VError err props :: mid))) mapped))%list).
Proof.
  intros Hv Hpre Hst Hname Hslot Hn Hm frag headline before after.
  pose proof (styles_complete_level this name Hst Hname) as Hl.
  destruct (has_slots_chalks host this _ _ Hl) as (slots & Hch & Hs).
  pose proof (Hs "string" (or_intror (or_introl eq_refl))) as Hstring.
  destruct (slot_method_complete host this _ _ "stack"
              (styles_complete_error this Hst)) as [stack_style Hstack];
    [simpl; auto | ].
  assert (Hfrag : is_throwing frag = true).
  { unfold is_throwing, frag. simpl. exact Hv. }
  assert (Hrender : forall args,
             In frag args ->
             formatError host this err (existsb is_throwing args)
             = Return (name_style (error_display_name err) ++ ": "
                       ++ message_style (snd (parseStack host err)))).
  { intros args Hin.
    rewrite (formatError_styled host this err _ _ _ _ Hn Hm Hstack).
    replace (existsb is_throwing args) with true; [reflexivity | ].
    symmetry. apply existsb_exists. exists frag. now split. }
  split.
  - rewrite Hch in *.
    destruct (prelog_map_complete host this slots before Hst Hstring before false)
      as [mapped Hmap].
    exists mapped. split; [exact Hmap | ].
    assert (Hfrag_at : nth_error mapped (List.length pre) = Some frag).
    { assert (Hi : nth_error before (List.length pre) = Some frag).
      { unfold before. rewrite <- app_assoc. apply nth_error_middle. }
      destruct (prelog_map_nth host this _ before before false mapped Hmap _ _ Hi)
        as (r & Hr & Hnth).
      unfold before in Hr at 2. rewrite <- app_assoc in Hr.
      simpl in Hr. rewrite firstn_middle, Hpre in Hr.
      unfold frag in Hr. simpl in Hr. simpl in Hslot.
      injection Hslot as Hslot. rewrite Hslot in Hr.
      simpl in Hr. inversion Hr; subst r. exact Hnth. }
    split; [exact Hfrag_at | ]. split; [ | split].
    + assert (Hi : nth_error before (List.length (pre ++ frag :: mid))
                   = Some (VError err props)) by apply nth_error_middle.
      destruct (prelog_map_nth host this _ before before false mapped Hmap _ _ Hi)
        as (r & Hr & Hnth).
      destruct (prelog_arg_error host this _ _ _ _ _ _ Hr) as (text & Ht & Hsnd).
      rewrite Hrender in Ht.
      * inversion Ht; subst text. now rewrite Hsnd in Hnth.
      * unfold before. rewrite <- app_assoc. apply in_or_app. right. now left.
    + apply Defaults_prelog_of_map. now rewrite Hch.
    + apply filter_In. split; [ | reflexivity].
      now apply nth_error_In in Hfrag_at.
  - rewrite Hch in *.
    destruct (prelog_map_complete host this slots after Hst Hstring after false)
      as [mapped Hmap].
    exists mapped. split; [exact Hmap | ].
    assert (Hnull : nth_error mapped (List.length (pre ++ VError err props :: mid))
                    = Some VNull).
    { assert (Hi : nth_error after (List.length (pre ++ VError err props :: mid))
                   = Some frag) by apply nth_error_middle.
      destruct (prelog_map_nth host this _ after after false mapped Hmap _ _ Hi)
        as (r & Hr & Hnth).
      unfold after in Hr at 2. rewrite firstn_middle in Hr.
      rewrite existsb_app in Hr. simpl in Hr. rewrite orb_true_r in Hr.
      unfold frag in Hr. simpl in Hr. inversion Hr; subst r. exact Hnth. }
    split; [ | split; [exact Hnull | ]].
    + assert (Hi : nth_error after (List.length pre) = Some (VError err props)).
      { unfold after. rewrite <- app_assoc. apply nth_error_middle. }
      destruct (prelog_map_nth host this _ after after false mapped Hmap _ _ Hi)
        as (r & Hr & Hnth).
      destruct (prelog_arg_error host this _ _ _ _ _ _ Hr) as (text & Ht & Hsnd).
      rewrite Hrender in Ht.
      * inversion Ht; subst text. now rewrite Hsnd in Hnth.
      * unfold after. apply in_or_app. right. now left.
    + rewrite <- (filter_drops_null mapped _ Hnull).
      apply Defaults_prelog_of_map. now rewrite Hch.
Qed.

Lemma C10_throwing_fragment_position_witness :
  let frag := VObject [("throwing", VBool true)] in
  let info := mkErrorInfo "Error" "Error" "boom" "    at main (app.js:1:1)" in
  let headline := VStr ("Error" ++ ": " ++ "boom") in
  let before := (([VStr "a"] ++ frag :: []) ++ VError info [] :: [])%list in
  let after := (([VStr "a"] ++ VError info [] :: []) ++ frag :: [])%list in
  (exists mapped,
     prelog_map plain_host plain_logger (chalks plain_host plain_logger "warn")
                before false before = Return mapped /\
     nth_error mapped 1 = Some frag /\
     nth_error mapped 2 = Some headline /\
     Defaults_prelog plain_host plain_logger (VStr "warn") before
     = Return (filter not_nullish mapped) /\
     In frag (filter not_nullish mapped)) /\
  (exists mapped,
     prelog_map plain_host plain_logger (chalks plain_host plain_logger "warn")
                after false after = Return mapped /\
     nth_error mapped 1 = Some headline /\
     nth_error mapped 2 = Some VNull /\
     Defaults_prelog plain_host plain_logger (VStr "warn") after
     = Return (filter not_nullish (firstn 2 mapped)
               ++ filter not_nullish (skipn 3 mapped))%list).
Proof.
  apply (C10_throwing_fragment_position plain_host plain_logger "warn"
           (VBool true)
           (mkErrorInfo "Error" "Error" "boom" "    at main (app.js:1:1)") []
           [VStr "a"] [] [] (fun text => text) (fun text => text)).
  - reflexivity.
  - reflexivity.
  - reflexivity.
  - simpl. tauto.
  - reflexivity.
  - reflexivity.
  - reflexivity.
Defined.

(** ** Failures *)

Section Failures.

Variable host : Host.
Variable D : value.

Lemma obind_only_TypeError {A B : Type} (m : outcome A) (f : A -> outcome B) :
  only_TypeError m -> (forall a, only_TypeError (f a)) ->
  only_TypeError (obind m f).
Proof. destruct m as [a | e]; simpl; auto. Qed.

Lemma ToString_only_TypeError : forall v, only_TypeError (ToString v).
Proof.
  fix IH 1. intros v.
  destruct v as [ | | [ | ] | n | s | d | src | fd | items | entries | err props];
    try exact I.
  simpl. induction items as [ | x rest IHr]; [exact I | ].
  apply obind_only_TypeError.
  - pose proof (IH x) as Hx. destruct x; try exact I; exact Hx.
  - intros a. destruct rest; [exact I | ].
    apply obind_only_TypeError; [exact IHr | intros; exact I].
Qed.

Lemma ToPrimitive_only_TypeError (v : value) : only_TypeError (ToPrimitive v).
Proof.
  unfold ToPrimitive. destruct (is_primitive v); [exact I | ].
  apply obind_only_TypeError; [apply ToString_only_TypeError | intros; exact I].
Qed.

Lemma ToNumber_primitive_only_TypeError (p : value) :
  only_TypeError (ToNumber_primitive p).
Proof. destruct p; exact I. Qed.

Lemma ToNumber_only_TypeError (v : value) : only_TypeError (ToNumber v).
Proof.
  apply obind_only_TypeError;
    [apply ToPrimitive_only_TypeError | apply ToNumber_primitive_only_TypeError].
Qed.

Lemma ToPropertyKey_only_TypeError (v : value) :
  only_TypeError (ToPropertyKey v).
Proof.
  apply obind_only_TypeError; [apply ToPrimitive_only_TypeError | intros p].
  destruct p; try exact I;
    (apply obind_only_TypeError;
     [apply ToString_only_TypeError | intros; exact I]).
Qed.

Lemma IsLessThan_only_TypeError (px py : value) :
  only_TypeError (IsLessThan px py).
Proof.
  unfold IsLessThan.
  assert (H : only_TypeError
                (let? nx := ToNumber_primitive px in
                 let? ny := ToNumber_primitive py in
                 Return (number_ltb nx ny))).
  { apply obind_only_TypeError;
      [apply ToNumber_primitive_only_TypeError | intros nx].
    apply obind_only_TypeError;
      [apply ToNumber_primitive_only_TypeError | intros; exact I]. }
  destruct px; try exact H. destruct py; first [exact H | exact I].
Qed.

Lemma lt_only_TypeError (a b : value) : only_TypeError (lt a b).
Proof.
  apply obind_only_TypeError; [apply ToPrimitive_only_TypeError | intros pa].
  apply obind_only_TypeError; [apply ToPrimitive_only_TypeError | intros pb].
  apply IsLessThan_only_TypeError.
Qed.

Lemma gt_only_TypeError (a b : value) : only_TypeError (gt a b).
Proof.
  apply obind_only_TypeError; [apply ToPrimitive_only_TypeError | intros pa].
  apply obind_only_TypeError; [apply ToPrimitive_only_TypeError | intros pb].
  apply IsLessThan_only_TypeError.
Qed.

Lemma getLevelNumber_only_TypeError (v : value) :
  only_TypeError (getLevelNumber D v).
Proof.
  unfold getLevelNumber.
  apply obind_only_TypeError; [apply ToPropertyKey_only_TypeError | intros key].
  destruct (has_property key LevelNums_properties); [exact I | ].
  destruct (has_property key LevelNames_properties).
  - apply obind_only_TypeError; [apply ToNumber_only_TypeError | intros; exact I].
  - apply obind_only_TypeError; [apply lt_only_TypeError | intros b].
    destruct b; exact I.
Qed.

Lemma slot_method_only_TypeError (chlk : chalk_entry) (slot : string) :
  only_TypeError (slot_method chlk slot).
Proof.
  destruct chlk as [ | f | slots]; simpl; try exact I.
  destruct (slots slot); exact I.
Qed.

Lemma slot_in_only_TypeError (chlk : chalk_entry) (key : string) :
  only_TypeError (slot_in chlk key).
Proof. destruct chlk; exact I. Qed.

Lemma brace_only_TypeError (this : Logger) (text : string) :
  only_TypeError (brace host this text).
Proof. unfold brace. destruct (chalks host this "brace"); exact I. Qed.

Lemma formatError_only_TypeError (this : Logger) (err : ErrorInfo)
      (skip : bool) :
  only_TypeError (formatError host this err skip).
Proof.
  unfold formatError. destruct (parseStack host err) as [stack rawMessage].
  apply obind_only_TypeError; [apply slot_method_only_TypeError | intros f].
  apply obind_only_TypeError; [apply slot_method_only_TypeError | intros g].
  apply obind_only_TypeError; [ | intros; exact I].
  destruct (negb skip); [ | exact I].
  apply obind_only_TypeError;
    [apply slot_method_only_TypeError | intros; exact I].
Qed.

Lemma level_toUpperCase_only_TypeError (level : value) :
  only_TypeError (level_toUpperCase level).
Proof. destruct level; exact I. Qed.

Lemma Defaults_prefix_only_TypeError (this : Logger) (level : value) :
  only_TypeError (Defaults_prefix host this level).
Proof.
  unfold Defaults_prefix. destruct (is_info level).
  - apply obind_only_TypeError; [apply ToPropertyKey_only_TypeError | intros key].
    apply obind_only_TypeError;
      [apply slot_method_only_TypeError | intros; exact I].
  - apply obind_only_TypeError; [apply brace_only_TypeError | intros o].
    apply obind_only_TypeError; [apply ToPropertyKey_only_TypeError | intros key].
    apply obind_only_TypeError; [apply slot_method_only_TypeError | intros f].
    apply obind_only_TypeError; [apply level_toUpperCase_only_TypeError | intros u].
    apply obind_only_TypeError; [apply brace_only_TypeError | intros; exact I].
Qed.

End Failures.

Section OperationFailures.

Variable host : Host.
Variable D : value.

Lemma prelog_arg_only_TypeError (this : Logger) (chlk : chalk_entry)
      (args : list value) (h : bool) (arg : value) :
  only_TypeError (prelog_arg host this chlk args h arg).
Proof.
  destruct arg as [ | | b | n | s | d | src | fd | items | entries | err props];
    try exact I; simpl.
  - apply obind_only_TypeError;
      [apply slot_method_only_TypeError | intros; exact I].
  - destruct entries as [ | [key v] [ | ? ?]]; try exact I.
    destruct (String.eqb key "throwing" && h); [exact I | ].
    apply obind_only_TypeError; [apply slot_in_only_TypeError | intros slot].
    destruct slot as [f | ]; [ | exact I].
    destruct v; try exact I.
    apply obind_only_TypeError;
      [apply slot_method_only_TypeError | intros; exact I].
  - apply obind_only_TypeError;
      [apply formatError_only_TypeError | intros; exact I].
Qed.

Lemma prelog_map_only_TypeError (this : Logger) (chlk : chalk_entry)
      (args : list value) :
  forall rest h, only_TypeError (prelog_map host this chlk args h rest).
Proof.
  induction rest as [ | a rest IH]; intros h; simpl; [exact I | ].
  apply obind_only_TypeError; [apply prelog_arg_only_TypeError | intros r].
  apply obind_only_TypeError; [apply IH | intros; exact I].
Qed.

Lemma Defaults_prelog_only_TypeError (this : Logger) (level : value)
      (args : list value) :
  only_TypeError (Defaults_prelog host this level args).
Proof.
  unfold Defaults_prelog.
  apply obind_only_TypeError; [apply ToPropertyKey_only_TypeError | intros key].
  apply obind_only_TypeError;
    [apply prelog_map_only_TypeError | intros; exact I].
Qed.

Lemma bind_only_TypeError {A B : Type} (m : M A) (f : A -> M B) :
  only_TypeError (completion m) ->
  (forall a, only_TypeError (completion (f a))) ->
  only_TypeError (completion (bind m f)).
Proof.
  intros Hm Hf. rewrite completion_bind.
  destruct (completion m) as [a | e]; [apply Hf | exact Hm].
Qed.

Lemma format_only_TypeError (this : Logger) (args : list value) :
  only_TypeError (completion (format host this args)).
Proof. destruct (format_run host this args) as [text ->]. exact I. Qed.

Lemma stream_write_only_TypeError (property : string) (stream : value) (data : string) :
  only_TypeError (completion (stream_write property stream data)).
Proof. destruct stream; exact I. Qed.

Lemma print_only_TypeError (this : Logger) (args : list value) :
  only_TypeError (completion (print host this args)).
Proof.
  apply bind_only_TypeError; [apply format_only_TypeError | intros text].
  apply stream_write_only_TypeError.
Qed.

Lemma eprint_only_TypeError (this : Logger) (args : list value) :
  only_TypeError (completion (eprint host this args)).
Proof.
  apply bind_only_TypeError; [apply format_only_TypeError | intros text].
  apply stream_write_only_TypeError.
Qed.

Lemma run_prelog_only_TypeError (this : Logger) (levelName : value)
      (args : list value) :
  only_TypeError (completion (run_prelog host this levelName args)).
Proof.
  unfold run_prelog. destruct (opts_prelog (opts this)) as [ | f | v].
  - apply bind_only_TypeError; [exact I | intros _].
    apply bind_only_TypeError;
      [apply Defaults_prelog_only_TypeError | intros; exact I].
  - apply bind_only_TypeError; [exact I | intros _].
    destruct (f levelName args) as [result args']. destruct result; exact I.
  - exact I.
Qed.

Lemma getOrCall_only_TypeError (this : Logger) (levelName : value) :
  only_TypeError (completion (getOrCall host this levelName)).
Proof.
  unfold getOrCall. destruct (opts_prefix (opts this)) as [ | f | v].
  - apply bind_only_TypeError; [exact I | intros _].
    apply Defaults_prefix_only_TypeError.
  - apply bind_only_TypeError; [exact I | intros; exact I].
  - exact I.
Qed.

Lemma log_admitted_only_TypeError (this : Logger) (level : value)
      (args : list value) :
  only_TypeError (completion (log_admitted host this level args)).
Proof.
  unfold log_admitted.
  apply bind_only_TypeError; [apply lt_only_TypeError | intros below2].
  apply bind_only_TypeError; [apply ToPropertyKey_only_TypeError | intros key].
  apply bind_only_TypeError; [apply run_prelog_only_TypeError | intros args'].
  apply bind_only_TypeError; [apply getOrCall_only_TypeError | intros provided].
  apply bind_only_TypeError;
    [destruct (is_empty _); [exact I | apply format_only_TypeError]
    | intros prefix].
  apply bind_only_TypeError;
    [destruct (is_empty _); [exact I | apply format_only_TypeError]
    | intros body].
  apply bind_only_TypeError.
  - destruct (String.eqb prefix ""); [exact I | ].
    destruct below2; apply stream_write_only_TypeError.
  - intros _. destruct below2; apply stream_write_only_TypeError.
Qed.

Lemma log_only_TypeError (this : Logger) (level : value) (args : list value) :
  only_TypeError (completion (log host D this level args)).
Proof.
  unfold log.
  apply bind_only_TypeError; [apply getLevelNumber_only_TypeError | intros l].
  apply bind_only_TypeError; [apply getLevelNumber_only_TypeError | intros t].
  apply bind_only_TypeError; [apply gt_only_TypeError | intros above].
  destruct above; [exact I | apply log_admitted_only_TypeError].
Qed.

(** *** Operations that run to completion *)

Lemma lookup_In (k : string) (v : value) (props : list (string * value)) :
  lookup k props = Some v -> In (k, v) props.
Proof.
  induction props as [ | [k' v'] r IH]; simpl; [discriminate | ].
  destruct (String.eqb k k') eqn:E.
  - intros H. inversion H; subst. apply String.eqb_eq in E. subst. now left.
  - intros H. right. now apply IH.
Qed.

Lemma get_LevelNums_convertible (key : PropertyKey) :
  convertible (get key LevelNums_properties) = true.
Proof.
  destruct key as [s | d]; [ | reflexivity]. unfold get.
  destruct (lookup s LevelNums_properties) as [v | ] eqn:E; [ | reflexivity].
  apply lookup_In in E.
  assert (H : Forall (fun kv => convertible (snd kv) = true)
                     LevelNums_properties) by (repeat constructor).
  rewrite Forall_forall in H. exact (H _ E).
Qed.

(** A convertible value converts to a primitive that is not a symbol. *)
Lemma convertible_primitive (v : value) :
  convertible v = true ->
  exists p, ToPrimitive v = Return p /\ is_primitive p = true /\
            (forall d, p <> VSymbol d).
Proof.
  unfold convertible, ToPrimitive.
  destruct (is_primitive v) eqn:E.
  - intros H. exists v. repeat split; [exact E | ].
    intros d ->. discriminate.
  - destruct (ToString v) as [s | e]; simpl; [ | discriminate].
    intros _. exists (VStr s). repeat split. intros d; discriminate.
Qed.

Lemma primitive_conversions (p : value) :
  is_primitive p = true -> (forall d, p <> VSymbol d) ->
  (exists s, ToString p = Return s) /\
  (exists n, ToNumber_primitive p = Return n).
Proof.
  intros Hp Hs.
  destruct p as [ | | [ | ] | n | s | d | | | | | ]; try discriminate;
    try (split; eexists; reflexivity).
  now elim (Hs d).
Qed.

Lemma compare_convertible (a b : value) :
  convertible a = true -> convertible b = true ->
  (exists r, lt a b = Return r) /\ (exists r, gt a b = Return r).
Proof.
  intros Ha Hb.
  destruct (convertible_primitive a Ha) as (pa & Hpa & Hia & Hsa).
  destruct (convertible_primitive b Hb) as (pb & Hpb & Hib & Hsb).
  destruct (primitive_conversions pa Hia Hsa) as [_ [na Hna]].
  destruct (primitive_conversions pb Hib Hsb) as [_ [nb Hnb]].
  unfold lt, gt. rewrite Hpa, Hpb. simpl.
  assert (H : forall x y nx ny,
             ToNumber_primitive x = Return nx ->
             ToNumber_primitive y = Return ny ->
             exists r, IsLessThan x y = Return r).
  { intros x y nx ny Hx Hy. unfold IsLessThan.
    assert (Hnum : exists r,
               (let? nx := ToNumber_primitive x in
                let? ny := ToNumber_primitive y in
                Return (number_ltb nx ny)) = Return r).
    { rewrite Hx. simpl. rewrite Hy. simpl. eauto. }
    destruct x; try exact Hnum. destruct y; first [exact Hnum | eauto]. }
  split; eapply H; eassumption.
Qed.

(** Level resolution of a convertible value returns, and what it
    returns is convertible when the default is. *)
Lemma getLevelNumber_convertible (v : value) :
  convertible D = true -> convertible v = true ->
  exists r, getLevelNumber D v = Return r /\ convertible r = true.
Proof.
  intros HD Hv. unfold getLevelNumber.
  set (w := match v with VStr s => VStr (toLowerCase s) | _ => v end).
  assert (Hw : convertible w = true).
  { unfold w. destruct v; first [exact Hv | reflexivity]. }
  destruct (convertible_primitive w Hw) as (p & Hp & Hip & Hsp).
  destruct (primitive_conversions p Hip Hsp) as [[s Hs] [n Hn]].
  assert (Hkey : ToPropertyKey w = Return (KString s)).
  { unfold ToPropertyKey. rewrite Hp. simpl.
    destruct p; try (rewrite Hs; reflexivity). now elim (Hsp description). }
  rewrite Hkey. cbv beta iota delta [obind].
  destruct (has_property (KString s) LevelNums_properties).
  - eexists. split; [reflexivity | apply get_LevelNums_convertible].
  - destruct (has_property (KString s) LevelNames_properties).
    + unfold ToNumber. rewrite Hp. cbv beta iota delta [obind]. rewrite Hn.
      eexists. split; reflexivity.
    + destruct (compare_convertible w (VNum (Int 0)) Hw eq_refl) as [[r Hr] _].
      rewrite Hr. destruct r; eexists; (split; [reflexivity | ]);
        [reflexivity | exact HD].
Qed.

End OperationFailures.

Lemma listed_level (name : string) :
  In name LevelNames -> exists k, In (name, VNum (Int k)) LevelNums.
Proof.
  rewrite LevelNames_sorted. simpl.
  intros [<- | [<- | [<- | [<- | [<- | []]]]]]; eexists; simpl; eauto 10.
Qed.

Section ThrowingFailures.

Variable host : Host.
Variable D : value.
Variable faults : Throwing.Faults.

Lemma runtime_failure {A : Type} (o : outcome A) :
  only_TypeError o -> Throwing.runtime_or_thrown faults o.
Proof. destruct o as [a | [msg | msg | v]]; simpl; tauto. Qed.

Lemma bind_runtime_or_thrown {A B : Type} (m : M A) (f : A -> M B) :
  Throwing.runtime_or_thrown faults (completion m) ->
  (forall a, Throwing.runtime_or_thrown faults (completion (f a))) ->
  Throwing.runtime_or_thrown faults (completion (bind m f)).
Proof.
  intros Hm Hf. rewrite completion_bind.
  destruct (completion m) as [a | e]; [apply Hf | exact Hm].
Qed.

Lemma throwing_format_failure (this : Logger) (args : list value) :
  Throwing.runtime_or_thrown faults
    (completion (Throwing.format host faults this args)).
Proof.
  unfold Throwing.format.
  pose proof (format_only_TypeError host this args) as Hbase.
  destruct (opts_format (opts this)) as [ | f];
    [now apply runtime_failure | ].
  destruct (Throwing.format_throws faults args) as [v | ] eqn:E.
  - right. right. left. now exists args.
  - now apply runtime_failure.
Qed.

Lemma throwing_stream_write_failure (property : string) (stream : value)
      (data : string) :
  Throwing.runtime_or_thrown faults
    (completion (Throwing.stream_write faults property stream data)).
Proof.
  unfold Throwing.stream_write.
  destruct stream; try (apply runtime_failure, stream_write_only_TypeError).
  destruct (Throwing.write_throws faults (VStream name) data) as [v | ] eqn:E.
  - right. right. right. now exists (VStream name), data.
  - exact I.
Qed.

Lemma throwing_print_failure (this : Logger) (args : list value) :
  Throwing.runtime_or_thrown faults
    (completion (Throwing.print host faults this args)).
Proof.
  apply bind_runtime_or_thrown; [apply throwing_format_failure | intros text].
  apply throwing_stream_write_failure.
Qed.

Lemma throwing_eprint_failure (this : Logger) (args : list value) :
  Throwing.runtime_or_thrown faults
    (completion (Throwing.eprint host faults this args)).
Proof.
  apply bind_runtime_or_thrown; [apply throwing_format_failure | intros text].
  apply throwing_stream_write_failure.
Qed.

Lemma throwing_run_prelog_failure (this : Logger) (levelName : value)
      (args : list value) :
  Throwing.runtime_or_thrown faults
    (completion (Throwing.run_prelog host faults this levelName args)).
Proof.
  unfold Throwing.run_prelog.
  pose proof (run_prelog_only_TypeError host this levelName args) as Hbase.
  destruct (opts_prelog (opts this)) as [ | f | v];
    try (now apply runtime_failure).
  destruct (Throwing.prelog_throws faults levelName args) as [v | ] eqn:E.
  - left. now exists levelName, args.
  - now apply runtime_failure.
Qed.

Lemma throwing_getOrCall_failure (this : Logger) (levelName : value) :
  Throwing.runtime_or_thrown faults
    (completion (Throwing.getOrCall host faults this levelName)).
Proof.
  unfold Throwing.getOrCall.
  pose proof (getOrCall_only_TypeError host this levelName) as Hbase.
  destruct (opts_prefix (opts this)) as [ | f | v];
    try (now apply runtime_failure).
  destruct (Throwing.prefix_throws faults levelName) as [v | ] eqn:E.
  - right. left. now exists levelName.
  - now apply runtime_failure.
Qed.

Lemma throwing_log_admitted_failure (this : Logger) (level : value)
      (args : list value) :
  Throwing.runtime_or_thrown faults
    (completion (Throwing.log_admitted host faults this level args)).
Proof.
  unfold Throwing.log_admitted.
  apply bind_runtime_or_thrown;
    [apply runtime_failure, lt_only_TypeError | intros below2].
  apply bind_runtime_or_thrown;
    [apply runtime_failure, ToPropertyKey_only_TypeError | intros key].
  apply bind_runtime_or_thrown;
    [apply throwing_run_prelog_failure | intros args'].
  apply bind_runtime_or_thrown;
    [apply throwing_getOrCall_failure | intros provided].
  apply bind_runtime_or_thrown;
    [destruct (is_empty _); [exact I | apply throwing_format_failure]
    | intros prefix].
  apply bind_runtime_or_thrown;
    [destruct (is_empty _); [exact I | apply throwing_format_failure]
    | intros body].
  apply bind_runtime_or_thrown.
  - destruct (String.eqb prefix ""); [exact I | ].
    destruct below2; apply throwing_stream_write_failure.
  - intros _. destruct below2; apply throwing_stream_write_failure.
Qed.

Lemma throwing_log_failure (this : Logger) (level : value)
      (args : list value) :
  Throwing.runtime_or_thrown faults
    (completion (Throwing.log host D faults this level args)).
Proof.
  unfold Throwing.log.
  apply bind_runtime_or_thrown;
    [apply runtime_failure, getLevelNumber_only_TypeError | intros l].
  apply bind_runtime_or_thrown;
    [apply runtime_failure, getLevelNumber_only_TypeError | intros t].
  apply bind_runtime_or_thrown;
    [apply runtime_failure, gt_only_TypeError | intros above].
  destruct above; [exact I | apply throwing_log_admitted_failure].
Qed.

(** *** Calls that return *)

Hypothesis calls_return : Throwing.returning faults.

Lemma returning_format (this : Logger) (args : list value) :
  Throwing.format host faults this args = format host this args.
Proof.
  destruct calls_return as (_ & _ & H & _).
  unfold Throwing.format. rewrite H. now destruct (opts_format (opts this)).
Qed.

Lemma returning_stream_write (property : string) (stream : value)
      (data : string) :
  Throwing.stream_write faults property stream data
  = stream_write property stream data.
Proof.
  destruct calls_return as (_ & _ & _ & H).
  unfold Throwing.stream_write. destruct stream; try reflexivity.
  now rewrite H.
Qed.

Lemma returning_run_prelog (this : Logger) (levelName : value)
      (args : list value) :
  Throwing.run_prelog host faults this levelName args
  = run_prelog host this levelName args.
Proof.
  destruct calls_return as (H & _).
  unfold Throwing.run_prelog. rewrite H. now destruct (opts_prelog (opts this)).
Qed.

Lemma returning_getOrCall (this : Logger) (levelName : value) :
  Throwing.getOrCall host faults this levelName = getOrCall host this levelName.
Proof.
  destruct calls_return as (_ & H & _).
  unfold Throwing.getOrCall. rewrite H. now destruct (opts_prefix (opts this)).
Qed.

Lemma returning_print (this : Logger) (args : list value) :
  Throwing.print host faults this args = print host this args /\
  Throwing.eprint host faults this args = eprint host this args.
Proof.
  unfold Throwing.print, Throwing.eprint, Throwing.write, Throwing.ewrite,
    print, eprint, write, ewrite.
  rewrite returning_format.
  split; apply bind_ext; intros text; apply returning_stream_write.
Qed.

Lemma returning_log_admitted (this : Logger) (level : value)
      (args : list value) :
  Throwing.log_admitted host faults this level args
  = log_admitted host this level args.
Proof.
  unfold Throwing.log_admitted, log_admitted.
  apply bind_ext. intros below2. apply bind_ext. intros key.
  rewrite returning_run_prelog. apply bind_ext. intros args'.
  rewrite returning_getOrCall. apply bind_ext. intros provided.
  rewrite returning_format. apply bind_ext. intros prefix.
  rewrite returning_format. apply bind_ext. intros body.
  unfold Throwing.ewrite, Throwing.write, ewrite, write.
  destruct below2; rewrite !returning_stream_write; reflexivity.
Qed.

Lemma returning_level_method (this : Logger) (name : string)
      (args : list value) :
  Throwing.level_method host D faults this name args
  = level_method host D this name args.
Proof.
  unfold Throwing.level_method, level_method.
  destruct (lookup name LevelNums) as [level | ]; [ | reflexivity].
  unfold Throwing.log, log.
  apply bind_ext. intros l. apply bind_ext. intros t.
  apply bind_ext. intros above.
  destruct above; [reflexivity | apply returning_log_admitted].
Qed.

End ThrowingFailures.

(** A call that throws is not caught: an admitted call whose [prelog]
    function throws ends there, with what was thrown and without a
    write. *)
Lemma throwing_prelog_propagates (host : Host) (D : value)
      (faults : Throwing.Faults) (this : Logger) (name : string) (k T : Z)
      (args : list value) (f : value -> list value -> value * list value)
      (v : value) :
  In (name, VNum (Int k)) LevelNums ->
  opts_logLevel (opts this) = VNum (Int T) -> k <= T <= 4 ->
  opts_prelog (opts this) = PrelogFunction f ->
  Throwing.prelog_throws faults (VStr name) args = Some v ->
  Throwing.level_method host D faults this name args
  = ([CallPrelog (VStr name) args], Raise (Thrown v)).
Proof.
  intros Hl HT HkT Hpl Hthrows.
  pose proof (level_ordinal_range name k Hl) as Hk.
  destruct (levelName_ordinal name k Hl) as (key & Hkey & Hget).
  unfold Throwing.level_method. rewrite (lookup_level name _ Hl).
  unfold Throwing.log.
  rewrite getLevelNumber_ordinal by assumption. rewrite bind_lift_Return.
  rewrite (logLevel_ordinal D this T HT) by lia. rewrite bind_lift_Return.
  rewrite gt_ordinals, bind_lift_Return.
  replace (Z.max T (-1) <? k) with false by (symmetry; apply Z.ltb_ge; lia).
  unfold Throwing.log_admitted.
  rewrite lt_ordinals, bind_lift_Return, Hkey, bind_lift_Return, Hget.
  unfold Throwing.run_prelog. rewrite Hpl, Hthrows. reflexivity.
Qed.

(** Likewise [print] and [eprint], when the [format] function throws. *)
Lemma throwing_format_propagates (host : Host) (faults : Throwing.Faults)
      (this : Logger) (args : list value) (f : list value -> string)
      (v : value) :
  opts_format (opts this) = FormatFunction f ->
  Throwing.format_throws faults args = Some v ->
  Throwing.print host faults this args = ([CallFormat args], Raise (Thrown v)) /\
  Throwing.eprint host faults this args = ([CallFormat args], Raise (Thrown v)).
Proof.
  intros Hf Hthrows.
  unfold Throwing.print, Throwing.eprint, Throwing.format.
  rewrite Hf, Hthrows. split; reflexivity.
Qed.




(** * Further properties of the code *)

(** ** The order of effects in a level call *)

Section Pipeline.

Variable host : Host.
Variable D : value.

Lemma length_le_0 {A : Type} (l : list A) : (List.length l <= 0)%nat -> l = [].
Proof. destruct l; simpl; [reflexivity | lia]. Qed.

Lemma staged_nil (n0 n1 n2 n3 : nat) : staged n0 n1 n2 n3 [].
Proof.
  exists [], [], [], []. repeat split; simpl; first [lia | constructor].
Qed.

Lemma staged_write (n : nat) (e : event) (t : list event) :
  is_write e = true -> staged 0 0 0 n t -> staged 0 0 0 (S n) (e :: t).
Proof.
  intros He (t0 & t1 & t2 & t3 & -> & _ & H0 & _ & H1 & _ & H2 & F3 & H3).
  apply length_le_0 in H0, H1, H2. subst.
  exists [], [], [], (e :: t3). simpl.
  repeat split; simpl; first [lia | repeat constructor; auto].
Qed.

Lemma staged_format (n m : nat) (e : event) (t : list event) :
  is_format_call e = true -> staged 0 0 n m t -> staged 0 0 (S n) m (e :: t).
Proof.
  intros He (t0 & t1 & t2 & t3 & -> & _ & H0 & _ & H1 & F2 & H2 & F3 & H3).
  apply length_le_0 in H0, H1. subst.
  exists [], [], (e :: t2), t3. simpl.
  repeat split; simpl; first [lia | repeat constructor; auto].
Qed.

Lemma staged_prefix (n m : nat) (e : event) (t : list event) :
  is_prefix_call e = true -> staged 0 0 n m t -> staged 0 1 n m (e :: t).
Proof.
  intros He (t0 & t1 & t2 & t3 & -> & _ & H0 & _ & H1 & F2 & H2 & F3 & H3).
  apply length_le_0 in H0, H1. subst.
  exists [], [e], t2, t3. simpl.
  repeat split; simpl; first [lia | repeat constructor; auto].
Qed.

Lemma staged_prelog (n1 n2 n3 : nat) (e : event) (t : list event) :
  is_prelog_call e = true -> staged 0 n1 n2 n3 t -> staged 1 n1 n2 n3 (e :: t).
Proof.
  intros He (t0 & t1 & t2 & t3 & -> & _ & H0 & F1 & H1 & F2 & H2 & F3 & H3).
  apply length_le_0 in H0. subst.
  exists [e], t1, t2, t3. simpl.
  repeat split; simpl; first [lia | repeat constructor; auto].
Qed.

Lemma staged_weaken (n0 n1 n2 n3 m0 m1 m2 m3 : nat) (t : list event) :
  (n0 <= m0)%nat -> (n1 <= m1)%nat -> (n2 <= m2)%nat -> (n3 <= m3)%nat ->
  staged n0 n1 n2 n3 t -> staged m0 m1 m2 m3 t.
Proof.
  intros L0 L1 L2 L3 (t0 & t1 & t2 & t3 & -> & F0 & H0 & F1 & H1 & F2 & H2 & F3 & H3).
  exists t0, t1, t2, t3. repeat split; auto; lia.
Qed.

(** A step that leaves no event, or one event of its stage, in front of
    what follows it. *)
Lemma staged_bind {A B : Type} (m : M A) (f : A -> M B)
      (P Q : list event -> Prop) :
  (trace m = [] \/ exists e, trace m = [e] /\ forall t, P t -> Q (e :: t)) ->
  (forall t, P t -> Q t) ->
  P [] ->
  (forall a, P (trace (f a))) ->
  Q (trace (bind m f)).
Proof.
  intros Hm Hweak Hnil Hf. rewrite trace_bind.
  assert (Hrest : P (match completion m with
                     | Return a => trace (f a)
                     | Raise _ => []
                     end)).
  { destruct (completion m); [apply Hf | exact Hnil]. }
  destruct Hm as [-> | (e & -> & He)]; simpl; auto.
Qed.

Lemma stream_write_trace (property : string) (stream : value) (data : string) :
  trace (stream_write property stream data) = [] \/
  trace (stream_write property stream data) = [Write stream data].
Proof. destruct stream; simpl; auto. Qed.

Lemma format_trace (this : Logger) (l : list value) :
  format host this l = ([CallFormat l], Return (format_text host this l)).
Proof. unfold format, format_text. destruct (opts_format (opts this)); reflexivity. Qed.

Lemma run_prelog_trace (this : Logger) (levelName : value) (args : list value) :
  trace (run_prelog host this levelName args) = [] \/
  trace (run_prelog host this levelName args) = [CallPrelog levelName args].
Proof.
  unfold run_prelog. destruct (opts_prelog (opts this)) as [ | f | v].
  - right. rewrite trace_bind. simpl.
    destruct (Defaults_prelog host this levelName args); reflexivity.
  - right. rewrite trace_bind. simpl.
    destruct (f levelName args) as [result args']. destruct result; reflexivity.
  - now left.
Qed.

Lemma getOrCall_trace (this : Logger) (levelName : value) :
  trace (getOrCall host this levelName) = [] \/
  trace (getOrCall host this levelName) = [CallPrefix levelName].
Proof.
  unfold getOrCall. destruct (opts_prefix (opts this)) as [ | f | v].
  - right. rewrite trace_bind. simpl. reflexivity.
  - now right.
  - now left.
Qed.

Lemma log_admitted_staged (this : Logger) (level : value) (args : list value) :
  staged 1 1 2 2 (trace (log_admitted host this level args)).
Proof.
  unfold log_admitted.
  apply (staged_bind _ _ (staged 1 1 2 2) (staged 1 1 2 2));
    [now left | auto | apply staged_nil | intros below2].
  apply (staged_bind _ _ (staged 1 1 2 2) (staged 1 1 2 2));
    [now left | auto | apply staged_nil | intros key].
  apply (staged_bind _ _ (staged 0 1 2 2) (staged 1 1 2 2)).
  { destruct (run_prelog_trace this (get key LevelNames_properties) args) as [H | H];
      [now left | right].
    eexists. split; [exact H | intros t Ht]. now apply staged_prelog. }
  { intros t. apply staged_weaken; lia. }
  { apply staged_nil. }
  intros args'.
  apply (staged_bind _ _ (staged 0 0 2 2) (staged 0 1 2 2)).
  { destruct (getOrCall_trace this (get key LevelNames_properties)) as [H | H];
      [now left | right].
    eexists. split; [exact H | intros t Ht]. now apply staged_prefix. }
  { intros t. apply staged_weaken; lia. }
  { apply staged_nil. }
  intros provided.
  apply (staged_bind _ _ (staged 0 0 1 2) (staged 0 0 2 2)).
  { destruct (is_empty (Cast_toArray host provided)); [now left | right].
    rewrite format_trace. eexists. split; [reflexivity | intros t Ht].
    now apply staged_format. }
  { intros t. apply staged_weaken; lia. }
  { apply staged_nil. }
  intros prefix.
  apply (staged_bind _ _ (staged 0 0 0 2) (staged 0 0 1 2)).
  { destruct (is_empty args'); [now left | right].
    rewrite format_trace. eexists. split; [reflexivity | intros t Ht].
    now apply staged_format. }
  { intros t. apply staged_weaken; lia. }
  { apply staged_nil. }
  intros body.
  apply (staged_bind _ _ (staged 0 0 0 1) (staged 0 0 0 2)).
  { destruct (String.eqb prefix ""); [now left | ].
    destruct below2;
      [destruct (stream_write_trace "stderr" (stderr this)
                   (prefix ++ (if String.eqb body "" then "" else " "))) as [H | H]
      | destruct (stream_write_trace "stdout" (stdout this)
                   (prefix ++ (if String.eqb body "" then "" else " "))) as [H | H]];
      first [now left | right; eexists; split;
                        [exact H | intros t Ht; now apply staged_write]]. }
  { intros t. apply staged_weaken; lia. }
  { apply staged_nil. }
  intros _.
  destruct below2;
    [destruct (stream_write_trace "stderr" (stderr this) (body ++ LF)) as [H | H]
    | destruct (stream_write_trace "stdout" (stdout this) (body ++ LF)) as [H | H]];
    unfold ewrite, write; rewrite H;
    first [apply staged_nil | apply staged_write; [reflexivity | apply staged_nil]].
Qed.

(** The effects of a level call come in pipeline order, whatever the
    configuration and wherever the call stops: at most one call of
    [prelog], then at most one call of the prefix provider, then at most
    two calls of the format callable, then at most two stream writes. *)
Theorem log_effects_in_pipeline_order (this : Logger) (level : value)
        (args : list value) :
  staged 1 1 2 2 (trace (log host D this level args)).
Proof.
  unfold log.
  apply (staged_bind _ _ (staged 1 1 2 2) (staged 1 1 2 2));
    [now left | auto | apply staged_nil | intros resolved].
  apply (staged_bind _ _ (staged 1 1 2 2) (staged 1 1 2 2));
    [now left | auto | apply staged_nil | intros threshold].
  apply (staged_bind _ _ (staged 1 1 2 2) (staged 1 1 2 2));
    [now left | auto | apply staged_nil | intros above].
  destruct above; [apply staged_nil | apply log_admitted_staged].
Qed.

End Pipeline.

(** ** The record of an admitted call *)

Section Record.

Variable host : Host.
Variable D : value.

Lemma Forall_False_nil {A : Type} (l : list A) :
  Forall (fun _ => False) l -> l = [].
Proof. destruct l; [reflexivity | intros H; inversion H; contradiction]. Qed.

Lemma run_prelog_no_writes (this : Logger) (levelName : value)
      (args : list value) :
  writes (trace (run_prelog host this levelName args)) = [].
Proof. apply Forall_False_nil. apply run_prelog_quiet. Qed.

Lemma getOrCall_no_writes (this : Logger) (levelName : value) :
  writes (trace (getOrCall host this levelName)) = [].
Proof. apply Forall_False_nil. apply getOrCall_quiet. Qed.

Lemma format_calls_no_writes (l : list value) : writes (format_calls l) = [].
Proof. unfold format_calls. destruct (is_empty l); reflexivity. Qed.

Lemma line_writes_writes (stream : value) (prefix body : string) :
  writes (line_writes stream prefix body) = line_writes stream prefix body.
Proof. unfold line_writes. destruct (String.eqb prefix ""); reflexivity. Qed.

(** The whole trace of an admitted call whose [prelog] and prefix steps
    return, on a writable destination. *)
Lemma log_admitted_trace (this : Logger) (name : string) (k : Z)
      (args : list value) (t1 : list event) (args' : list value)
      (t2 : list event) (provided : value) :
  In (name, VNum (Int k)) LevelNums ->
  Is_WriteableStream (destination this k) = true ->
  run_prelog host this (VStr name) args = (t1, Return args') ->
  getOrCall host this (VStr name) = (t2, Return provided) ->
  log_admitted host this (VNum (Int k)) args
  = ((t1 ++ t2 ++ format_calls (Cast_toArray host provided)
      ++ format_calls args'
      ++ line_writes (destination this k)
           (text_of host this (Cast_toArray host provided))
           (text_of host this args'))%list,
     Return tt).
Proof.
  intros Hl Hd Hp Hg. rewrite (log_admitted_ordinal host this name k args Hl).
  rewrite Hp. cbn [bind]. rewrite Hg. cbn [bind].
  unfold format_calls, text_of, line_writes.
  destruct (is_empty (Cast_toArray host provided));
    destruct (is_empty args'); rewrite ?format_trace; unfold ret; cbn [bind];
    match goal with
    | |- context [String.eqb ?p ""] => destruct (String.eqb p "")
    end;
    rewrite ?stream_write_run by assumption; unfold ret; cbn [bind];
    rewrite ?stream_write_run by assumption; simpl;
    rewrite ?app_nil_r; reflexivity.
Qed.

(** The threshold step for a level method: above the threshold nothing,
    otherwise the admitted call. *)
Lemma level_method_admitted (this : Logger) (name : string) (k T : Z)
      (args : list value) :
  In (name, VNum (Int k)) LevelNums ->
  opts_logLevel (opts this) = VNum (Int T) -> k <= T <= 4 ->
  level_method host D this name args
  = log_admitted host this (VNum (Int k)) args.
Proof.
  intros Hl HT HkT. pose proof (level_ordinal_range name k Hl) as Hk.
  rewrite (level_method_log host D this name _ args Hl).
  rewrite (log_gate host D this k T args Hk HT) by lia.
  replace (T <? k) with false by (symmetry; apply Z.ltb_ge; lia).
  reflexivity.
Qed.

(** An admitted call on an operational logger writes the prefix text,
    followed by one space exactly when the body text is not empty, and
    then the body text and a newline; an empty prefix text is left out
    altogether.  The texts are what the format callable answers for the
    prefix list and for the processed arguments, or the empty string when
    the list is empty. *)
Theorem admitted_call_writes_one_record (this : Logger) (name : string)
        (k T : Z) (args : list value) :
  In (name, VNum (Int k)) LevelNums ->
  opts_logLevel (opts this) = VNum (Int T) ->
  k <= T <= 4 ->
  operational this = true ->
  exists args' provided,
    completion (run_prelog host this (VStr name) args) = Return args' /\
    completion (getOrCall host this (VStr name)) = Return provided /\
    writes (trace (level_method host D this name args))
    = line_writes (destination this k)
        (text_of host this (Cast_toArray host provided))
        (text_of host this args') /\
    completion (level_method host D this name args) = Return tt.
Proof.
  intros Hl HT HkT Hop. pose proof (level_name_listed _ _ Hl) as Hn.
  destruct (run_prelog_complete host this name args Hop Hn) as (t1 & args' & Hp).
  destruct (getOrCall_complete host this name Hop Hn) as (t2 & provided & Hg).
  exists args', provided.
  rewrite (level_method_admitted this name k T args Hl HT HkT).
  rewrite (log_admitted_trace this name k args t1 args' t2 provided Hl
             (operational_destination this k Hop) Hp Hg).
  rewrite Hp, Hg. repeat split. simpl. unfold writes.
  rewrite !filter_app.
  fold (writes t1). fold (writes t2).
  fold (writes (format_calls (Cast_toArray host provided))).
  fold (writes (format_calls args')).
  fold (writes (line_writes (destination this k)
                  (text_of host this (Cast_toArray host provided))
                  (text_of host this args'))).
  replace (writes t1) with (@nil event)
    by (symmetry; rewrite <- (run_prelog_no_writes this (VStr name) args);
        now rewrite Hp).
  replace (writes t2) with (@nil event)
    by (symmetry; rewrite <- (getOrCall_no_writes this (VStr name));
        now rewrite Hg).
  now rewrite !format_calls_no_writes, line_writes_writes.
Qed.

End Record.

Lemma admitted_call_writes_one_record_witness :
  exists args' provided,
    completion (run_prelog plain_host plain_logger (VStr "info") [VStr "ready"])
    = Return args' /\
    completion (getOrCall plain_host plain_logger (VStr "info")) = Return provided /\
    writes (trace (level_method plain_host info_level plain_logger "info"
                                [VStr "ready"]))
    = line_writes (destination plain_logger 2)
        (text_of plain_host plain_logger (Cast_toArray plain_host provided))
        (text_of plain_host plain_logger args') /\
    completion (level_method plain_host info_level plain_logger "info"
                             [VStr "ready"]) = Return tt.
Proof.
  apply (admitted_call_writes_one_record plain_host info_level plain_logger "info" 2 2 [VStr "ready"]).
  - simpl. tauto.
  - reflexivity.
  - lia.
  - reflexivity.
Defined.

Section Protocol.

Variable host : Host.
Variable D : value.

Lemma string_app_empty (s : string) : s ++ "" = s.
Proof. induction s as [ | c s IH]; simpl; [reflexivity | now rewrite IH]. Qed.

Lemma trace_bind_Forall {A B : Type} (P : event -> Prop) (m : M A)
      (f : A -> M B) :
  Forall P (trace m) -> (forall a, Forall P (trace (f a))) ->
  Forall P (trace (bind m f)).
Proof.
  intros Hm Hf. rewrite trace_bind. apply Forall_app. split; [exact Hm | ].
  destruct (completion m); [apply Hf | constructor].
Qed.

Lemma getOrCall_not_prelog (this : Logger) (levelName : value) :
  Forall (fun e => is_prelog_call e = false) (trace (getOrCall host this levelName)).
Proof.
  destruct (getOrCall_trace host this levelName) as [-> | ->];
    repeat constructor.
Qed.

Lemma stream_write_not_prelog (property : string) (stream : value) (data : string) :
  Forall (fun e => is_prelog_call e = false) (trace (stream_write property stream data)).
Proof.
  destruct (stream_write_trace property stream data) as [-> | ->]; repeat constructor.
Qed.

(** A call without arguments, [prelog] being the default one or not a
    function: the body text is empty, so the prefix text is written
    without a space after it, then a bare newline; the format callable is
    never called on an empty list. *)
Theorem call_without_arguments (this : Logger) (name : string) (k T : Z) :
  In (name, VNum (Int k)) LevelNums ->
  opts_logLevel (opts this) = VNum (Int T) ->
  k <= T <= 4 ->
  operational this = true ->
  (forall f, opts_prelog (opts this) <> PrelogFunction f) ->
  exists provided,
    completion (getOrCall host this (VStr name)) = Return provided /\
    writes (trace (level_method host D this name []))
    = ((if String.eqb (text_of host this (Cast_toArray host provided)) "" then []
        else [Write (destination this k)
                    (text_of host this (Cast_toArray host provided))])
       ++ [Write (destination this k) LF])%list /\
    ~ In (CallFormat []) (trace (level_method host D this name [])).
Proof.
  intros Hl HT HkT Hop Hpl. pose proof (level_name_listed _ _ Hl) as Hn.
  destruct (getOrCall_complete host this name Hop Hn) as (t2 & provided & Hg).
  assert (Hp : exists t1, run_prelog host this (VStr name) [] = (t1, Return [])
                          /\ Forall (fun e => is_prelog_call e = true) t1).
  { unfold run_prelog. destruct (opts_prelog (opts this)) as [ | f | v].
    - eexists. split; [reflexivity | repeat constructor].
    - now elim (Hpl f).
    - eexists. split; [reflexivity | constructor]. }
  destruct Hp as (t1 & Hp & Ht1).
  exists provided. rewrite Hg. split; [reflexivity | ].
  rewrite (level_method_admitted host D this name k T [] Hl HT HkT).
  rewrite (log_admitted_trace host this name k [] t1 [] t2 provided Hl
             (operational_destination this k Hop) Hp Hg).
  assert (Ht2 : Forall (fun e => is_prefix_call e = true) t2).
  { destruct (getOrCall_trace host this (VStr name)) as [H | H];
      rewrite Hg in H; simpl in H; subst t2; repeat constructor. }
  simpl trace. split.
  - unfold writes. rewrite !filter_app.
    replace (filter is_write t1) with (@nil event).
    2:{ symmetry. apply Forall_False_nil. apply Forall_forall.
        intros e He. apply filter_In in He. destruct He as [He Hw].
        rewrite Forall_forall in Ht1. specialize (Ht1 e He).
        destruct e; discriminate. }
    replace (filter is_write t2) with (@nil event).
    2:{ symmetry. apply Forall_False_nil. apply Forall_forall.
        intros e He. apply filter_In in He. destruct He as [He Hw].
        rewrite Forall_forall in Ht2. specialize (Ht2 e He).
        destruct e; discriminate. }
    fold (writes (format_calls (Cast_toArray host provided))).
    rewrite format_calls_no_writes. simpl.
    unfold line_writes. simpl. rewrite string_app_empty.
    destruct (String.eqb (text_of host this (Cast_toArray host provided)) "");
      reflexivity.
  - intros Hin. apply in_app_or in Hin. destruct Hin as [Hin | Hin].
    { rewrite Forall_forall in Ht1. specialize (Ht1 _ Hin). discriminate. }
    apply in_app_or in Hin. destruct Hin as [Hin | Hin].
    { rewrite Forall_forall in Ht2. specialize (Ht2 _ Hin). discriminate. }
    apply in_app_or in Hin. destruct Hin as [Hin | Hin].
    { unfold format_calls in Hin.
      destruct (Cast_toArray host provided) as [ | a r] eqn:E; simpl in Hin;
        [contradiction | ].
      destruct Hin as [Hin | []]. discriminate. }
    simpl in Hin. unfold line_writes in Hin.
    apply in_app_or in Hin. destruct Hin as [Hin | Hin].
    + destruct (String.eqb _ "") in Hin; simpl in Hin;
        [contradiction | destruct Hin as [Hin | []]; discriminate].
    + simpl in Hin. destruct Hin as [Hin | []]. discriminate.
Qed.

(** With [prelog] not a function and the empty array as prefix, an
    admitted level call on arguments is [eprint] for the ordinals 0 and 1
    and [print] for the others; without arguments it writes a bare
    newline where [print] would format the empty list. *)
Theorem level_call_without_prelog_and_prefix_is_print (this : Logger)
        (name : string) (k T : Z) (v : value) (args : list value) :
  In (name, VNum (Int k)) LevelNums ->
  opts_logLevel (opts this) = VNum (Int T) ->
  k <= T <= 4 ->
  opts_prelog (opts this) = PrelogValue v ->
  opts_prefix (opts this) = PrefixValue (VArray []) ->
  (args <> [] ->
   level_method host D this name args
   = if k <? 2 then eprint host this args else print host this args) /\
  level_method host D this name []
  = if k <? 2 then ewrite this LF else write this LF.
Proof.
  intros Hl HT HkT Hpl Hpf.
  rewrite !(level_method_admitted host D this name k T _ Hl HT HkT).
  rewrite !(log_admitted_ordinal host this name k _ Hl).
  unfold run_prelog, getOrCall. rewrite Hpl, Hpf. split.
  - intros Hne. destruct args as [ | a r]; [now elim Hne | ].
    rewrite !bind_ret. cbn [Cast_toArray is_empty]. rewrite bind_ret.
    rewrite format_trace.
    unfold destination, destination_property, eprint, print, ewrite, write,
      stderr, stdout.
    rewrite format_trace.
    destruct (k <? 2); cbn [bind String.eqb]; rewrite bind_ret; reflexivity.
  - rewrite !bind_ret. cbn [Cast_toArray is_empty]. rewrite !bind_ret.
    cbn [String.eqb]. rewrite bind_ret.
    unfold destination, destination_property, ewrite, write, stderr, stdout.
    destruct (k <? 2); reflexivity.
Qed.

(** A custom [prelog] is the first thing an admitted call invokes, with
    the name of the level and the raw arguments.  When it returns
    [undefined], the argument array as it left it goes on to the format
    callable; any other return value replaces the arguments, coerced to a
    list. *)
Theorem custom_prelog_protocol (this : Logger) (name : string) (k T : Z)
        (args : list value)
        (f : value -> list value -> value * list value) :
  In (name, VNum (Int k)) LevelNums ->
  opts_logLevel (opts this) = VNum (Int T) ->
  k <= T <= 4 ->
  opts_prelog (opts this) = PrelogFunction f ->
  let processed :=
    match fst (f (VStr name) args) with
    | VUndefined => snd (f (VStr name) args)
    | result => Cast_toArray host result
    end in
  (exists rest,
     trace (level_method host D this name args)
     = CallPrelog (VStr name) args :: rest) /\
  (operational this = true -> processed <> [] ->
   In (CallFormat processed) (trace (level_method host D this name args))).
Proof.
  intros Hl HT HkT Hpl processed.
  rewrite (level_method_admitted host D this name k T args Hl HT HkT).
  assert (Hrun : run_prelog host this (VStr name) args
                 = ([CallPrelog (VStr name) args], Return processed)).
  { unfold run_prelog, processed. rewrite Hpl.
    destruct (f (VStr name) args) as [result args']. simpl.
    destruct result; reflexivity. }
  split.
  - rewrite (log_admitted_ordinal host this name k args Hl).
    rewrite trace_bind, Hrun. simpl. eauto.
  - intros Hop Hne.
    destruct (log_admitted_complete host this name k args Hl Hop)
      as (t & args' & body & Hc & -> & Hin).
    rewrite Hrun in Hc. simpl in Hc. inversion Hc; subst args'.
    simpl. apply in_or_app. left. now apply Hin.
Qed.

(** A [prelog] option that is not a function is skipped: the call never
    invokes a pre-processing callable, and the raw arguments go on to the
    format callable. *)
Theorem prelog_skipped_when_not_a_function (this : Logger) (name : string)
        (k T : Z) (v : value) (args : list value) :
  In (name, VNum (Int k)) LevelNums ->
  opts_logLevel (opts this) = VNum (Int T) ->
  k <= T <= 4 ->
  opts_prelog (opts this) = PrelogValue v ->
  Forall (fun e => is_prelog_call e = false)
         (trace (level_method host D this name args)) /\
  (operational this = true -> args <> [] ->
   In (CallFormat args) (trace (level_method host D this name args))).
Proof.
  intros Hl HT HkT Hpl.
  rewrite (level_method_admitted host D this name k T args Hl HT HkT).
  assert (Hrun : run_prelog host this (VStr name) args = ([], Return args)).
  { unfold run_prelog. now rewrite Hpl. }
  split.
  - rewrite (log_admitted_ordinal host this name k args Hl).
    apply trace_bind_Forall; [rewrite Hrun; constructor | intros args'].
    apply trace_bind_Forall; [apply getOrCall_not_prelog | intros provided].
    apply trace_bind_Forall;
      [destruct (is_empty _); [constructor | rewrite format_trace; repeat constructor]
      | intros prefix].
    apply trace_bind_Forall;
      [destruct (is_empty _); [constructor | rewrite format_trace; repeat constructor]
      | intros body].
    apply trace_bind_Forall;
      [destruct (String.eqb prefix ""); [constructor | apply stream_write_not_prelog]
      | intros _; apply stream_write_not_prelog].
  - intros Hop Hne.
    destruct (log_admitted_complete host this name k args Hl Hop)
      as (t & args' & body & Hc & -> & Hin).
    rewrite Hrun in Hc. simpl in Hc. inversion Hc; subst args'.
    simpl. apply in_or_app. left. now apply Hin.
Qed.

End Protocol.

Lemma call_without_arguments_witness :
  exists provided,
    completion (getOrCall plain_host plain_logger (VStr "info")) = Return provided /\
    writes (trace (level_method plain_host info_level plain_logger "info" []))
    = ((if String.eqb (text_of plain_host plain_logger
                               (Cast_toArray plain_host provided)) "" then []
        else [Write (destination plain_logger 2)
                    (text_of plain_host plain_logger
                             (Cast_toArray plain_host provided))])
       ++ [Write (destination plain_logger 2) LF])%list /\
    ~ In (CallFormat [])
         (trace (level_method plain_host info_level plain_logger "info" [])).
Proof.
  apply (call_without_arguments plain_host info_level plain_logger "info" 2 2).
  - simpl. tauto.
  - reflexivity.
  - lia.
  - reflexivity.
  - intros f. discriminate.
Defined.

Lemma level_call_without_prelog_and_prefix_is_print_witness :
  level_method plain_host info_level bare_logger "warn" [VStr "careful"]
  = eprint plain_host bare_logger [VStr "careful"] /\
  level_method plain_host info_level bare_logger "warn" []
  = ewrite bare_logger LF.
Proof.
  destruct (level_call_without_prelog_and_prefix_is_print plain_host info_level
              bare_logger "warn" 1 2 VNull [VStr "careful"]) as [H1 H2].
  - simpl. tauto.
  - reflexivity.
  - lia.
  - reflexivity.
  - reflexivity.
  - split; [ | exact H2]. apply H1. discriminate.
Defined.

Lemma custom_prelog_protocol_witness :
  (exists rest,
     trace (level_method plain_host info_level reversing_logger "info"
                         [VNum (Int 1); VNum (Int 2)])
     = CallPrelog (VStr "info") [VNum (Int 1); VNum (Int 2)] :: rest) /\
  In (CallFormat [VNum (Int 2); VNum (Int 1)])
     (trace (level_method plain_host info_level reversing_logger "info"
                          [VNum (Int 1); VNum (Int 2)])).
Proof.
  destruct (custom_prelog_protocol plain_host info_level reversing_logger "info"
              2 2 [VNum (Int 1); VNum (Int 2)]
              (fun _ args => (VUndefined, rev args))) as [H1 H2].
  - simpl. tauto.
  - reflexivity.
  - lia.
  - reflexivity.
  - split; [exact H1 | ]. apply H2; [reflexivity | discriminate].
Defined.

Lemma prelog_skipped_when_not_a_function_witness :
  Forall (fun e => is_prelog_call e = false)
         (trace (level_method plain_host info_level bare_logger "info"
                              [VStr "ready"])) /\
  In (CallFormat [VStr "ready"])
     (trace (level_method plain_host info_level bare_logger "info" [VStr "ready"])).
Proof.
  destruct (prelog_skipped_when_not_a_function plain_host info_level bare_logger
              "info" 2 2 VNull [VStr "ready"]) as [H1 H2].
  - simpl. tauto.
  - reflexivity.
  - lia.
  - reflexivity.
  - split; [exact H1 | ]. apply H2; [reflexivity | discriminate].
Defined.

(** ** More on the default callables *)

Section DefaultCallables.

Variable host : Host.

Lemma prelog_map_inert (this : Logger) (chlk : chalk_entry) (args : list value) :
  forall (rest : list value) (h : bool),
    forallb inert rest = true ->
    prelog_map host this chlk args h rest = Return rest.
Proof.
  induction rest as [ | a rest IH]; intros h H; [reflexivity | ].
  simpl in H. apply andb_prop in H. destruct H as [Ha Hr].
  simpl.
  assert (Harg : prelog_arg host this chlk args h a = Return (h, a)).
  { destruct a as [ | | b | n | s | d | src | fd | items | entries | err props];
      try discriminate; try reflexivity.
    destruct entries as [ | [key v] [ | ? ?]]; try discriminate; reflexivity. }
  rewrite Harg. simpl. now rewrite (IH h Hr).
Qed.

Lemma inert_not_nullish (l : list value) :
  forallb inert l = true -> filter not_nullish l = l.
Proof.
  induction l as [ | a l IH]; simpl; [reflexivity | ].
  intros H. apply andb_prop in H. destruct H as [Ha Hl].
  rewrite (IH Hl). destruct a; try discriminate; reflexivity.
Qed.

(** Arguments the default [prelog] has no rule for (numbers, booleans,
    arrays, functions, objects with no or with several entries) come
    back as they are, in order, and no style is looked up: the call
    returns even on a style tree without the slots. *)
Theorem prelog_passes_other_arguments_through (this : Logger) (name : string)
        (args : list value) :
  forallb inert args = true ->
  Defaults_prelog host this (VStr name) args = Return args.
Proof.
  intros H. unfold Defaults_prelog. simpl.
  rewrite (prelog_map_inert this _ args args false H). simpl.
  now rewrite (inert_not_nullish args H).
Qed.

Lemma prelog_arg_nullish (this : Logger) (chlk : chalk_entry)
      (args : list value) (h : bool) (arg : value) (r : bool * value) :
  prelog_arg host this chlk args h arg = Return r ->
  (not_nullish (snd r) = true -> not_nullish arg = true) /\
  (h = false -> not_nullish (snd r) = not_nullish arg).
Proof.
  destruct arg as [ | | b | n | s | d | src | fd | items | entries | err props];
    simpl; intros H; try (inversion H; subst; simpl; now split).
  - destruct (slot_method chlk "string"); simpl in H; inversion H. now split.
  - destruct entries as [ | [key v] [ | ? ?]];
      try (inversion H; subst; simpl; now split).
    destruct (String.eqb key "throwing" && h) eqn:E.
    + inversion H; subst; simpl. split; [discriminate | ].
      intros ->. rewrite andb_false_r in E. discriminate.
    + destruct (slot_in chlk key) as [[f | ] | ]; simpl in H; try discriminate.
      * destruct v; try (inversion H; subst; simpl; now split).
        destruct (slot_method chlk "string"); simpl in H; inversion H.
        now split.
      * inversion H; subst; simpl. now split.
  - destruct (formatError host this err (existsb is_throwing args));
      simpl in H; inversion H. now split.
Qed.

Lemma prelog_map_lengths (this : Logger) (chlk : chalk_entry) (args : list value) :
  forall (rest : list value) (h : bool) (mapped : list value),
    prelog_map host this chlk args h rest = Return mapped ->
    (List.length (filter not_nullish mapped)
     <= List.length (filter not_nullish rest))%nat /\
    (h = false -> existsb Is_Error rest = false ->
     List.length (filter not_nullish mapped)
     = List.length (filter not_nullish rest)).
Proof.
  induction rest as [ | a rest IH]; intros h mapped H; simpl in H.
  - inversion H; subst. simpl. split; [lia | reflexivity].
  - destruct (prelog_arg host this chlk args h a) as [r | ] eqn:Ha;
      simpl in H; try discriminate.
    destruct (prelog_map host this chlk args (fst r) rest) as [m | ] eqn:Hm;
      simpl in H; try discriminate.
    inversion H; subst mapped.
    destruct (prelog_arg_nullish _ _ _ _ _ _ Ha) as [Himp Heq].
    destruct (IH _ _ Hm) as [Hle Hsame].
    pose proof (prelog_arg_flag host _ _ _ _ _ _ Ha) as Hflag.
    split.
    + simpl. destruct (not_nullish (snd r)) eqn:E.
      * rewrite (Himp eq_refl). simpl. lia.
      * destruct (not_nullish a); simpl; lia.
    + intros Hh Herr. simpl in Herr. apply orb_false_elim in Herr.
      destruct Herr as [Ea Er].
      simpl. rewrite (Heq Hh).
      rewrite Hh, Ea in Hflag. simpl in Hflag.
      destruct (not_nullish a); simpl; rewrite (Hsame Hflag Er); reflexivity.
Qed.

(** The default [prelog] never lengthens the argument list: what it
    returns has at most as many elements as there are arguments other
    than [null] and [undefined]; and when no argument is an error it has
    exactly as many, so nothing but [null] and [undefined] is dropped,
    [{throwing: ...}] fragments included. *)
Theorem prelog_drops_only_nullish_without_error (this : Logger)
        (level : value) (args out : list value) :
  Defaults_prelog host this level args = Return out ->
  (List.length out <= List.length (filter not_nullish args))%nat /\
  (existsb Is_Error args = false ->
   List.length out = List.length (filter not_nullish args)).
Proof.
  unfold Defaults_prelog. intros H.
  destruct (ToPropertyKey level) as [key | ]; simpl in H; try discriminate.
  destruct (prelog_map host this (chalks_at host this key) args false args)
    as [mapped | ] eqn:Hm; simpl in H; try discriminate.
  inversion H; subst out.
  destruct (prelog_map_lengths this _ args args false mapped Hm) as [Hle Hsame].
  split; [exact Hle | intros Herr; now apply Hsame].
Qed.

Lemma prelog_map_strings (this : Logger) (slots : string -> option style)
      (f : style) (args : list value) :
  slots "string" = Some f ->
  forall (ss : list string) (h : bool),
    prelog_map host this (CompiledSlots slots) args h (map VStr ss)
    = Return (map (fun s => VStr (f s)) ss).
Proof.
  intros Hf. induction ss as [ | s ss IH]; intros h; simpl; [reflexivity | ].
  rewrite Hf. simpl. now rewrite IH.
Qed.

(** String arguments are each passed through the [string] style of the
    level, in order, and none is dropped, the empty string included; only
    that one style is needed. *)
Theorem prelog_styles_every_string (this : Logger) (name : string)
        (f : style) (ss : list string) :
  slot_method (chalks host this name) "string" = Return f ->
  Defaults_prelog host this (VStr name) (map VStr ss)
  = Return (map (fun s => VStr (f s)) ss).
Proof.
  intros H. unfold Defaults_prelog. simpl.
  destruct (chalks host this name) as [ | g | slots]; simpl in H;
    try discriminate.
  destruct (slots "string") as [g | ] eqn:E; inversion H; subst g.
  rewrite (prelog_map_strings this slots f _ E). simpl.
  f_equal. induction ss as [ | s ss IH]; simpl; [reflexivity | now rewrite IH].
Qed.

(** The default prefix: the styled caret for [info], whatever the brace
    style; for any other level the upper-cased name in the level's
    prefix style between brackets in the brace style. *)
Theorem default_prefix_form (this : Logger) (name : string) (p : style) :
  slot_method (chalks host this name) "prefix" = Return p ->
  (name = "info" ->
   Defaults_prefix host this (VStr name) = Return (VStr (p (Caret host)))) /\
  (name <> "info" ->
   forall b, chalks host this "brace" = Compiled b ->
   Defaults_prefix host this (VStr name)
   = Return (VStr (b "[" ++ p (toUpperCase name) ++ b "]"))).
Proof.
  intros Hp. unfold Defaults_prefix, is_info. split.
  - intros ->. simpl. simpl in Hp. rewrite Hp. reflexivity.
  - intros Hne b Hb. destruct (String.eqb name "info") eqn:E.
    + apply String.eqb_eq in E. contradiction.
    + unfold brace. rewrite Hb. simpl. rewrite Hp. reflexivity.
Qed.

End DefaultCallables.

Lemma prelog_passes_other_arguments_through_witness :
  Defaults_prelog plain_host plain_logger (VStr "info")
    [VNum (Int 7); VBool true; VArray [VStr "a"]; VObject []]
  = Return [VNum (Int 7); VBool true; VArray [VStr "a"]; VObject []].
Proof.
  apply (prelog_passes_other_arguments_through plain_host plain_logger "info").
  reflexivity.
Defined.

Lemma prelog_drops_only_nullish_without_error_witness :
  (List.length [VObject [("throwing", VBool true)]; VStr "a"]
   <= List.length (filter not_nullish
                     [VNull; VObject [("throwing", VBool true)]; VStr "a"]))%nat /\
  (existsb Is_Error [VNull; VObject [("throwing", VBool true)]; VStr "a"] = false ->
   List.length [VObject [("throwing", VBool true)]; VStr "a"]
   = List.length (filter not_nullish
                    [VNull; VObject [("throwing", VBool true)]; VStr "a"])).
Proof.
  apply (prelog_drops_only_nullish_without_error plain_host plain_logger
           (VStr "info")).
  reflexivity.
Defined.

Lemma prelog_styles_every_string_witness :
  Defaults_prelog plain_host plain_logger (VStr "info") (map VStr ["a"; ""])
  = Return (map (fun s => VStr ((fun text => text) s)) ["a"; ""]).
Proof.
  apply (prelog_styles_every_string plain_host plain_logger "info"
           (fun text => text) ["a"; ""]).
  reflexivity.
Defined.

Lemma default_prefix_form_witness :
  ("warn" = "info" ->
   Defaults_prefix plain_host plain_logger (VStr "warn")
   = Return (VStr ((fun text => text) (Caret plain_host)))) /\
  ("warn" <> "info" ->
   forall b, chalks plain_host plain_logger "brace" = Compiled b ->
   Defaults_prefix plain_host plain_logger (VStr "warn")
   = Return (VStr (b "[" ++ (fun text : string => text) (toUpperCase "warn") ++ b "]"))).
Proof.
  apply (default_prefix_form plain_host plain_logger "warn" (fun text => text)).
  reflexivity.
Defined.

(** ** The default level and unrecognised names *)

Section Words.

Lemma letter_not_space : forall c, is_letter c = true -> is_space c = false.
Proof.
  intros [[ | ] [ | ] [ | ] [ | ] [ | ] [ | ] [ | ] [ | ]]; vm_compute;
    intros; congruence.
Qed.

Lemma letter_not_digit : forall c, is_letter c = true -> is_digit c = false.
Proof.
  intros [[ | ] [ | ] [ | ] [ | ] [ | ] [ | ] [ | ] [ | ]]; vm_compute;
    intros; congruence.
Qed.

Lemma letter_lower : forall c, is_letter c = true -> is_letter (lower_char c) = true.
Proof.
  intros [[ | ] [ | ] [ | ] [ | ] [ | ] [ | ] [ | ] [ | ]]; vm_compute;
    intros; congruence.
Qed.

Lemma letters_drop_spaces (cs : list ascii) :
  forallb is_letter cs = true -> drop_spaces cs = cs.
Proof.
  destruct cs as [ | c r]; simpl; [reflexivity | ].
  intros H. apply andb_prop in H. destruct H as [Hc _].
  now rewrite (letter_not_space c Hc).
Qed.

Lemma letters_trim (cs : list ascii) :
  forallb is_letter cs = true -> trim cs = cs.
Proof.
  intros H. unfold trim. rewrite (letters_drop_spaces cs H).
  rewrite letters_drop_spaces; [apply rev_involutive | ].
  rewrite forallb_forall in *. intros c Hc. apply H. now apply in_rev.
Qed.

(** A word reads as NaN, or as Infinity when it is that very word. *)
Lemma word_StringToNumber (s : string) :
  word s = true ->
  StringToNumber s = NaN \/ StringToNumber s = Inf false.
Proof.
  unfold word, StringToNumber, StrNumericLiteral. intros H.
  apply andb_prop in H. destruct H as [Hne Hl].
  rewrite (letters_trim _ Hl).
  destruct (chars s) as [ | c r] eqn:E.
  - destruct s; [discriminate | discriminate].
  - simpl in Hl. apply andb_prop in Hl. destruct Hl as [Hc Hr].
    assert (Hlit : unsigned_literal (c :: r) = NaN \/
                   unsigned_literal (c :: r) = Inf false).
    { unfold unsigned_literal.
      destruct (list_eq_dec ascii_dec (c :: r) (chars "Infinity"));
        [now right | left].
      destruct c as [[ | ] [ | ] [ | ] [ | ] [ | ] [ | ] [ | ] [ | ]];
        try (vm_compute in Hc; discriminate); reflexivity. }
    destruct c as [[ | ] [ | ] [ | ] [ | ] [ | ] [ | ] [ | ] [ | ]];
      try (vm_compute in Hc; discriminate); exact Hlit.
Qed.

Lemma word_toLowerCase (s : string) : word s = true -> word (toLowerCase s) = true.
Proof.
  unfold word. intros H. apply andb_prop in H. destruct H as [Hne Hl].
  apply andb_true_intro. split.
  - destruct s; [discriminate | reflexivity].
  - rewrite chars_toLowerCase. rewrite forallb_forall in *.
    intros c Hc. apply in_map_iff in Hc. destruct Hc as (c' & <- & Hc').
    apply letter_lower. now apply Hl.
Qed.

Lemma word_not_below (s : string) (k : Z) :
  word s = true -> number_ltb (StringToNumber s) (Int k) = false.
Proof.
  intros H. destruct (word_StringToNumber s H) as [-> | ->]; reflexivity.
Qed.

End Words.

(** A word that is no property name of [LevelNums] or of [LevelNames]
    resolves to the default level: such a name reaches line 317. *)
Theorem unknown_word_resolves_to_default (D : value) (s : string) :
  word s = true ->
  has_property (KString (toLowerCase s)) LevelNums_properties = false ->
  has_property (KString (toLowerCase s)) LevelNames_properties = false ->
  getLevelNumber D (VStr s) = Return D.
Proof.
  intros Hw H1 H2. unfold getLevelNumber.
  change (ToPropertyKey (VStr (toLowerCase s)))
    with (Return (KString (toLowerCase s))).
  cbv beta iota delta [obind]. rewrite H1, H2.
  change (lt (VStr (toLowerCase s)) (VNum (Int 0)))
    with (Return (number_ltb (StringToNumber (toLowerCase s)) (Int 0))).
  now rewrite (word_not_below _ 0 (word_toLowerCase s Hw)).
Qed.

Lemma unknown_word_resolves_to_default_witness :
  getLevelNumber info_level (VStr "Verbose") = Return info_level.
Proof.
  apply (unknown_word_resolves_to_default info_level "Verbose"); reflexivity.
Defined.

Lemma level_name_not_empty (name s : string) (v : value) :
  In (name, v) LevelNums -> toLowerCase s = name ->
  env_set (Some s) = Some s.
Proof.
  intros Hl Hs. destruct s as [ | c s]; [ | reflexivity].
  simpl in Hs. subst name. apply level_cases in Hl.
  repeat (destruct Hl as [Hl | Hl]; [discriminate | ]). discriminate.
Qed.

(** The default level at module initialisation: a non-empty [DEBUG]
    gives 4 whatever else is set; otherwise a level name in [LOG_LEVEL],
    in any letter case, gives its ordinal whatever [LOGLEVEL] holds;
    [LOGLEVEL] counts only when [LOG_LEVEL] is unset or empty; with none
    of the three set, or all empty, the default is 2. *)
Theorem default_level_from_environment :
  (forall flag l1 l2,
     flag <> "" ->
     Defaults_logLevel_init (mkEnv (Some flag) l1 l2) = Return (VNum (Int 4))) /\
  (forall d s l2 name k,
     env_set d = None -> toLowerCase s = name ->
     In (name, VNum (Int k)) LevelNums ->
     Defaults_logLevel_init (mkEnv d (Some s) l2) = Return (VNum (Int k))) /\
  (forall d l1 s name k,
     env_set d = None -> env_set l1 = None -> toLowerCase s = name ->
     In (name, VNum (Int k)) LevelNums ->
     Defaults_logLevel_init (mkEnv d l1 (Some s)) = Return (VNum (Int k))) /\
  (forall d l1 l2,
     env_set d = None -> env_set l1 = None -> env_set l2 = None ->
     Defaults_logLevel_init (mkEnv d l1 l2) = Return (VNum (Int 2))).
Proof.
  split; [ | split; [ | split]].
  - intros flag l1 l2 H. now apply Defaults_logLevel_init_debug.
  - intros d s l2 name k Hd Hs Hl.
    unfold Defaults_logLevel_init, Defaults_logLevel_raw. simpl DEBUG.
    simpl LOG_LEVEL. rewrite Hd, (level_name_not_empty name s _ Hl Hs).
    now apply (getLevelNumber_name _ name).
  - intros d l1 s name k Hd H1 Hs Hl.
    unfold Defaults_logLevel_init, Defaults_logLevel_raw. simpl DEBUG.
    simpl LOG_LEVEL. simpl LOGLEVEL.
    rewrite Hd, H1, (level_name_not_empty name s _ Hl Hs).
    now apply (getLevelNumber_name _ name).
  - intros d l1 l2 Hd H1 H2.
    unfold Defaults_logLevel_init, Defaults_logLevel_raw. simpl DEBUG.
    simpl LOG_LEVEL. simpl LOGLEVEL. rewrite Hd, H1, H2. reflexivity.
Qed.

Lemma default_level_from_environment_witness :
  Defaults_logLevel_init (mkEnv (Some "1") (Some "error") None)
  = Return (VNum (Int 4)) /\
  Defaults_logLevel_init (mkEnv (Some "") (Some "WARN") (Some "debug"))
  = Return (VNum (Int 1)) /\
  Defaults_logLevel_init (mkEnv None (Some "") (Some "Log"))
  = Return (VNum (Int 3)) /\
  Defaults_logLevel_init (mkEnv None (Some "") None) = Return (VNum (Int 2)).
Proof.
  destruct default_level_from_environment as (H1 & H2 & H3 & H4).
  split; [ | split; [ | split]].
  - apply H1. discriminate.
  - apply (H2 _ "WARN" _ "warn" 1); [reflexivity | reflexivity | simpl; tauto].
  - apply (H3 _ _ "Log" "log" 3);
      [reflexivity | reflexivity | reflexivity | simpl; tauto].
  - apply H4; reflexivity.
Defined.

(** An unrecognised word in [LOG_LEVEL] does not fall back to [info]: the
    fallback is read while the raw string is still in place, so the
    string itself becomes the default level; it compares as NaN (or as
    Infinity), and a logger whose threshold is that default admits every
    level. *)
Theorem unrecognised_LOG_LEVEL_admits_every_level (host : Host) (s : string)
        (l2 : option string) (this : Logger) (name : string) (k : Z)
        (args : list value) :
  word s = true ->
  has_property (KString (toLowerCase s)) LevelNums_properties = false ->
  has_property (KString (toLowerCase s)) LevelNames_properties = false ->
  opts_logLevel (opts this) = VStr s ->
  In (name, VNum (Int k)) LevelNums ->
  Defaults_logLevel_init (mkEnv None (Some s) l2) = Return (VStr s) /\
  logLevel (VStr s) this = Return (VStr s) /\
  level_method host (VStr s) this name args
  = log_admitted host this (VNum (Int k)) args.
Proof.
  intros Hw H1 H2 HT Hl.
  assert (Hne : env_set (Some s) = Some s).
  { unfold word in Hw. destruct s; [discriminate | reflexivity]. }
  assert (HD : getLevelNumber (VStr s) (VStr s) = Return (VStr s))
    by now apply unknown_word_resolves_to_default.
  split; [ | split].
  - unfold Defaults_logLevel_init, Defaults_logLevel_raw. simpl DEBUG.
    simpl LOG_LEVEL. change (env_set None) with (@None string). cbv iota.
    rewrite Hne. exact HD.
  - unfold logLevel. now rewrite HT.
  - rewrite (level_method_log host (VStr s) this name _ args Hl). unfold log.
    rewrite getLevelNumber_ordinal by now apply (level_ordinal_range name).
    rewrite bind_lift_Return. unfold logLevel. rewrite HT, HD, bind_lift_Return.
    change (gt (VNum (Int k)) (VStr s))
      with (Return (number_ltb (StringToNumber s) (Int k))).
    now rewrite (word_not_below s k Hw), bind_lift_Return.
Qed.

Lemma unrecognised_LOG_LEVEL_admits_every_level_witness :
  Defaults_logLevel_init (mkEnv None (Some "verbose") None)
  = Return (VStr "verbose") /\
  logLevel (VStr "verbose") (set_logLevel plain_logger (VStr "verbose"))
  = Return (VStr "verbose") /\
  level_method plain_host (VStr "verbose")
               (set_logLevel plain_logger (VStr "verbose")) "debug" [VStr "x"]
  = log_admitted plain_host (set_logLevel plain_logger (VStr "verbose"))
                 (VNum (Int 4)) [VStr "x"].
Proof.
  apply (unrecognised_LOG_LEVEL_admits_every_level plain_host "verbose" None
           (set_logLevel plain_logger (VStr "verbose")) "debug" 4 [VStr "x"]);
    try reflexivity.
  simpl. tauto.
Defined.

(** Resolution is idempotent on what it recognises: the result for a
    level name in any letter case, for an ordinal, and for a negative
    integer resolves to itself. *)
Theorem resolution_is_idempotent (D : value) (v r : value) :
  ((exists s name k, v = VStr s /\ toLowerCase s = name /\
                     In (name, VNum (Int k)) LevelNums) \/
   (exists n, v = VNum (Int n) /\ n <= 4)) ->
  getLevelNumber D v = Return r ->
  getLevelNumber D r = Return r.
Proof.
  intros [(s & name & k & -> & Hs & Hl) | (n & -> & Hn)] H.
  - rewrite (getLevelNumber_name D name s _ Hl Hs) in H. inversion H; subst r.
    apply getLevelNumber_ordinal. now apply (level_ordinal_range name).
  - destruct (Z.neg_nonneg_cases n) as [Hneg | Hpos].
    + rewrite getLevelNumber_negative in H by assumption.
      inversion H; subst r. reflexivity.
    + rewrite getLevelNumber_ordinal in H by lia.
      inversion H; subst r. apply getLevelNumber_ordinal. lia.
Qed.

Lemma resolution_is_idempotent_witness :
  getLevelNumber info_level (VNum (Int (-1))) = Return (VNum (Int (-1))).
Proof.
  apply (resolution_is_idempotent info_level (VNum (Int (-7)))).
  - right. exists (-7). split; [reflexivity | lia].
  - reflexivity.
Defined.

(** ** Construction, colours and the stream setters *)

Section Configuration.

Variable host : Host.
Variable D : value.

Lemma print_run (this : Logger) (args : list value) :
  Is_WriteableStream (stdout this) = true ->
  print host this args
  = ([CallFormat args; Write (stdout this) (format_text host this args ++ LF)],
     Return tt).
Proof.
  intros H. unfold print, write. rewrite format_trace. cbn [bind].
  now rewrite stream_write_run.
Qed.

Lemma eprint_run (this : Logger) (args : list value) :
  Is_WriteableStream (stderr this) = true ->
  eprint host this args
  = ([CallFormat args; Write (stderr this) (format_text host this args ++ LF)],
     Return tt).
Proof.
  intros H. unfold eprint, ewrite. rewrite format_trace. cbn [bind].
  now rewrite stream_write_run.
Qed.

Lemma default_styles_complete :
  styles_complete (merge_styles Defaults_styles []) = true.
Proof. reflexivity. Qed.

(** With both streams writable, given or left to the process streams,
    the constructor returns a logger that holds them, with the given
    threshold or else the default level, and with colours on only if
    asked for and detected; on the default style tree it is operational,
    and [print] on it writes to the configured primary stream. *)
Theorem constructor_accepts_writable_streams (u : UserOpts) :
  Is_WriteableStream (or_default (u_stdout u) (VStream "stdout")) = true ->
  Is_WriteableStream (or_default (u_stderr u) (VStream "stderr")) = true ->
  exists this,
    constructor host D u = Return this /\
    stdout this = or_default (u_stdout u) (VStream "stdout") /\
    stderr this = or_default (u_stderr u) (VStream "stderr") /\
    opts_logLevel (opts this) = or_default (u_logLevel u) D /\
    opts_colors this
    = ToBoolean (merged_colors host u) && negb (DefaultColor host =? 0) /\
    (u_styles u = [] -> operational this = true) /\
    (forall args,
       print host this args
       = ([CallFormat args;
           Write (or_default (u_stdout u) (VStream "stdout"))
                 (format_text host this args ++ LF)],
          Return tt)).
Proof.
  intros Hout Herr.
  assert (E1 : opts_stdout (merge D u)
               = or_default (u_stdout u) (VStream "stdout")) by reflexivity.
  assert (E2 : opts_stderr (merge D u)
               = or_default (u_stderr u) (VStream "stderr")) by reflexivity.
  assert (E3 : opts_styles (merge D u)
               = merge_styles Defaults_styles (u_styles u)) by reflexivity.
  unfold constructor, checkWriteStream. cbv zeta.
  rewrite E1, Hout, E2, Herr. cbn [negb obind].
  eexists. split; [reflexivity | ].
  split; [exact E1 | ]. split; [exact E2 | ]. split; [reflexivity | ].
  split; [ | split].
  - unfold opts_colors. cbn [chalk_level].
    destruct (ToBoolean (merged_colors host u)); reflexivity.
  - intros Hs. unfold operational. cbn [opts].
    rewrite E1, Hout, E2, Herr, E3, Hs, default_styles_complete.
    now rewrite orb_true_r.
  - intros args. rewrite print_run; [now rewrite <- E1 | ].
    unfold stdout. cbn [opts]. now rewrite E1.
Qed.

(** Assigning [opts.colors] switches the chalk instance between off and
    the detected level, never to a level of the caller's: it reads back
    true only if the assigned value is truthy and colours were detected.
    The assignment leaves every option as it was, and the default format
    callable hands the flag read back to [formatWithOptions]. *)
Theorem colors_toggle_between_off_and_detected (this : Logger) (n : value)
        (args : list value) :
  opts_colors (set_colors host this n)
  = ToBoolean n && negb (DefaultColor host =? 0) /\
  opts (set_colors host this n) = opts this /\
  Defaults_format host (set_colors host this n) args
  = formatWithOptions host (ToBoolean n && negb (DefaultColor host =? 0)) args.
Proof.
  assert (H : opts_colors (set_colors host this n)
              = ToBoolean n && negb (DefaultColor host =? 0)).
  { unfold opts_colors, set_colors. cbn [chalk_level].
    destruct (ToBoolean n); reflexivity. }
  repeat split; [exact H | ]. unfold Defaults_format. now rewrite H.
Qed.

Lemma level_method_writes (this : Logger) (name : string) (k : Z)
      (args : list value) :
  In (name, VNum (Int k)) LevelNums ->
  Forall (fun e => exists data, e = Write (destination this k) data)
         (writes (trace (level_method host D this name args))).
Proof.
  intros Hl. pose proof (level_ordinal_range name k Hl) as Hk.
  rewrite (level_method_log host D this name _ args Hl).
  unfold log. rewrite getLevelNumber_ordinal by assumption.
  rewrite bind_lift_Return.
  apply writes_bind; [apply writes_lift | intros threshold].
  apply writes_bind; [apply writes_lift | intros above].
  destruct above; [apply writes_ret | ].
  now apply (log_admitted_writes host this name).
Qed.


(** The rendering with the stack is the rendering without it, followed by
    a newline and the trace in the [stack] style. *)
Theorem formatError_appends_the_stack (this : Logger) (err : ErrorInfo)
        (headline : string) (stack_style : style) :
  formatError host this err true = Return headline ->
  slot_method (chalks host this "error") "stack" = Return stack_style ->
  formatError host this err false
  = Return (headline ++ LF ++ stack_style (fst (parseStack host err))).
Proof.
  unfold formatError. destruct (parseStack host err) as [stack rawMessage].
  destruct (slot_method (chalks host this "error") "name") as [f | ];
    [ | discriminate].
  destruct (slot_method (chalks host this "error") "message") as [g | ];
    [ | discriminate].
  simpl. intros H Hs. inversion H; subst headline. rewrite Hs. reflexivity.
Qed.

End Configuration.

Lemma constructor_accepts_writable_streams_witness :
  exists this,
    constructor plain_host info_level no_options = Return this /\
    stdout this = or_default (u_stdout no_options) (VStream "stdout") /\
    stderr this = or_default (u_stderr no_options) (VStream "stderr") /\
    opts_logLevel (opts this) = or_default (u_logLevel no_options) info_level /\
    opts_colors this
    = ToBoolean (merged_colors plain_host no_options)
      && negb (DefaultColor plain_host =? 0) /\
    (u_styles no_options = [] -> operational this = true) /\
    (forall args,
       print plain_host this args
       = ([CallFormat args;
           Write (or_default (u_stdout no_options) (VStream "stdout"))
                 (format_text plain_host this args ++ LF)],
          Return tt)).
Proof.
  apply (constructor_accepts_writable_streams plain_host info_level no_options);
    reflexivity.
Defined.


Lemma formatError_appends_the_stack_witness :
  formatError plain_host plain_logger
              (mkErrorInfo "" "RangeError" "too far" "    at f (a.js:2:3)") false
  = Return ("RangeError: too far" ++ LF
            ++ (fun text => text)
                 (fst (parseStack plain_host
                         (mkErrorInfo "" "RangeError" "too far"
                                      "    at f (a.js:2:3)")))).
Proof.
  apply (formatError_appends_the_stack plain_host plain_logger
           (mkErrorInfo "" "RangeError" "too far" "    at f (a.js:2:3)")
           "RangeError: too far" (fun text => text)); reflexivity.
Defined.

(** ** The array helpers *)

Module ArraysFacts.

Import Arrays.

Section Append.

Context {A : Type}.

Lemma firstn_succ (l : list A) (k : nat) (x : A) :
  nth_error l k = Some x -> firstn (S k) l = (firstn k l ++ [x])%list.
Proof.
  revert k. induction l as [ | a l IH]; intros [ | k] H; simpl in H;
    try discriminate.
  - now inversion H.
  - rewrite !firstn_cons, (IH k H). reflexivity.
Qed.

Lemma forEach_from_push (h0 : store A) (arr values : ref) :
  forall (n k : nat) (h : store A),
    h arr = (h0 arr ++ firstn k (h0 values))%list ->
    (forall r, r <> arr -> h r = h0 r) ->
    (k + n = List.length (h0 values))%nat ->
    forEach_from (fun h value => push h arr value) values n k h arr
    = (h0 arr ++ h0 values)%list /\
    (forall r, r <> arr ->
               forEach_from (fun h value => push h arr value) values n k h r
               = h0 r).
Proof.
  induction n as [ | n IH]; intros k h Harr Hother Hlen; simpl.
  - split; [ | exact Hother]. rewrite Harr.
    replace k with (List.length (h0 values)) by lia. now rewrite firstn_all.
  - assert (Hk : (k < List.length (h0 values))%nat) by lia.
    destruct (nth_error (h0 values) k) as [x | ] eqn:Ex;
      [ | apply nth_error_None in Ex; lia].
    assert (Hread : nth_error (h values) k = Some x).
    { destruct (Nat.eq_dec values arr) as [-> | Hne].
      - rewrite Harr. rewrite nth_error_app1 by exact Hk. exact Ex.
      - now rewrite (Hother values Hne). }
    rewrite Hread. apply IH.
    + unfold push. rewrite Nat.eqb_refl, Harr, (firstn_succ _ _ _ Ex).
      now rewrite app_assoc.
    + intros r Hr. unfold push.
      destruct (Nat.eqb r arr) eqn:E; [apply Nat.eqb_eq in E; contradiction | ].
      now apply Hother.
    + lia.
Qed.

(** [append] returns the array it was given, now holding its former
    elements followed by those [values] had, in order; every other array
    is untouched.  This holds when both parameters are the same array
    too: the loop runs over the length read at the start, so the array is
    doubled and the call ends. *)
Theorem append_extends_in_place (h : store A) (arr values : ref) :
  snd (append h arr values) = arr /\
  fst (append h arr values) arr = (h arr ++ h values)%list /\
  (forall r, r <> arr -> fst (append h arr values) r = h r) /\
  fst (append h arr arr) arr = (h arr ++ h arr)%list.
Proof.
  assert (H : forall values,
             fst (append h arr values) arr = (h arr ++ h values)%list /\
             (forall r, r <> arr -> fst (append h arr values) r = h r)).
  { intros v. unfold append, forEach. simpl.
    apply forEach_from_push; [now rewrite app_nil_r | auto | lia]. }
  destruct (H values) as [H1 H2]. destruct (H arr) as [H3 _].
  repeat split; assumption.
Qed.

Lemma last_snoc (l : list A) (x : A) : last (l ++ [x]) = Some x.
Proof.
  unfold last. rewrite length_app. simpl.
  replace (Z.of_nat (List.length l + 1) - 1) with (Z.of_nat (List.length l)) by lia.
  destruct (Z.of_nat (List.length l) <? 0) eqn:E; [apply Z.ltb_lt in E; lia | ].
  rewrite Nat2Z.id. rewrite nth_error_app2 by lia.
  now rewrite Nat.sub_diag.
Qed.

Lemma snoc_cases (l : list A) : l = [] \/ exists l' x, l = (l' ++ [x])%list.
Proof.
  destruct l as [ | a l]; [now left | right].
  exists (removelast (a :: l)), (List.last (a :: l) a).
  apply app_removelast_last. discriminate.
Qed.

(** [last] of an empty array is [undefined] and raises nothing; on a
    non-empty array it is the element pushed last; and after
    [append(arr, values)] the last element of [arr] is that of [values],
    or its own when [values] is empty. *)
Theorem last_of_empty_pushed_and_appended (h : store A) (arr values : ref)
        (l : list A) (x : A) :
  last (@nil A) = None /\
  last (l ++ [x]) = Some x /\
  last (push h arr x arr) = Some x /\
  last (fst (append h arr values) arr)
  = match h values with
    | [] => last (h arr)
    | _ => last (h values)
    end.
Proof.
  split; [reflexivity | ]. split; [apply last_snoc | ]. split.
  - unfold push. rewrite Nat.eqb_refl. apply last_snoc.
  - destruct (append_extends_in_place h arr values) as (_ & -> & _).
    destruct (snoc_cases (h values)) as [-> | (l' & y & ->)].
    + now rewrite app_nil_r.
    + rewrite app_assoc, !last_snoc.
      destruct (l' ++ [y])%list eqn:E; [ | reflexivity].
      apply app_eq_nil in E. destruct E as [_ E]. discriminate.
Qed.

End Append.

Lemma reduce_integers (zs : list Z) :
  forall acc,
    reduce (fun acc cur => add acc cur) (map (fun z => VNum (Int z)) zs)
           (VNum (Int acc))
    = Return (VNum (Int (fold_left Z.add zs acc))).
Proof.
  induction zs as [ | z zs IH]; intros acc; simpl; [reflexivity | apply IH].
Qed.

Lemma reduce_strings (ss : list string) :
  forall acc,
    reduce (fun acc cur => add acc cur) (map VStr ss) (VStr acc)
    = Return (VStr (acc ++ String.concat "" ss)).
Proof.
  induction ss as [ | s ss IH]; intros acc.
  - simpl. f_equal. f_equal.
    induction acc as [ | c acc IHa]; simpl; [reflexivity | now rewrite <- IHa].
  - change (reduce (fun acc cur => add acc cur) (map VStr (s :: ss)) (VStr acc))
      with (reduce (fun acc cur => add acc cur) (map VStr ss) (VStr (acc ++ s))).
    rewrite IH. f_equal. f_equal.
    assert (Hc : String.concat "" (s :: ss) = s ++ String.concat "" ss).
    { destruct ss; simpl; [ | reflexivity].
      induction s as [ | c s IHs]; simpl; [reflexivity | now rewrite <- IHs]. }
    rewrite Hc.
    induction acc as [ | c acc IHa]; simpl; [reflexivity | now rewrite IHa].
Qed.

(** [sum] of integers whose running totals are safe integers is their
    sum, 0 for the empty array, and it distributes over concatenation;
    on strings it does not fail but concatenates them behind the initial
    ["0"]. *)
Theorem sum_of_integers_and_of_strings (xs ys : list Z) (s : string)
        (ss : list string) :
  safe_sums 0 (xs ++ ys) ->
  sum [] = Return (VNum (Int 0)) /\
  sum (map (fun z => VNum (Int z)) xs)
  = Return (VNum (Int (fold_right Z.add 0 xs))) /\
  sum (map (fun z => VNum (Int z)) (xs ++ ys))
  = Return (VNum (Int (fold_right Z.add 0 xs + fold_right Z.add 0 ys))) /\
  sum (map VStr (s :: ss)) = Return (VStr ("0" ++ s ++ String.concat "" ss)).
Proof.
  intros _.
  assert (Hfold : forall zs acc, fold_left Z.add zs acc = acc + fold_right Z.add 0 zs).
  { induction zs as [ | z zs IH]; intros acc; simpl; [lia | rewrite IH; lia]. }
  assert (Happ : forall a b, fold_right Z.add 0 (a ++ b)
                             = fold_right Z.add 0 a + fold_right Z.add 0 b).
  { induction a as [ | z a IH]; intros b; simpl; [reflexivity | rewrite IH; lia]. }
  split; [reflexivity | ]. unfold sum. split; [ | split].
  - rewrite reduce_integers, Hfold. reflexivity.
  - rewrite reduce_integers, Hfold, Happ. reflexivity.
  - change (reduce (fun acc cur => add acc cur) (map VStr (s :: ss)) (VNum (Int 0)))
      with (reduce (fun acc cur => add acc cur) (map VStr ss) (VStr ("0" ++ s))).
    rewrite reduce_strings. reflexivity.
Qed.

End ArraysFacts.

Lemma sum_of_integers_and_of_strings_witness :
  Arrays.sum [] = Return (VNum (Int 0)) /\
  Arrays.sum (map (fun z => VNum (Int z)) [1; 2])
  = Return (VNum (Int (fold_right Z.add 0 [1; 2]))) /\
  Arrays.sum (map (fun z => VNum (Int z)) ([1; 2] ++ [-3]))
  = Return (VNum (Int (fold_right Z.add 0 [1; 2] + fold_right Z.add 0 [-3]))) /\
  Arrays.sum (map VStr ["a"; "b"])
  = Return (VStr ("0" ++ "a" ++ String.concat "" ["b"])).
Proof.
  apply (ArraysFacts.sum_of_integers_and_of_strings [1; 2] [-3] "a" ["b"]).
  simpl. lia.
Defined.

(** ** Level resolution on the integers, and thresholds that are no number *)

Lemma lookup_above_4 (table : list (string * value)) (p : positive) :
  no_key_above_4 table = true -> 4 < Z.pos p ->
  lookup (Number_toString (Int (Z.pos p))) table = None.
Proof.
  intros Htable Hp. induction table as [ | [k v] r IH]; [reflexivity | ].
  unfold no_key_above_4 in Htable. simpl in Htable.
  apply andb_prop in Htable. destruct Htable as [Hk Hr].
  simpl lookup. destruct (String.eqb _ k) eqn:E; [ | now apply IH].
  apply String.eqb_eq in E. subst k. exfalso.
  change (Number_toString (Int (Z.pos p)))
    with (NilZero.string_of_uint (Pos.to_uint p)) in Hk.
  rewrite NilZero.usu in Hk by apply DecimalPos.Unsigned.to_uint_nonnil.
  pose proof (DecimalZ.of_to (Z.pos p)) as Hz. simpl in Hz.
  rewrite Hz in Hk. apply Z.leb_le in Hk. lia.
Qed.

(** Level resolution on the integers: a negative integer gives -1, an
    ordinal gives itself, and an integer above 4 is not clamped to the
    most verbose level but gives the default level. *)
Theorem resolution_of_integers (D : value) (n : Z) :
  getLevelNumber D (VNum (Int n))
  = Return (if n <? 0 then VNum (Int (-1))
            else if n <=? 4 then VNum (Int n)
            else D).
Proof.
  destruct (n <? 0) eqn:E0.
  - apply getLevelNumber_negative. now apply Z.ltb_lt.
  - apply Z.ltb_ge in E0. destruct (n <=? 4) eqn:E4.
    + apply getLevelNumber_ordinal. apply Z.leb_le in E4. lia.
    + apply Z.leb_gt in E4. destruct n as [ | p | p]; try lia.
      unfold getLevelNumber.
      change (ToPropertyKey (VNum (Int (Z.pos p))))
        with (Return (KString (Number_toString (Int (Z.pos p))))).
      cbv beta iota delta [obind has_property].
      rewrite (lookup_above_4 LevelNums_properties p eq_refl E4).
      rewrite (lookup_above_4 LevelNames_properties p eq_refl E4).
      reflexivity.
Qed.





(** A threshold that reads as a number with a fraction gates as that
    number.  With [LOG_LEVEL=2.5] the default level is the string
    ["2.5"]: a logger left at the default admits [info] and silences
    [log]; and ["-0.5"] resolves as any negative number does. *)
Remark fractional_default_level :
  let D := VStr "2.5" in
  let this := mkLogger (merge D no_options) 0 in
  Defaults_logLevel_init (mkEnv None (Some "2.5") None) = Return D /\
  ToNumber D = Return (Frac 5 1) /\
  level_method plain_host D this "log" [VStr "x"] = ([], Return tt) /\
  writes (trace (level_method plain_host D this "info" [VStr "x"]))
  = [Write (VStream "stdout") "> "; Write (VStream "stdout") ("x" ++ LF)] /\
  getLevelNumber D (VStr "-0.5") = Return (VNum (Int (-1))).
Proof. repeat split; reflexivity. Qed.

(** A plain object with the single entry [key: text], [key] naming a
    style slot of the level and not being [throwing], is rendered as the
    key, a colon and the text in the slot's style, the whole in the
    [string] style, wherever it stands among the arguments. *)
Theorem prelog_renders_key_value_fragment (host : Host) (this : Logger)
        (name key text : string) (args out : list value)
        (slot_style string_style : style) :
  Defaults_prelog host this (VStr name) args = Return out ->
  In (VObject [(key, VStr text)]) args ->
  key <> "throwing" ->
  slot_in (chalks host this name) key = Return (Some slot_style) ->
  slot_method (chalks host this name) "string" = Return string_style ->
  In (VStr (string_style (key ++ ": " ++ slot_style text))) out.
Proof.
  intros Hout Hin Hkey Hslot Hstring.
  destruct (Defaults_prelog_inv host this name args out Hout)
    as (mapped & Hmap & ->).
  apply In_filter_not_nullish.
  destruct (In_nth_error _ _ Hin) as [i Hi].
  destruct (prelog_map_nth host this _ args args false mapped Hmap i _ Hi)
    as (r & Hr & Hnth).
  simpl in Hr.
  destruct (String.eqb key "throwing") eqn:E;
    [apply String.eqb_eq in E; contradiction | ].
  simpl in Hr. rewrite Hslot in Hr. simpl in Hr. rewrite Hstring in Hr.
  simpl in Hr. inversion Hr; subst r. now apply nth_error_In in Hnth.
Qed.

Lemma prelog_renders_key_value_fragment_witness :
  In (VStr ((fun t : string => t) ("file" ++ ": " ++ (fun t : string => t) "a.js")))
     [VStr "x"; VStr "file: a.js"].
Proof.
  apply (prelog_renders_key_value_fragment plain_host plain_logger "info" "file"
           "a.js" [VStr "x"; VObject [("file", VStr "a.js")]]
           [VStr "x"; VStr "file: a.js"] (fun t => t) (fun t => t)).
  - reflexivity.
  - simpl. tauto.
  - discriminate.
  - reflexivity.
  - reflexivity.
Defined.
